(** * SQLify: the query pipeline of [backend/server.js] and [frontend/src/App.js]

    A shallow embedding of the security scanner, the grammar validator, the
    relevance filter of the RAG context, the condition evaluator, the
    aggregation engine and the SQL interpreter, of the request handler of
    the server, the vector store and the names of an uploaded file,
    together with the part of the JavaScript run time they rest on
    (strings, numbers, regular expressions, arrays, objects, sets).

    Conventions of the model.
    - A JavaScript string is a [string]: one [ascii] per UTF-16 code unit,
      restricted to the code units 0..255 (Latin-1).  On that range
      [toLowerCase] is a code-unit-wise map and is modelled exactly.
    - A JavaScript number is an IEEE 754 binary64 value, modelled by
      [spec_float] with precision 53 and maximal exponent 1024.
    - A row (a plain object) is an association list whose order is the
      order of [Object.keys]; column names are assumed not to collide with
      the members of [Object.prototype].
    - A call that can throw returns a [result]; the limits of an engine
      (stack depth, memory) are not part of the model, but for the number
      of arguments that a call takes, which [calculateAggregationOn] has
      as a parameter. *)

From Stdlib Require Import List String Ascii ZArith NArith Bool Lia Permutation.
From Stdlib Require Import DecimalString.
From Stdlib Require Import SpecFloat.
Import ListNotations.

Local Open Scope string_scope.
Local Open Scope bool_scope.

(** ** The JavaScript run time *)

Module JS.

(** *** Code units *)

Definition code (c : ascii) : N := N_of_ascii c.

Definition between (lo hi : N) (c : ascii) : bool :=
  ((lo <=? code c) && (code c <=? hi))%N.

Definition isUpperAscii (c : ascii) : bool := between 65 90 c.
Definition isLowerAscii (c : ascii) : bool := between 97 122 c.
Definition isDigit (c : ascii) : bool := between 48 57 c.

(** [\w] *)
Definition isWord (c : ascii) : bool :=
  isUpperAscii c || isLowerAscii c || isDigit c || (code c =? 95)%N.

(** [\s], which is also the set that [trim] strips: TAB, LF, VT, FF, CR,
    SPACE and NBSP are the white space and line terminators below 256. *)
Definition isSpace (c : ascii) : bool :=
  between 9 13 c || (code c =? 32)%N || (code c =? 160)%N.

(** The line terminators, which [.] does not match. *)
Definition isLineTerminator (c : ascii) : bool :=
  (code c =? 10)%N || (code c =? 13)%N.

(** Lower-casing of one code unit: A-Z, and the Latin-1 capitals
    U+00C0..U+00DE without the multiplication sign U+00D7. *)
Definition lowerChar (c : ascii) : ascii :=
  if isUpperAscii c || (between 192 222 c && negb (code c =? 215)%N)
  then ascii_of_N (code c + 32)
  else c.

(** Canonicalize of a regular expression with the [i] flag and without the
    [u] flag: the code unit is upper-cased, unless that needs more than one
    code unit or takes a code unit above 127 to one below 128.  The small
    Latin-1 letters go to their capitals; U+00B5, U+00DF and U+00FF, whose
    capitals are not Latin-1, are canonical for no other Latin-1 code unit
    and stand for themselves. *)
Definition canonicalize (c : ascii) : ascii :=
  if isLowerAscii c || (between 224 254 c && negb (code c =? 247)%N)
  then ascii_of_N (code c - 32)
  else c.

(** *** Strings *)

Fixpoint smap (f : ascii -> ascii) (s : string) : string :=
  match s with
  | EmptyString => EmptyString
  | String c s' => String (f c) (smap f s')
  end.

Definition toLowerCase (s : string) : string := smap lowerChar s.

Fixpoint startsWith (s p : string) {struct p} : bool :=
  match p, s with
  | EmptyString, _ => true
  | String _ _, EmptyString => false
  | String a p', String b s' => Ascii.eqb a b && startsWith s' p'
  end.

(** [s.includes(t)] *)
Fixpoint includes (s t : string) : bool :=
  startsWith s t ||
  match s with
  | EmptyString => false
  | String _ s' => includes s' t
  end.

Fixpoint drop (n : nat) (s : string) : string :=
  match n, s with
  | O, _ => s
  | S _, EmptyString => EmptyString
  | S n', String _ s' => drop n' s'
  end.

Fixpoint take (n : nat) (s : string) : string :=
  match n, s with
  | O, _ => EmptyString
  | S _, EmptyString => EmptyString
  | S n', String c s' => String c (take n' s')
  end.

(** [s.indexOf(t)] *)
Fixpoint indexOf (s t : string) : option nat :=
  if startsWith s t then Some O
  else match s with
       | EmptyString => None
       | String _ s' => option_map S (indexOf s' t)
       end.

Fixpoint trimStart (s : string) : string :=
  match s with
  | EmptyString => EmptyString
  | String c s' => if isSpace c then trimStart s' else s
  end.

Fixpoint trimEnd (s : string) : string :=
  match s with
  | EmptyString => EmptyString
  | String c s' =>
      match trimEnd s' with
      | EmptyString => if isSpace c then EmptyString else String c EmptyString
      | t => String c t
      end
  end.

Definition trim (s : string) : string := trimEnd (trimStart s).

(** [s.split(sep)] for a non-empty separator: the pieces between the
    successive, non-overlapping occurrences of [sep], from the left. *)
Fixpoint split_from (fuel : nat) (s sep : string) : list string :=
  match fuel with
  | O => [s]
  | S fuel' =>
      match indexOf s sep with
      | None => [s]
      | Some i => take i s :: split_from fuel' (drop (i + String.length sep) s) sep
      end
  end.

Definition split (s sep : string) : list string :=
  split_from (String.length s) s sep.

(** [s.replace(/[...]/g, '')] for a character class: every code unit of
    the class is removed. *)
Fixpoint removeChars (p : ascii -> bool) (s : string) : string :=
  match s with
  | EmptyString => EmptyString
  | String c s' => if p c then removeChars p s' else String c (removeChars p s')
  end.

Definition strEq (a b : string) : bool := String.eqb a b.

(** [a < b] on strings: code units, lexicographically. *)
Fixpoint strLt (a b : string) : bool :=
  match a, b with
  | _, EmptyString => false
  | EmptyString, String _ _ => true
  | String x a', String y b' =>
      if (code x <? code y)%N then true
      else if (code y <? code x)%N then false
      else strLt a' b'
  end.

(** *** Numbers *)

Definition number : Type := spec_float.

Definition prec : Z := 53.
Definition emax : Z := 1024.

Definition NaN : number := S754_nan.
Definition posZero : number := S754_zero false.

Definition ofZ (z : Z) : number := binary_normalize prec emax z 0 false.
Definition ofNat (n : nat) : number := ofZ (Z.of_nat n).

Definition add (x y : number) : number := SFadd prec emax x y.
Definition div (x y : number) : number := SFdiv prec emax x y.

(** [x < y] and [x <= y]; both are false as soon as one side is NaN. *)
Definition lt (x y : number) : bool := SFltb x y.
Definition le (x y : number) : bool := SFleb x y.

Definition isNaN (x : number) : bool :=
  match x with S754_nan => true | _ => false end.

(** ToBoolean of a number: NaN, +0 and -0 are falsy. *)
Definition numTruthy (x : number) : bool :=
  match x with S754_nan | S754_zero _ => false | _ => true end.

(** [Math.max] and [Math.min] of two arguments, then of a spread array:
    NaN is contagious, +0 is larger than -0, no argument gives the
    infinity of the other sign. *)
Definition max2 (a b : number) : number :=
  if isNaN a || isNaN b then NaN
  else if lt a b then b
  else if lt b a then a
  else match a with S754_zero true => b | _ => a end.

Definition min2 (a b : number) : number :=
  if isNaN a || isNaN b then NaN
  else if lt a b then a
  else if lt b a then b
  else match a with S754_zero true => a | _ => b end.

Definition Math_max (l : list number) : number :=
  fold_left max2 l (S754_infinity true).

Definition Math_min (l : list number) : number :=
  fold_left min2 l (S754_infinity false).

(** The double nearest to [m * 10^e10] (ties to even), for [m >= 0].  A
    negative power of ten is divided out with a sticky bit below the last
    place a double can hold, so the final rounding is the only one. *)
Definition ofDecimal (neg : bool) (m e10 : Z) : number :=
  let sgn := if neg then (-1)%Z else 1%Z in
  if (m =? 0)%Z then S754_zero neg
  else if (400 <? e10)%Z then S754_infinity neg
  else if (0 <=? e10)%Z then binary_normalize prec emax (sgn * m * 10 ^ e10) 0 neg
  else
    let k := (- e10)%Z in
    if (Z.log2 m + 1400 <? k)%Z then S754_zero neg
    else
      let s := Z.max 1080 (60 + 4 * k) in
      let n := (m * 2 ^ s)%Z in
      let d := (10 ^ k)%Z in
      let sticky := if (n mod d =? 0)%Z then 0%Z else 1%Z in
      binary_normalize prec emax (sgn * (2 * (n / d) + sticky)) (- s - 1) neg.

(** Decimal digits of a non-negative integer. *)
Definition digitsOfZ (z : Z) : string :=
  NilZero.string_of_uint (N.to_uint (Z.to_N z)).

Definition digitVal (radix : Z) (c : ascii) : option Z :=
  let n := Z.of_N (code c) in
  let v := if between 48 57 c then Some (n - 48)%Z
           else if between 97 122 c then Some (n - 87)%Z
           else if between 65 90 c then Some (n - 55)%Z
           else None in
  match v with
  | Some d => if (d <? radix)%Z then Some d else None
  | None => None
  end.

Fixpoint digitsValue (radix acc : Z) (s : string) : option Z :=
  match s with
  | EmptyString => Some acc
  | String c s' =>
      match digitVal radix c with
      | Some d => digitsValue radix (acc * radix + d)%Z s'
      | None => None
      end
  end.

(** The value of a non-empty string of digits. *)
Definition parseDigits (radix : Z) (s : string) : option Z :=
  match s with
  | EmptyString => None
  | _ => digitsValue radix 0 s
  end.

Fixpoint spanDigits (s : string) : string * string :=
  match s with
  | String c s' =>
      if isDigit c then let (d, r) := spanDigits s' in (String c d, r)
      else (EmptyString, s)
  | EmptyString => (EmptyString, EmptyString)
  end.

Definition splitSign (s : string) : bool * string :=
  match s with
  | String "-" r => (true, r)
  | String "+" r => (false, r)
  | _ => (false, s)
  end.

(** ExponentPart, or nothing. *)
Definition parseExponent (s : string) : option Z :=
  match s with
  | EmptyString => Some 0%Z
  | String c r =>
      if Ascii.eqb c "e" || Ascii.eqb c "E" then
        let (neg, ds) := splitSign r in
        match parseDigits 10 ds with
        | Some e => Some (if neg then (- e)%Z else e)
        | None => None
        end
      else None
  end.

(** StrUnsignedDecimalLiteral other than [Infinity]: the digits as an
    integer and the power of ten that scales it. *)
Definition parseDecimal (s : string) : option (Z * Z) :=
  let (ip, r1) := spanDigits s in
  let '(fp, r2) :=
    match r1 with
    | String "." r => spanDigits r
    | _ => (EmptyString, r1)
    end in
  match ip, fp with
  | EmptyString, EmptyString => None
  | _, _ =>
      match digitsValue 10 0 (ip ++ fp), parseExponent r2 with
      | Some m, Some e => Some (m, (e - Z.of_nat (String.length fp))%Z)
      | _, _ => None
      end
  end.

(** StringToNumber: [Number(s)] for a string. *)
Definition stringToNumber (s : string) : number :=
  let t := trim s in
  match t with
  | EmptyString => posZero
  | String "0" (String p r) =>
      let radix := if Ascii.eqb p "x" || Ascii.eqb p "X" then Some 16%Z
                   else if Ascii.eqb p "o" || Ascii.eqb p "O" then Some 8%Z
                   else if Ascii.eqb p "b" || Ascii.eqb p "B" then Some 2%Z
                   else None in
      match radix with
      | Some b => match parseDigits b r with
                  | Some v => ofZ v
                  | None => NaN
                  end
      | None => match parseDecimal t with
                | Some (m, e) => ofDecimal false m e
                | None => NaN
                end
      end
  | _ =>
      let (neg, u) := splitSign t in
      if String.eqb u "Infinity" then S754_infinity neg
      else match parseDecimal u with
           | Some (m, e) => ofDecimal neg m e
           | None => NaN
           end
  end.

Definition pow10 (n : Z) : Z := (10 ^ n)%Z.

Definition numDigits (z : Z) : Z := Z.of_nat (String.length (digitsOfZ z)).

Definition sameFinite (a b : number) : bool :=
  match a, b with
  | S754_finite _ m1 e1, S754_finite _ m2 e2 => Pos.eqb m1 m2 && Z.eqb e1 e2
  | _, _ => false
  end.

(** The least [k], counting up from the given one, and a [k]-digit integer
    [s] such that [s * 10^(n-k)] rounds to [x = num / den]; of the two
    candidates around [x] the closer one.  [s] can come out as [10^k]. *)
Fixpoint shortest (fuel : nat) (k : Z) (x : number) (num den n : Z) : Z * Z :=
  match fuel with
  | O => (0, k)%Z
  | S fuel' =>
      let a := (num * pow10 (Z.max 0 (k - n)))%Z in
      let b := (den * pow10 (Z.max 0 (n - k)))%Z in
      let lo := (a / b)%Z in
      let hi := (lo + 1)%Z in
      let okLo := sameFinite (ofDecimal false lo (n - k)) x in
      let okHi := sameFinite (ofDecimal false hi (n - k)) x in
      if okLo && (negb okHi || (a - lo * b <=? hi * b - a)%Z) then (lo, k)
      else if okHi then (hi, k)
      else shortest fuel' (k + 1)%Z x num den n
  end.

Fixpoint stripZeros (fuel : nat) (s : Z) : Z :=
  match fuel with
  | O => s
  | S fuel' => if (s mod 10 =? 0)%Z then stripZeros fuel' (s / 10)%Z else s
  end.

Fixpoint zeros (n : nat) : string :=
  match n with O => EmptyString | S n' => String "0" (zeros n') end.

(** The digits, their number [k] and the exponent [n] that Number::toString
    works with, for the finite positive [m * 2^e]. *)
Definition decimalOf (m : positive) (e : Z) : string * Z * Z :=
  let (num, den) := if (0 <=? e)%Z then (Zpos m * 2 ^ e, 1)%Z
                    else (Zpos m, 2 ^ (- e))%Z in
  let n0 := (numDigits (num * pow10 400 / den) - 400)%Z in
  let (s0, k0) := shortest 17 1 (S754_finite false m e) num den n0 in
  let n := (n0 + (numDigits s0 - k0))%Z in
  let ds := digitsOfZ (stripZeros 20 s0) in
  (ds, Z.of_nat (String.length ds), n).

Definition formatDecimal (ds : string) (k n : Z) : string :=
  if (k <=? n)%Z && (n <=? 21)%Z then ds ++ zeros (Z.to_nat (n - k))
  else if (0 <? n)%Z && (n <=? 21)%Z then
    take (Z.to_nat n) ds ++ "." ++ drop (Z.to_nat n) ds
  else if (-6 <? n)%Z && (n <=? 0)%Z then "0." ++ zeros (Z.to_nat (- n)) ++ ds
  else
    let e := (n - 1)%Z in
    let mant := if (k =? 1)%Z then ds else take 1 ds ++ "." ++ drop 1 ds in
    mant ++ "e" ++ (if (e <? 0)%Z then "-" else "+") ++ digitsOfZ (Z.abs e).

(** Number::toString in radix 10: [String(x)] for a number. *)
Definition numberToString (x : number) : string :=
  match x with
  | S754_nan => "NaN"
  | S754_zero _ => "0"
  | S754_infinity s => if s then "-Infinity" else "Infinity"
  | S754_finite s m e =>
      let '(ds, k, n) := decimalOf m e in
      (if s then "-" else "") ++ formatDecimal ds k n
  end.

(** *** Values *)

(** The scalars a cell of the dataset holds after ingestion, and
    [undefined] for the value of a key the row does not have. *)
Inductive value : Type :=
| VNum (x : number)
| VStr (s : string)
| VBool (b : bool)
| VNull
| VUndefined.

(** [Number(v)] *)
Definition toNumber (v : value) : number :=
  match v with
  | VNum x => x
  | VStr s => stringToNumber s
  | VBool b => if b then ofZ 1 else posZero
  | VNull => posZero
  | VUndefined => NaN
  end.

(** [String(v)] *)
Definition toString (v : value) : string :=
  match v with
  | VNum x => numberToString x
  | VStr s => s
  | VBool b => if b then "true" else "false"
  | VNull => "null"
  | VUndefined => "undefined"
  end.

(** [a < b]: two strings compare by code units, anything else as numbers. *)
Definition lessThan (a b : value) : bool :=
  match a, b with
  | VStr x, VStr y => strLt x y
  | _, _ => lt (toNumber a) (toNumber b)
  end.

(** [v ?? d] *)
Definition nullish (v d : value) : value :=
  match v with
  | VNull | VUndefined => d
  | _ => v
  end.

(** *** Objects used as rows *)

Definition row : Type := list (string * value).

Definition keys (r : row) : list string := map fst r.

(** [r[k]] *)
Fixpoint get (r : row) (k : string) : value :=
  match r with
  | [] => VUndefined
  | (k', v) :: r' => if String.eqb k' k then v else get r' k
  end.

Definition hasOwnProperty (r : row) (k : string) : bool :=
  existsb (String.eqb k) (keys r).

(** An array index as a property name: a canonical decimal numeral below
    [2^32 - 1].  Such keys are enumerated first, in ascending order. *)
Definition arrayIndex (k : string) : option Z :=
  match parseDigits 10 k with
  | Some n => if String.eqb (digitsOfZ n) k && (n <? 4294967295)%Z
              then Some n else None
  | None => None
  end.

(** Where a new key goes in the enumeration order. *)
Fixpoint insertKey (k : string) (v : value) (r : row) : row :=
  match r with
  | [] => [(k, v)]
  | (k', v') :: r' =>
      match arrayIndex k, arrayIndex k' with
      | Some n, Some n' =>
          if (n <? n')%Z then (k, v) :: r else (k', v') :: insertKey k v r'
      | Some _, None => (k, v) :: r
      | None, _ => (k', v') :: insertKey k v r'
      end
  end.

Fixpoint update (k : string) (v : value) (r : row) : row :=
  match r with
  | [] => []
  | (k', v') :: r' =>
      if String.eqb k' k then (k', v) :: r' else (k', v') :: update k v r'
  end.

(** [r[k] = v] for a key that is an own key of [r], or that no setter of
    the prototype of [r] answers: the own cell is written, or made. *)
Definition set (r : row) (k : string) (v : value) : row :=
  if hasOwnProperty r k then update k v r else insertKey k v r.

(** [xs.find(p)] *)
Definition find {A : Type} (p : A -> bool) (xs : list A) : option A :=
  List.find p xs.

(** *** Sorting an array

    [Array.prototype.sort] with a comparator.  The comparators of this
    program never answer 0, so they are not consistent comparators and the
    resulting order is implementation-defined; every engine returns a
    rearrangement of the array, which is all that is assumed here. *)
Class ArraySort : Type := {
  sortWith : (row -> row -> Z) -> list row -> list row;
  sortWith_perm : forall cmp l, Permutation l (sortWith cmp l)
}.

(** One engine: straight insertion, an element going before the first
    element it does not compare greater than. *)
Fixpoint insertSorted (cmp : row -> row -> Z) (x : row) (l : list row) : list row :=
  match l with
  | [] => [x]
  | y :: l' => if (0 <? cmp x y)%Z then y :: insertSorted cmp x l' else x :: l
  end.

Definition insertionSort (cmp : row -> row -> Z) (l : list row) : list row :=
  fold_right (insertSorted cmp) [] l.

(** Insertion sort is a rearrangement, which makes it an engine to run the
    interpreter on.  On keys that are all different the comparators of the
    program are a strict order and every engine sorts as this one does. *)
#[export] Instance insertionEngine : ArraySort.
Proof.
  refine {| sortWith := insertionSort |}.
  assert (Hins : forall cmp x l, Permutation (x :: l) (insertSorted cmp x l)).
  { intros cmp x l. induction l as [|y l IH]; simpl; [apply Permutation_refl|].
    destruct (0 <? cmp x y)%Z; [|apply Permutation_refl].
    eapply perm_trans; [apply perm_swap|]. apply perm_skip. exact IH. }
  intros cmp l. induction l as [|y l IH]; simpl; [apply perm_nil|].
  eapply perm_trans; [apply perm_skip; exact IH | apply Hins].
Defined.

(** *** Further operations on strings and arrays *)

Definition lineFeed : string := String (ascii_of_nat 10) EmptyString.

(** [xs.join(sep)] on an array of strings. *)
Fixpoint join (sep : string) (xs : list string) : string :=
  match xs with
  | [] => EmptyString
  | [x] => x
  | x :: xs' => x ++ sep ++ join sep xs'
  end.

(** What an element of an array gives to [join]: nothing for [null] and
    [undefined], its string for the others. *)
Definition joinText (v : value) : string :=
  match v with
  | VNull | VUndefined => EmptyString
  | _ => toString v
  end.

(** [s.replace(/[...]/g, c)] for a character class: every code unit of the
    class becomes [c]. *)
Definition replaceChars (p : ascii -> bool) (c : ascii) (s : string) : string :=
  smap (fun a => if p a then c else a) s.

(** The code units of a string, as numbers. *)
Fixpoint units (s : string) : list N :=
  match s with
  | EmptyString => []
  | String c s' => code c :: units s'
  end.

(** Upper-casing of one code unit.  The capitals of U+00B5 and U+00FF are
    not Latin-1 and the one of U+00DF is two code units, so the result is
    given by its numbers. *)
Definition upperUnits (c : ascii) : list N :=
  if (code c =? 223)%N then [83; 83]%N
  else if (code c =? 181)%N then [924]%N
  else if (code c =? 255)%N then [376]%N
  else if isLowerAscii c || (between 224 254 c && negb (code c =? 247)%N)
  then [code c - 32]%N
  else [code c].

(** [s.toUpperCase()] *)
Fixpoint toUpperCase (s : string) : list N :=
  match s with
  | EmptyString => []
  | String c s' => (upperUnits c ++ toUpperCase s')%list
  end.

Fixpoint startsWithUnits (u p : list N) {struct p} : bool :=
  match p, u with
  | [], _ => true
  | _ :: _, [] => false
  | a :: p', b :: u' => (a =? b)%N && startsWithUnits u' p'
  end.

(** SameValueZero, the equality of [Set]: NaN is equal to NaN and the two
    zeros are equal. *)
Definition sameValueZero (a b : value) : bool :=
  match a, b with
  | VNum x, VNum y => (isNaN x && isNaN y) || SFeqb x y
  | VStr s, VStr t => String.eqb s t
  | VBool x, VBool y => Bool.eqb x y
  | VNull, VNull => true
  | VUndefined, VUndefined => true
  | _, _ => false
  end.

(** [set.add(v)] on the array of the elements in the order they came in;
    -0 is kept as +0. *)
Definition setAdd (seen : list value) (v : value) : list value :=
  if existsb (sameValueZero v) seen then seen
  else (seen ++ [match v with VNum (S754_zero true) => VNum posZero | _ => v end])%list.

(** [[...new Set(xs)]] *)
Definition distinct (xs : list value) : list value := fold_left setAdd xs [].

(** An element of an array behind [JSON.stringify] and [JSON.parse]:
    [undefined], NaN and the infinities come out as [null], -0 as 0, and
    every other value as it went in. *)
Definition jsonElement (v : value) : value :=
  match v with
  | VUndefined => VNull
  | VNum S754_nan | VNum (S754_infinity _) => VNull
  | VNum (S754_zero _) => VNum posZero
  | _ => v
  end.

End JS.

(** ** Regular expressions

    The backtracking matcher of ECMAScript for the constructs this program
    uses.  Alternatives are tried from the left, a greedy repetition tries
    one more round before it stops and a lazy one stops before it tries
    another round, and the first way to succeed is the match. *)

Module Regex.
Import JS.

Inductive regex : Type :=
| Empty                           (* the empty pattern *)
| Chr (p : ascii -> bool)         (* one code unit of a class *)
| Seq (r1 r2 : regex)
| Alt (r1 r2 : regex)
| Star (greedy : bool) (r : regex)
| Group (i : nat) (r : regex)     (* capturing parentheses number [i] *)
| Bol                             (* [^] without the [m] flag *)
| Eol.                            (* [$] without the [m] flag *)

Definition Plus (greedy : bool) (r : regex) : regex := Seq r (Star greedy r).
Definition Opt (r : regex) : regex := Alt r Empty.

(** A literal code unit, with and without the [i] flag. *)
Definition chr (a : ascii) : regex := Chr (Ascii.eqb a).
Definition chri (a : ascii) : regex :=
  Chr (fun c => Ascii.eqb (canonicalize c) (canonicalize a)).

Fixpoint lit (s : string) : regex :=
  match s with
  | EmptyString => Empty
  | String a EmptyString => chr a
  | String a s' => Seq (chr a) (lit s')
  end.

Fixpoint liti (s : string) : regex :=
  match s with
  | EmptyString => Empty
  | String a EmptyString => chri a
  | String a s' => Seq (chri a) (liti s')
  end.

Fixpoint alts (rs : list regex) : regex :=
  match rs with
  | [] => Empty
  | [r] => r
  | r :: rs' => Alt r (alts rs')
  end.

Fixpoint seqs (rs : list regex) : regex :=
  match rs with
  | [] => Empty
  | [r] => r
  | r :: rs' => Seq r (seqs rs')
  end.

Definition space : regex := Chr isSpace.                          (* \s *)
Definition word : regex := Chr isWord.                            (* \w *)
Definition digit : regex := Chr isDigit.                          (* \d *)
Definition dot : regex := Chr (fun c => negb (isLineTerminator c)). (* .  *)

(** The captures of a match in progress, the latest binding first. *)
Definition captures : Type := list (nat * string).

Section Matcher.
Context {A : Type}.

Definition cont : Type := string -> captures -> option A.

Definition orElse (x : option A) (y : option A) : option A :=
  match x with Some _ => x | None => y end.

(** The rounds of a repetition.  A round that consumes nothing is
    rejected, as RepeatMatcher does, so [length s] rounds at most remain. *)
Fixpoint starLoop (step : string -> captures -> cont -> option A)
    (greedy : bool) (k : cont) (fuel : nat) (s : string) (c : captures)
    : option A :=
  match fuel with
  | O => k s c
  | S fuel' =>
      let again :=
        step s c (fun s1 c1 =>
          if Nat.ltb (String.length s1) (String.length s)
          then starLoop step greedy k fuel' s1 c1 else None) in
      if greedy then orElse again (k s c) else orElse (k s c) again
  end.

(** [run total r s c k]: match [r] at the front of [s], the rest of an
    input of [total] code units, and go on with [k]. *)
Fixpoint run (total : nat) (r : regex) (s : string) (c : captures) (k : cont)
    : option A :=
  match r with
  | Empty => k s c
  | Chr p =>
      match s with
      | String a s' => if p a then k s' c else None
      | EmptyString => None
      end
  | Seq r1 r2 => run total r1 s c (fun s1 c1 => run total r2 s1 c1 k)
  | Alt r1 r2 => orElse (run total r1 s c k) (run total r2 s c k)
  | Star greedy r1 =>
      starLoop (fun s0 c0 k0 => run total r1 s0 c0 k0) greedy k
               (String.length s) s c
  | Group i r1 =>
      run total r1 s c (fun s1 c1 =>
        k s1 ((i, take (String.length s - String.length s1) s) :: c1))
  | Bol => if Nat.eqb (String.length s) total then k s c else None
  | Eol => match s with EmptyString => k s c | String _ _ => None end
  end.
End Matcher.

(** The result of [RegExp.prototype.exec]: where the match starts, the
    matched text, and the captures. *)
Record matchResult : Type := {
  index : nat;
  matched : string;
  caps : captures
}.

Fixpoint execFrom (total : nat) (r : regex) (pos : nat) (s : string)
    : option matchResult :=
  match run total r s [] (fun s' c => Some (s', c)) with
  | Some (s', c) =>
      Some {| index := pos;
              matched := take (String.length s - String.length s') s;
              caps := c |}
  | None =>
      match s with
      | EmptyString => None
      | String _ s' => execFrom total r (S pos) s'
      end
  end.

(** [s.match(r)] and [r.exec(s)] for an expression without the [g] flag,
    and for one with it whose [lastIndex] is 0. *)
Definition exec (r : regex) (s : string) : option matchResult :=
  execFrom (String.length s) r 0 s.

(** [r.test(s)] *)
Definition test (r : regex) (s : string) : bool :=
  match exec r s with Some _ => true | None => false end.

(** [s.match(r)] for an expression with the [g] flag: the texts of the
    successive matches; the search goes on behind a match, and one code
    unit further behind an empty one. *)
Fixpoint matchAllFrom (total : nat) (r : regex) (fuel : nat) (s : string)
    : list string :=
  match fuel with
  | O => []
  | S fuel' =>
      match execFrom total r 0 s with
      | None => []
      | Some m =>
          let next := index m + Nat.max 1 (String.length (matched m)) in
          matched m ::
          (if Nat.ltb (String.length s) next then []
           else matchAllFrom total r fuel' (drop next s))
      end
  end.

Definition matchAll (r : regex) (s : string) : list string :=
  matchAllFrom (String.length s) r (S (String.length s)) s.

(** [m[i]] for a capture: [None] is [undefined]. *)
Fixpoint lookup (i : nat) (c : captures) : option string :=
  match c with
  | [] => None
  | (j, s) :: c' => if Nat.eqb j i then Some s else lookup i c'
  end.

Definition group (m : matchResult) (i : nat) : option string :=
  lookup i (caps m).

(** [m[i]] for parentheses that every match goes through. *)
Definition capture (m : matchResult) (i : nat) : string :=
  match group m i with Some s => s | None => EmptyString end.

(** [m[i] || d]: the default stands in for [undefined] and for the empty
    string. *)
Definition orStr (o : option string) (d : string) : string :=
  match o with
  | Some EmptyString | None => d
  | Some s => s
  end.

(** The declarative reading: [Matches total r s s'] when [r] can match the
    part of [s] that ends where [s'] begins. *)
Inductive Matches (total : nat) : regex -> string -> string -> Prop :=
| MEmpty s : Matches total Empty s s
| MChr p a s : p a = true -> Matches total (Chr p) (String a s) s
| MSeq r1 r2 s s1 s2 :
    Matches total r1 s s1 -> Matches total r2 s1 s2 ->
    Matches total (Seq r1 r2) s s2
| MAltL r1 r2 s s1 : Matches total r1 s s1 -> Matches total (Alt r1 r2) s s1
| MAltR r1 r2 s s1 : Matches total r2 s s1 -> Matches total (Alt r1 r2) s s1
| MStarStop g r s : Matches total (Star g r) s s
| MStarStep g r s s1 s2 :
    Matches total r s s1 -> String.length s1 < String.length s ->
    Matches total (Star g r) s1 s2 ->
    Matches total (Star g r) s s2
| MGroup i r s s1 : Matches total r s s1 -> Matches total (Group i r) s s1
| MBol s : String.length s = total -> Matches total Bol s s
| MEol : Matches total Eol EmptyString EmptyString.

(** [r] matches somewhere in [s]. *)
Definition MatchesIn (r : regex) (s : string) : Prop :=
  exists pre rest s1, s = pre ++ rest /\ Matches (String.length s) r rest s1.

(** [s.replace(r, t)] for an expression without the [g] flag and a text [t]
    without [$]: the first match gives way to [t]. *)
Definition replaceFirst (r : regex) (s t : string) : string :=
  match exec r s with
  | Some m =>
      take (index m) s ++ t ++ drop (index m + String.length (matched m)) s
  | None => s
  end.

(** [s.replace(r, t)] for an expression with the [g] flag: every match in
    turn, the search going on behind it, and one code unit further, which
    is kept, behind an empty one. *)
Fixpoint replaceAllFrom (total : nat) (r : regex) (t : string) (fuel : nat)
    (s : string) : string :=
  match fuel with
  | O => s
  | S fuel' =>
      match execFrom total r 0 s with
      | None => s
      | Some m =>
          let rest := drop (index m + String.length (matched m)) s in
          take (index m) s ++ t ++
          match matched m, rest with
          | EmptyString, String c rest' =>
              String c (replaceAllFrom total r t fuel' rest')
          | EmptyString, EmptyString => EmptyString
          | String _ _, _ => replaceAllFrom total r t fuel' rest
          end
      end
  end.

Definition replaceAll (r : regex) (s t : string) : string :=
  replaceAllFrom (String.length s) r t (S (String.length s)) s.

End Regex.

(** ** backend/server.js *)

Module Server.
Import JS Regex.

(** server.js:167-177 *)
Definition suspiciousPatterns : list (regex * string) :=
  [ (* /ignore\s+(previous|above|all)\s+instructions?/i *)
    (seqs [liti "ignore"; Plus true space;
           Group 1 (alts [liti "previous"; liti "above"; liti "all"]);
           Plus true space; liti "instruction"; Opt (chri "s")],
     "Instruction Override Attempt");
    (* /system\s*:\s*you\s+are/i *)
    (seqs [liti "system"; Star true space; chri ":"; Star true space;
           liti "you"; Plus true space; liti "are"],
     "System Role Hijacking");
    (* /\/\*|\*\/|--|#/g *)
    (alts [lit "/*"; lit "*/"; lit "--"; lit "#"],
     "SQL Comment Injection");
    (* /;\s*(drop|delete|truncate|insert|update)\s+/i *)
    (seqs [chri ";"; Star true space;
           Group 1 (alts [liti "drop"; liti "delete"; liti "truncate";
                          liti "insert"; liti "update"]);
           Plus true space],
     "SQL Injection Attack");
    (* /(union|union\s+all)\s+select/i *)
    (seqs [Group 1 (alts [liti "union";
                          seqs [liti "union"; Plus true space; liti "all"]]);
           Plus true space; liti "select"],
     "UNION-based SQL Injection");
    (* /'\s*or\s+'?1'?\s*=\s*'?1/i *)
    (seqs [chri "'"; Star true space; liti "or"; Plus true space;
           Opt (chri "'"); chri "1"; Opt (chri "'"); Star true space;
           chri "="; Star true space; Opt (chri "'"); chri "1"],
     "Authentication Bypass Attempt");
    (* /(exec|execute|eval|script)/i *)
    (Group 1 (alts [liti "exec"; liti "execute"; liti "eval"; liti "script"]),
     "Code Execution Attempt");
    (* /<script|javascript:|onerror=/i *)
    (alts [liti "<script"; liti "javascript:"; liti "onerror="],
     "XSS Injection Attempt");
    (* /\$\{|\{\{|<%/g *)
    (alts [lit "${"; lit "{{"; lit "<%"],
     "Template Injection") ].

(** server.js:165-186.  The expressions are literals of the function body,
    so each call tests fresh objects and the [lastIndex] of the two with the
    [g] flag is 0. *)
Definition detectPromptInjection (query : string) : list string :=
  fold_left
    (fun (threats : list string) '(pattern, threat) =>
       if test pattern query then (threats ++ [threat])%list else threats)
    suspiciousPatterns [].

(** /FROM\s+`?\w+`?/i *)
Definition fromClause : regex :=
  seqs [liti "FROM"; Plus true space; Opt (chri "`"); Plus true word;
        Opt (chri "`")].

(** /^SELECT\s+/i *)
Definition selectStart : regex := seqs [Bol; liti "SELECT"; Plus true space].

(** /WHERE.*?(DROP|DELETE|INSERT|UPDATE|CREATE|ALTER)/i *)
Definition dangerous : regex :=
  seqs [liti "WHERE"; Star false dot;
        Group 1 (alts [liti "DROP"; liti "DELETE"; liti "INSERT";
                       liti "UPDATE"; liti "CREATE"; liti "ALTER"])].

(** server.js:188-209 *)
Definition validateSQLGrammar (sql : string) : list string :=
  let errors : list string := [] in
  let errors :=
    if negb (test fromClause sql) then (errors ++ ["Missing FROM clause"])%list
    else errors in
  let backticks := List.length (matchAll (chr "`") sql) in
  let errors :=
    if negb (Nat.eqb (Nat.modulo backticks 2) 0)
    then (errors ++ ["Unbalanced backticks"])%list else errors in
  let errors :=
    if negb (test selectStart sql)
    then (errors ++ ["Query must start with SELECT"])%list else errors in
  let errors :=
    if test dangerous sql
    then (errors ++ ["Dangerous SQL operation detected"])%list else errors in
  errors.

(** The entries of the vector store as the request body carries them; what
    the optional chaining of the filter guards against is optional. *)
Record metadata : Type := {
  distinctValues : option (list value);
  sampleCount : nat
}.

Record vectorStoreEntry : Type := {
  column : string;
  type : string;
  context : string;
  meta : option metadata
}.

(** The test of the filter of server.js:51-56 on one entry. *)
Definition isRelevant (question : string) (v : vectorStoreEntry) : bool :=
  includes (toLowerCase question) (toLowerCase (column v)) ||
  match meta v with
  | Some m =>
      match distinctValues m with
      | Some vals =>
          existsb (fun val =>
            includes (toLowerCase question) (toLowerCase (toString val))) vals
      | None => false
      end
  | None => false
  end.

(** server.js:51-56 *)
Definition relevantColumns (question : string)
    (vectorStore : option (list vectorStoreEntry)) : list vectorStoreEntry :=
  match vectorStore with
  | Some vs => filter (isRelevant question) vs
  | None => []
  end.

(** *** The request handler, server.js:33-162 *)

(** /```sql\n?/g and /```\n?/g *)
Definition fenceSql : regex :=
  seqs [lit "```sql"; Opt (chr (ascii_of_nat 10))].
Definition fence : regex :=
  seqs [lit "```"; Opt (chr (ascii_of_nat 10))].

(** server.js:127-130 *)
Definition cleanCompletion (content : string) : string :=
  let sqlQuery := trim content in
  trim (replaceAll fence (replaceAll fenceSql sqlQuery EmptyString) EmptyString).

(** The test of server.js:134 on a line. *)
Definition isSelectLine (line : string) : bool :=
  startsWithUnits (toUpperCase (trim line)) (units "SELECT").

(** server.js:133-134 *)
Definition selectQuery (sqlQuery : string) : string :=
  let lines := split sqlQuery lineFeed in
  orStr (find isSelectLine lines) sqlQuery.

(** The answers of the handler: three with status 400, one with status 200
    and one with status 500. *)
Inductive response : Type :=
| QuestionRequired
| SecurityViolation (threats : list string)
| GrammarError (details : list string)
| Generated (sql : string) (ragUsed : bool)
| Failed.

(** server.js:33-162, as a function of the request and of what the call of
    the model gives: the content of its first choice, or [None] when the
    call or the reading of its answer throws.  The question is a text or
    is missing, the schema and the sample rows are arrays of objects or are
    missing, as the client sends them; they and the table name go into the
    prompt, which goes to the model only and is not part of the answer. *)
Definition generateSQL (question : option string)
    (vectorStore : option (list vectorStoreEntry))
    (completion : option string) : response :=
  match question with
  | None | Some EmptyString => QuestionRequired
  | Some question =>
      let securityThreats := detectPromptInjection question in
      if Nat.ltb 0 (List.length securityThreats)
      then SecurityViolation securityThreats
      else
        let relevant := relevantColumns question vectorStore in
        match completion with
        | None => Failed
        | Some content =>
            let sqlQuery := selectQuery (cleanCompletion content) in
            let grammarErrors := validateSQLGrammar sqlQuery in
            if Nat.ltb 0 (List.length grammarErrors)
            then GrammarError grammarErrors
            else Generated (trim sqlQuery) (Nat.ltb 0 (List.length relevant))
        end
  end.

End Server.

(** ** frontend/src/App.js *)

Module Client.
Import JS Regex.

(** The outcome of a call that can throw. *)
Inductive result (A : Type) : Type :=
| Ok (a : A)
| Throw (message : string).
Arguments Ok {A} a.
Arguments Throw {A} message.

Definition bind {A B : Type} (x : result A) (f : A -> result B) : result B :=
  match x with
  | Ok a => f a
  | Throw e => Throw e
  end.

Notation "x <- e1 ;; e2" := (bind e1 (fun x => e2))
  (at level 61, e1 at next level, right associativity).

(** [xs.filter(p)] for a callback that can throw *)
Fixpoint filterM {A : Type} (p : A -> result bool) (xs : list A)
    : result (list A) :=
  match xs with
  | [] => Ok []
  | x :: xs' =>
      b <- p x ;;
      rest <- filterM p xs' ;;
      Ok (if b then x :: rest else rest)
  end.

(** App.js:67-77 *)
Definition suspiciousPatterns : list (regex * string) :=
  [ (* /ignore\s+(previous|above|all)\s+instructions?/i *)
    (seqs [liti "ignore"; Plus true space;
           Group 1 (alts [liti "previous"; liti "above"; liti "all"]);
           Plus true space; liti "instruction"; Opt (chri "s")],
     "Instruction Override Attempt");
    (* /system\s*:\s*you\s+are/i *)
    (seqs [liti "system"; Star true space; chri ":"; Star true space;
           liti "you"; Plus true space; liti "are"],
     "System Role Hijacking");
    (* /\/\*|\*\/|--|#/g *)
    (alts [lit "/*"; lit "*/"; lit "--"; lit "#"],
     "SQL Comment Injection");
    (* /;\s*(drop|delete|truncate|insert|update)\s+/i *)
    (seqs [chri ";"; Star true space;
           Group 1 (alts [liti "drop"; liti "delete"; liti "truncate";
                          liti "insert"; liti "update"]);
           Plus true space],
     "SQL Injection Attack");
    (* /(union|union\s+all)\s+select/i *)
    (seqs [Group 1 (alts [liti "union";
                          seqs [liti "union"; Plus true space; liti "all"]]);
           Plus true space; liti "select"],
     "UNION-based SQL Injection");
    (* /'\s*or\s+'?1'?\s*=\s*'?1/i *)
    (seqs [chri "'"; Star true space; liti "or"; Plus true space;
           Opt (chri "'"); chri "1"; Opt (chri "'"); Star true space;
           chri "="; Star true space; Opt (chri "'"); chri "1"],
     "Authentication Bypass Attempt");
    (* /(exec|execute|eval|script)/i *)
    (Group 1 (alts [liti "exec"; liti "execute"; liti "eval"; liti "script"]),
     "Code Execution Attempt");
    (* /<script|javascript:|onerror=/i *)
    (alts [liti "<script"; liti "javascript:"; liti "onerror="],
     "XSS Injection Attempt");
    (* /\$\{|\{\{|<%/g *)
    (alts [lit "${"; lit "{{"; lit "<%"],
     "Template Injection") ].

(** App.js:65-86 *)
Definition detectPromptInjection (query : string) : list string :=
  fold_left
    (fun (threats : list string) '(pattern, threat) =>
       if test pattern query then (threats ++ [threat])%list else threats)
    suspiciousPatterns [].

(** App.js:346-351: the threats that are logged and thrown as the security
    alert before the request is sent; [None] when it is sent. *)
Definition securityAlert (userQuery : string) : option (list string) :=
  let threats := detectPromptInjection userQuery in
  if Nat.ltb 0 (List.length threats) then Some threats else None.

(** *** evaluateCondition, App.js:202-230 *)

Definition operators : list string := [">="; "<="; "!="; "<>"; "="; ">"; "<"].

Definition isBacktick (c : ascii) : bool := Ascii.eqb c "`".
Definition isQuote (c : ascii) : bool :=
  Ascii.eqb c "'" || (code c =? 34)%N.

(** App.js:207: the first two pieces of [condition.split(op)], trimmed;
    [right] is [undefined] when there is one piece only. *)
Definition operands (condition op : string) : string * option string :=
  match map trim (split condition op) with
  | lhs :: rhs :: _ => (lhs, Some rhs)
  | [lhs] => (lhs, None)
  | [] => (EmptyString, None)
  end.

(** App.js:209-214 *)
Definition leftValue (r : row) (lhs : string) : value :=
  let columnName := trim (removeChars isBacktick lhs) in
  let actualColumn :=
    find (fun key => strEq (toLowerCase key) (toLowerCase columnName)) (keys r) in
  match actualColumn with
  | Some EmptyString | None => VStr lhs
  | Some k => get r k
  end.

(** App.js:215 *)
Definition rightValue (rhs : string) : string := removeChars isQuote rhs.

(** The switch of App.js:217-225; [None] when no case applies. *)
Definition compareWith (op : string) (leftVal : value) (rightVal : string)
    : option bool :=
  if strEq op "=" then
    Some (strEq (toLowerCase (toString leftVal)) (toLowerCase rightVal))
  else if strEq op "!=" || strEq op "<>" then
    Some (negb (strEq (toLowerCase (toString leftVal)) (toLowerCase rightVal)))
  else if strEq op ">" then
    Some (lt (stringToNumber rightVal) (toNumber leftVal))
  else if strEq op "<" then
    Some (lt (toNumber leftVal) (stringToNumber rightVal))
  else if strEq op ">=" then
    Some (le (stringToNumber rightVal) (toNumber leftVal))
  else if strEq op "<=" then
    Some (le (toNumber leftVal) (stringToNumber rightVal))
  else None.

(** The loop of App.js:205-227 over the operators that remain. *)
Fixpoint evaluateWith (ops : list string) (r : row) (condition : string)
    : result bool :=
  match ops with
  | [] => Ok true
  | op :: ops' =>
      if includes condition op then
        match operands condition op with
        | (lhs, Some rhs) =>
            match compareWith op (leftValue r lhs) (rightValue rhs) with
            | Some b => Ok b
            | None => evaluateWith ops' r condition
            end
        | (_, None) =>
            Throw "TypeError: Cannot read properties of undefined (reading 'replace')"
        end
      else evaluateWith ops' r condition
  end.

Definition evaluateCondition (r : row) (condition : string) : result bool :=
  evaluateWith operators r condition.

(** *** calculateAggregation, App.js:232-273 *)

(** The tail [(?:\s+as\s+(\w+))?] of the five expressions. *)
Definition asAlias : regex :=
  Opt (seqs [Plus true space; liti "as"; Plus true space;
             Group 2 (Plus true word)]).

(** /F\(`?(\w+)`?\)(?:\s+as\s+(\w+))?/i *)
Definition aggregateOf (f : string) : regex :=
  seqs [liti f; chri "("; Opt (chri "`"); Group 1 (Plus true word);
        Opt (chri "`"); chri ")"; asAlias].

Definition sumRe : regex := aggregateOf "SUM".
Definition avgRe : regex := aggregateOf "AVG".
Definition maxRe : regex := aggregateOf "MAX".
Definition minRe : regex := aggregateOf "MIN".

(** /COUNT\((\*|`?\w+`?)\)(?:\s+as\s+(\w+))?/i *)
Definition countRe : regex :=
  seqs [liti "COUNT"; chri "(";
        Group 1 (Alt (chri "*")
                     (seqs [Opt (chri "`"); Plus true word; Opt (chri "`")]));
        chri ")"; asAlias].

(** [Number(row[col]) || 0] *)
Definition numberOrZero (r : row) (col : string) : number :=
  let n := toNumber (get r col) in
  if numTruthy n then n else posZero.

Definition sumOf (results : list row) (col : string) : number :=
  fold_left (fun acc r => add acc (numberOrZero r col)) results posZero.

Definition calculateAggregation (results : list row) (sqlQuery : string)
    : list row :=
  let sumMatch := exec sumRe sqlQuery in
  let countMatch := exec countRe sqlQuery in
  let avgMatch := exec avgRe sqlQuery in
  let maxMatch := exec maxRe sqlQuery in
  let minMatch := exec minRe sqlQuery in
  match sumMatch with
  | Some m =>
      let col := capture m 1 in
      let alias := orStr (group m 2) ("SUM(" ++ col ++ ")") in
      [[(alias, VNum (sumOf results col))]]
  | None =>
  match countMatch with
  | Some m =>
      let alias := orStr (group m 2) "COUNT" in
      [[(alias, VNum (ofNat (List.length results)))]]
  | None =>
  match avgMatch with
  | Some m =>
      let col := capture m 1 in
      let alias := orStr (group m 2) ("AVG(" ++ col ++ ")") in
      [[(alias, VNum (div (sumOf results col) (ofNat (List.length results))))]]
  | None =>
  match maxMatch with
  | Some m =>
      let col := capture m 1 in
      let alias := orStr (group m 2) ("MAX(" ++ col ++ ")") in
      [[(alias, VNum (Math_max (map (fun r => numberOrZero r col) results)))]]
  | None =>
  match minMatch with
  | Some m =>
      let col := capture m 1 in
      let alias := orStr (group m 2) ("MIN(" ++ col ++ ")") in
      [[(alias, VNum (Math_min (map (fun r => numberOrZero r col) results)))]]
  | None => results
  end end end end end.

(** [f(...xs)], App.js:262 and 269: a call with one argument for each
    element of the array.  An engine takes a limited number of arguments
    in a call, [maxArguments], and throws a RangeError for an array that
    is longer. *)
Definition spread {A : Type} (maxArguments : nat) (f : list number -> A)
    (xs : list number) : result A :=
  if Nat.ltb maxArguments (List.length xs) then Throw "RangeError"
  else Ok (f xs).


(** *** executeSQL, App.js:119-200 *)

(** /FROM\s+`?(\w+)`?/i *)
Definition fromRe : regex :=
  seqs [liti "FROM"; Plus true space; Opt (chri "`"); Group 1 (Plus true word);
        Opt (chri "`")].

(** /WHERE\s+(.+?)(?:\s+ORDER|\s+GROUP|\s+LIMIT|$)/i *)
Definition whereRe : regex :=
  seqs [liti "WHERE"; Plus true space; Group 1 (Plus false dot);
        alts [Seq (Plus true space) (liti "ORDER");
              Seq (Plus true space) (liti "GROUP");
              Seq (Plus true space) (liti "LIMIT");
              Eol]].

(** /ORDER\s+BY\s+`?(\w+)`?(?:\s+(ASC|DESC))?/i *)
Definition orderRe : regex :=
  seqs [liti "ORDER"; Plus true space; liti "BY"; Plus true space;
        Opt (chri "`"); Group 1 (Plus true word); Opt (chri "`");
        Opt (Seq (Plus true space) (Group 2 (Alt (liti "ASC") (liti "DESC"))))].

(** /LIMIT\s+(\d+)/i *)
Definition limitRe : regex :=
  seqs [liti "LIMIT"; Plus true space; Group 1 (Plus true digit)].

(** /SELECT\s+(.+?)\s+FROM/i *)
Definition selectRe : regex :=
  seqs [liti "SELECT"; Plus true space; Group 1 (Plus false dot);
        Plus true space; liti "FROM"].

(** /(.+?)\s+as\s+(\w+)/i *)
Definition aliasRe : regex :=
  seqs [Group 1 (Plus false dot); Plus true space; liti "as"; Plus true space;
        Group 2 (Plus true word)].

(** App.js:129-136 *)
Definition handleWhere (results : list row) (sqlQuery : string)
    : result (list row) :=
  if includes (toLowerCase sqlQuery) "where" then
    match exec whereRe sqlQuery with
    | Some whereMatch =>
        let condition := trim (capture whereMatch 1) in
        filterM (fun r => evaluateCondition r condition) results
    | None => Ok results
    end
  else Ok results.

(** The comparator of App.js:144-152 *)
Definition compareRows (column direction : string) (a b : row) : Z :=
  let valA := nullish (get a column) (VStr "") in
  let valB := nullish (get b column) (VStr "") in
  if strEq direction "asc"
  then (if lessThan valB valA then 1 else -1)%Z
  else (if lessThan valA valB then 1 else -1)%Z.

(** App.js:138-154 *)
Definition handleOrderBy `{ArraySort} (results : list row) (sqlQuery : string)
    : list row :=
  if includes (toLowerCase sqlQuery) "order by" then
    match exec orderRe sqlQuery with
    | Some orderMatch =>
        let column := capture orderMatch 1 in
        let direction :=
          match group orderMatch 2 with
          | Some d => orStr (Some (toLowerCase d)) "asc"
          | None => "asc"
          end in
        sortWith (compareRows column direction) results
    | None => results
    end
  else results.

(** App.js:157-159 *)
Definition hasAggregate (sqlQuery : string) : bool :=
  let lowerQuery := toLowerCase sqlQuery in
  includes lowerQuery "sum(" || includes lowerQuery "count(" ||
  includes lowerQuery "avg(" || includes lowerQuery "max(" ||
  includes lowerQuery "min(".

(** [parseInt] on the digits that [(\d+)] captured.  The rounding of a
    numeral beyond 2^53 does not show in [slice], no array being that
    long. *)
Definition parseInt (digits : string) : Z :=
  match parseDigits 10 digits with Some n => n | None => 0%Z end.

(** [xs.slice(0, n)] *)
Definition slice0 {A : Type} (n : Z) (xs : list A) : list A :=
  firstn (Z.to_nat (Z.min n (Z.of_nat (List.length xs)))) xs.

(** App.js:163-167 *)
Definition handleLimit (results : list row) (sqlQuery : string) : list row :=
  match exec limitRe sqlQuery with
  | Some limitMatch => slice0 (parseInt (capture limitMatch 1)) results
  | None => results
  end.

(** App.js:172-179 *)
Definition selectedColumn (c : string) : string * option string :=
  let trimmed := trim c in
  match exec aliasRe trimmed with
  | Some aliasMatch =>
      (trim (removeChars isBacktick (capture aliasMatch 1)),
       group aliasMatch 2)
  | None => (removeChars isBacktick trimmed, None)
  end.

(** [newRow[k] = v] at App.js:188, on the object that App.js:182 makes as
    [{}]: its own cells, and whether its prototype is still
    [Object.prototype].  The key [__proto__] is an accessor of that
    prototype: the assignment calls its setter and makes no own cell; the
    setter takes the prototype away when the value is [null] and does
    nothing for a value that is no object.  Once the prototype is away,
    [__proto__] is a key like the others. *)
Definition assign (newRow : row * bool) (k : string) (v : value) : row * bool :=
  if String.eqb k "__proto__" && snd newRow
  then (fst newRow, match v with VNull => false | _ => true end)
  else (set (fst newRow) k v, snd newRow).

(** App.js:181-192, one row: the own cells of the new row. *)
Definition project (columns : list (string * option string)) (r : row) : row :=
  fst (fold_left
         (fun newRow '(original, alias) =>
            let actualColumn :=
              orStr (find (fun key => strEq (toLowerCase key) (toLowerCase original))
                          (keys r))
                    original in
            if hasOwnProperty r actualColumn
            then assign newRow (orStr alias actualColumn) (get r actualColumn)
            else newRow)
         columns ([], true)).

(** App.js:169-193 *)
Definition handleSelect (results : list row) (sqlQuery : string) : list row :=
  match exec selectRe sqlQuery with
  | Some selectMatch =>
      if negb (strEq (trim (capture selectMatch 1)) "*") then
        let columns := map selectedColumn (split (capture selectMatch 1) ",") in
        map (project columns) results
      else results
  | None => results
  end.

Definition executeSQL `{ArraySort} (data : list row) (sqlQuery : string)
    : result (list row) :=
  let results := data in
  match exec fromRe sqlQuery with
  | None => Throw "Invalid SQL: Missing FROM clause"
  | Some fromMatch =>
      results <- handleWhere results sqlQuery ;;
      let results := handleOrderBy results sqlQuery in
      if hasAggregate sqlQuery then Ok (calculateAggregation results sqlQuery)
      else
        let results := handleLimit results sqlQuery in
        let results := handleSelect results sqlQuery in
        Ok results
  end.

(** *** createVectorEmbeddings, App.js:42-62 *)

(** A column of the schema. *)
Record column : Type := {
  name : string;
  type : string
}.

Definition createVectorEmbeddings (schemaData : list column)
    (sampleData : list row) : list Server.vectorStoreEntry :=
  map (fun col =>
         let context :=
           "Column: " ++ name col ++ ", Type: " ++ type col ++
           ", Sample values: " ++
           join ", " (map (fun r => joinText (get r (name col)))
                          (firstn 5 sampleData)) in
         {| Server.column := name col;
            Server.type := type col;
            Server.context := context;
            Server.meta :=
              Some {| Server.distinctValues :=
                        Some (firstn 10
                                (distinct
                                   (map (fun r => get r (name col)) sampleData)));
                      Server.sampleCount := List.length sampleData |} |})
      schemaData.

(** *** The names of handleFileUpload, App.js:279-281 *)

(** The class [[^/.]] *)
Definition extensionChar (c : ascii) : bool :=
  negb (Ascii.eqb c "/" || Ascii.eqb c ".").

(** /\.[^/.]+$/ *)
Definition extensionRe : regex :=
  seqs [chr "."; Plus true (Chr extensionChar); Eol].

Definition isAlphaNumeric (c : ascii) : bool :=
  isLowerAscii c || isUpperAscii c || isDigit c.

(** App.js:279 *)
Definition fileExtension (fileName : string) : string :=
  toLowerCase (List.last (split fileName ".") EmptyString).

(** App.js:280 *)
Definition baseFileName (fileName : string) : string :=
  replaceChars (fun c => negb (isAlphaNumeric c)) "_"
    (replaceFirst extensionRe fileName EmptyString).

(** *** generateSQLWithRAG and handleSendMessage, App.js:89-116 and 336-385 *)

(** An entry of the vector store as the body of the request carries it to
    the server, App.js:96 and server.js:13. *)
Definition sent (v : Server.vectorStoreEntry) : Server.vectorStoreEntry :=
  {| Server.column := Server.column v;
     Server.type := Server.type v;
     Server.context := Server.context v;
     Server.meta :=
       option_map
         (fun m =>
            {| Server.distinctValues :=
                 option_map (map jsonElement) (Server.distinctValues m);
               Server.sampleCount := Server.sampleCount m |})
         (Server.meta v) |}.

(** The endpoint as the client sees it: the answer to a question and a
    vector store, or [None] when the request itself fails. *)
Definition endpoint : Type :=
  option string -> option (list Server.vectorStoreEntry) ->
  option Server.response.

(** App.js:89-116.  An answer that is not OK is thrown with its [error]
    text, a failure of the request with the message of the failure. *)
Definition generateSQLWithRAG (post : endpoint) (failure : string)
    (question : string) (vectorStore : list Server.vectorStoreEntry)
    : result string :=
  match post (Some question) (Some (map sent vectorStore)) with
  | Some (Server.Generated sql _) => Ok sql
  | Some Server.QuestionRequired => Throw "Question is required"
  | Some (Server.SecurityViolation _) => Throw "Security violation detected"
  | Some (Server.GrammarError _) => Throw "SQL grammar error"
  | Some Server.Failed => Throw "Failed to generate SQL"
  | None => Throw failure
  end.

(** What [handleSendMessage] adds to the conversation behind the message
    of the user: nothing, the security alert with the threats it lists, an
    error with its text, or the query and its rows. *)
Inductive reply : Type :=
| NoReply
| SecurityAlert (threats : list string)
| Failure (content : string)
| Answer (sql : string) (results : list row).

(** App.js:336-385, for a schema that is loaded or not. *)
Definition handleSendMessage `{ArraySort} (post : endpoint) (failure : string)
    (input : string) (schema : bool) (data : list row)
    (vectorStore : list Server.vectorStoreEntry) : reply :=
  if strEq (trim input) EmptyString || negb schema then NoReply
  else
    let userQuery := input in
    match securityAlert userQuery with
    | Some threats => SecurityAlert threats
    | None =>
        match generateSQLWithRAG post failure userQuery vectorStore with
        | Throw message => Failure (orStr (Some message) "Error processing query")
        | Ok sqlQuery =>
            match executeSQL data sqlQuery with
            | Throw message =>
                Failure (orStr (Some message) "Error processing query")
            | Ok results => Answer sqlQuery results
            end
        end
    end.

End Client.

(** ** The vocabulary of the properties

    Names for parts of the program's behaviour, definitions that follow the
    words of the specification where the program departs from them, and
    the data of the examples. *)

Module Spec.
Import JS Regex.

(** No code unit of the text is in the class. *)
Fixpoint noneOf (p : ascii -> bool) (s : string) : bool :=
  match s with
  | EmptyString => true
  | String c s' => negb (p c) && noneOf p s'
  end.

Definition isSome {A : Type} (o : option A) : bool :=
  match o with Some _ => true | None => false end.

Definition CR : string := String (ascii_of_nat 13) "".
Definition LF : string := String (ascii_of_nat 10) "".

(** *** The scanner *)

(** The seventh expression of both pattern tables. *)
Definition codeExecution : regex :=
  Group 1 (alts [liti "exec"; liti "execute"; liti "eval"; liti "script"]).

(** *** The validator *)

(** The text begins with SELECT, in any case, and a white space follows. *)
Definition startsWithSelectSpace (sql : string) : bool :=
  strEq (toLowerCase (take 6 sql)) "select" &&
  match drop 6 sql with
  | String a _ => isSpace a
  | EmptyString => false
  end.

(** The specification's reading of the third check: the trimmed text
    starts with SELECT, in any case. *)
Definition claimedStartsWithSelect (sql : string) : bool :=
  startsWith (toLowerCase (trim sql)) "select".

(** The alternatives of the group of [Server.dangerous]. *)
Definition keywords : regex :=
  alts [liti "DROP"; liti "DELETE"; liti "INSERT"; liti "UPDATE";
        liti "CREATE"; liti "ALTER"].

Definition dangerousWords : list string :=
  ["drop"; "delete"; "insert"; "update"; "create"; "alter"].

(** The specification's reading of the fourth check: somewhere behind a
    WHERE, in any case, the text contains one of the six words, in any
    case. *)
Definition dangerousAfterWhere (sql : string) : Prop :=
  exists before w rest k,
    sql = before ++ w ++ rest /\ toLowerCase w = "where" /\
    In k dangerousWords /\ includes (toLowerCase rest) k = true.

(** A DROP on the line behind the one of the WHERE. *)
Definition dropBehindBreak : string :=
  "SELECT * FROM t WHERE a = 1" ++ CR ++ "DROP TABLE t".

(** *** The relevance filter *)

(** The distinct values an entry stores. *)
Definition storedValues (v : Server.vectorStoreEntry) : list value :=
  match Server.meta v with
  | Some m => match Server.distinctValues m with Some vals => vals | None => [] end
  | None => []
  end.

(** The specification's reading of the filter: of the stored values only
    the first five are looked at. *)
Definition claimedRelevant (question : string) (v : Server.vectorStoreEntry)
    : bool :=
  includes (toLowerCase question) (toLowerCase (Server.column v)) ||
  existsb (fun val =>
             includes (toLowerCase question) (toLowerCase (toString val)))
          (firstn 5 (storedValues v)).

(** An entry with six stored values. *)
Definition sixValues : Server.vectorStoreEntry :=
  {| Server.column := "Country";
     Server.type := "TEXT";
     Server.context :=
       "Column: Country, Type: TEXT, Sample values: India, China, Japan, Peru, Chile";
     Server.meta :=
       Some {| Server.distinctValues :=
                 Some [VStr "India"; VStr "China"; VStr "Japan";
                       VStr "Peru"; VStr "Chile"; VStr "Nepal"];
               Server.sampleCount := 6 |} |}.

(** *** The condition evaluator *)

(** The operator the loop of [evaluateCondition] stops at: the first of the
    priority list that occurs in the text. *)
Definition firstOperator (condition : string) : option string :=
  List.find (includes condition) Client.operators.

(** The text up to the next occurrence of the operator, all of it when
    there is none. *)
Definition upToNext (rest op : string) : string :=
  match indexOf rest op with
  | Some j => take j rest
  | None => rest
  end.

(** The operands the evaluator compares: the left text and the right
    value. *)
Definition evaluatorOperands (condition op : string)
    : option (string * string) :=
  match Client.operands condition op with
  | (lhs, Some rhs) => Some (lhs, Client.rightValue rhs)
  | (_, None) => None
  end.

Fixpoint dropLastQuote (s : string) : string :=
  match s with
  | EmptyString => EmptyString
  | String c EmptyString => if Client.isQuote c then EmptyString else s
  | String c s' => String c (dropLastQuote s')
  end.

(** One quote less at each end, where there is one. *)
Definition stripSurroundingQuotes (s : string) : string :=
  dropLastQuote
    match s with
    | String c s' => if Client.isQuote c then s' else s
    | EmptyString => EmptyString
    end.

(** The specification's reading of the operands: the text is split at the
    first occurrence of the operator, the right operand is all the text
    behind it, and only the quotes around it are stripped. *)
Definition claimedOperands (condition op : string)
    : option (string * string) :=
  match indexOf condition op with
  | Some i =>
      Some (trim (take i condition),
            stripSurroundingQuotes
              (trim (drop (i + String.length op) condition)))
  | None => None
  end.

(** The test of the WHERE filter on a row. *)
Definition passes (condition : string) (r : row) : bool :=
  match Client.evaluateCondition r condition with
  | Client.Ok b => b
  | Client.Throw _ => false
  end.

(** The rows that the WHERE step leaves. *)
Definition whereRows (data : list row) (sqlQuery : string) : list row :=
  if includes (toLowerCase sqlQuery) "where" then
    match exec Client.whereRe sqlQuery with
    | Some whereMatch => filter (passes (trim (capture whereMatch 1))) data
    | None => data
    end
  else data.

(** *** The aggregation engine *)

(** The specification's reading of an aggregate query: the aggregation of
    the rows that the WHERE step leaves, in the order of the dataset. *)
Definition claimedAggregate (data : list row) (sqlQuery : string) : list row :=
  Client.calculateAggregation (whereRows data sqlQuery) sqlQuery.

(** One of the five expressions of [calculateAggregation] matches. *)
Definition aggregateMatched (sqlQuery : string) : bool :=
  isSome (exec Client.sumRe sqlQuery) || isSome (exec Client.countRe sqlQuery) ||
  isSome (exec Client.avgRe sqlQuery) || isSome (exec Client.maxRe sqlQuery) ||
  isSome (exec Client.minRe sqlQuery).



(** The alias of a match, or the default. *)
Definition aliasOr (m : matchResult) (default : string) : string :=
  orStr (group m 2) default.

(** The key of the result row: the alias or the default alias of the first
    of SUM, COUNT, AVG, MAX, MIN whose expression matches. *)
Definition resultKey (sqlQuery : string) : option string :=
  match exec Client.sumRe sqlQuery with
  | Some m => Some (aliasOr m ("SUM(" ++ capture m 1 ++ ")"))
  | None =>
  match exec Client.countRe sqlQuery with
  | Some m => Some (aliasOr m "COUNT")
  | None =>
  match exec Client.avgRe sqlQuery with
  | Some m => Some (aliasOr m ("AVG(" ++ capture m 1 ++ ")"))
  | None =>
  match exec Client.maxRe sqlQuery with
  | Some m => Some (aliasOr m ("MAX(" ++ capture m 1 ++ ")"))
  | None =>
  match exec Client.minRe sqlQuery with
  | Some m => Some (aliasOr m ("MIN(" ++ capture m 1 ++ ")"))
  | None => None
  end end end end end.

(** The rows of Scenario B. *)
Definition sales : list row :=
  [[("Sales", VNum (ofZ 100))]; [("Sales", VNum (ofZ 200))];
   [("Sales", VStr "abc")]].

(** The query of Scenario E. *)
Definition countQuery : string :=
  "SELECT COUNT(*) as cnt FROM data ORDER BY Rank".

(** Three rows whose sum depends on the order: 1e16, -1e16 and 1. *)
Definition unordered : list row :=
  [[("x", VNum (ofDecimal false 1 16))];
   [("x", VNum (ofDecimal true 1 16))];
   [("x", VNum (ofZ 1))]].

(** *** The vocabulary of the further properties *)

(** The names of the nine threats, in the order of the pattern tables. *)
Definition threatNames : list string :=
  ["Instruction Override Attempt"; "System Role Hijacking";
   "SQL Comment Injection"; "SQL Injection Attack";
   "UNION-based SQL Injection"; "Authentication Bypass Attempt";
   "Code Execution Attempt"; "XSS Injection Attempt"; "Template Injection"].

(** [sub] is [l] with some of its elements left out. *)
Fixpoint subsequence (sub l : list string) : bool :=
  match sub, l with
  | [], _ => true
  | _ :: _, [] => false
  | x :: sub', y :: l' =>
      if String.eqb x y then subsequence sub' l' else subsequence sub l'
  end.

(** The number of code units of a class in a text. *)
Fixpoint countOf (p : ascii -> bool) (s : string) : nat :=
  match s with
  | EmptyString => 0
  | String c s' => (if p c then 1 else 0) + countOf p s'
  end.

(** The expression has neither [^] nor [$]. *)
Fixpoint anchorFree (r : regex) : bool :=
  match r with
  | Empty | Chr _ => true
  | Seq r1 r2 | Alt r1 r2 => anchorFree r1 && anchorFree r2
  | Star _ r1 | Group _ r1 => anchorFree r1
  | Bol | Eol => false
  end.

(** The key of the row that a selected name stands for in [project]: the
    first own key equal to it when case is ignored, the name itself
    without one. *)
Definition actualColumn (r : row) (original : string) : string :=
  orStr (find (fun key => strEq (toLowerCase key) (toLowerCase original)) (keys r))
        original.





(** The columns that the column list of a query selects, App.js:170-179;
    [None] for a query without column list and for [SELECT *]. *)
Definition selectedColumns (sqlQuery : string)
    : option (list (string * option string)) :=
  match exec Client.selectRe sqlQuery with
  | Some selectMatch =>
      if negb (strEq (trim (capture selectMatch 1)) "*")
      then Some (map Client.selectedColumn (split (capture selectMatch 1) ","))
      else None
  | None => None
  end.

(** The row that the column selection of a query makes of a row. *)
Definition selection (sqlQuery : string) (r : row) : row :=
  match selectedColumns sqlQuery with
  | Some columns => Client.project columns r
  | None => r
  end.

(** The value as [Set] keeps it: +0 for -0. *)
Definition kept (v : value) : value :=
  match v with VNum (S754_zero true) => VNum posZero | _ => v end.

(** Two values that are not the same for [Set]. *)
Definition different (a b : value) : Prop := sameValueZero a b = false.

(** The dot that [split] cuts a file name at. *)
Definition isDot (c : ascii) : bool := Ascii.eqb c ".".

(** The replacement of App.js:280 on a text: an underscore for every code
    unit that is neither a letter of A-Z and a-z nor a digit. *)
Definition underscored (s : string) : string :=
  replaceChars (fun c => negb (Client.isAlphaNumeric c)) "_" s.

(** A completion in a Markdown fence. *)
Definition fenced : string :=
  "```sql" ++ lineFeed ++ "SELECT `Country` FROM data WHERE `Rank` = 1" ++
  lineFeed ++ "```".

(** A completion with a word of explanation and an indented query. *)
Definition explained : string :=
  "Here is the query:" ++ lineFeed ++ "  SELECT * FROM data".

End Spec.

(** ** Facts about strings *)

Module StringFacts.
Import JS Spec.

Lemma startsWith_app s p : startsWith s p = true <-> exists r, s = p ++ r.
Proof.
  revert s; induction p as [|a p IH]; intros s; simpl.
  - split; [exists s; reflexivity | reflexivity].
  - destruct s as [|b s]; simpl.
    + split; [discriminate | intros [r H]; discriminate].
    + rewrite andb_true_iff, Ascii.eqb_eq, IH. split.
      * intros [-> [r ->]]. exists r. reflexivity.
      * intros [r H]. injection H as -> ->. split; [reflexivity | exists r; reflexivity].
Qed.

Lemma includes_app s t : includes s t = true <-> exists a b, s = a ++ t ++ b.
Proof.
  induction s as [|c s IH]; simpl.
  - rewrite orb_false_r, startsWith_app. split.
    + intros [r H]. exists "", r. exact H.
    + intros [a [b H]]. destruct a; [exists b; exact H | discriminate].
  - rewrite orb_true_iff, IH, startsWith_app. split.
    + intros [[r H] | [a [b H]]].
      * exists "", r. exact H.
      * exists (String c a), b. simpl. rewrite H. reflexivity.
    + intros [a [b H]]. destruct a as [|c' a]; simpl in H.
      * left. exists b. exact H.
      * right. injection H as _ H. exists a, b. exact H.
Qed.

Lemma indexOf_None s t : indexOf s t = None <-> includes s t = false.
Proof.
  induction s as [|c s IH]; simpl.
  - destruct (startsWith "" t); simpl; split; congruence.
  - destruct (startsWith (String c s) t); simpl.
    + split; discriminate.
    + rewrite <- IH. destruct (indexOf s t); simpl; split; congruence.
Qed.

Lemma length_app (a b : string) :
  String.length (a ++ b) = String.length a + String.length b.
Proof. induction a; simpl; congruence. Qed.

Lemma drop_app_length (a b : string) : drop (String.length a) (a ++ b) = b.
Proof. induction a; simpl; auto. Qed.

Lemma take_app_length (a b : string) : take (String.length a) (a ++ b) = a.
Proof. induction a; simpl; congruence. Qed.

Lemma take_drop n (s : string) : take n s ++ drop n s = s.
Proof.
  revert s; induction n; intros [|c s]; simpl; try reflexivity.
  rewrite IHn; reflexivity.
Qed.

Lemma indexOf_split s t i :
  indexOf s t = Some i -> s = take i s ++ t ++ drop (i + String.length t) s.
Proof.
  revert i; induction s as [|c s IH]; intros i; simpl.
  - destruct (startsWith "" t) eqn:E; [|discriminate].
    intros [= <-]. apply startsWith_app in E. destruct E as [r E].
    destruct t; [reflexivity | discriminate].
  - destruct (startsWith (String c s) t) eqn:E.
    + intros [= <-]. apply startsWith_app in E. destruct E as [r E].
      simpl. rewrite E at 2. rewrite drop_app_length. exact E.
    + destruct (indexOf s t) as [j|] eqn:Ej; simpl; [|discriminate].
      intros [= <-]. simpl. f_equal. apply IH. reflexivity.
Qed.

Lemma smap_app f (a b : string) : smap f (a ++ b) = smap f a ++ smap f b.
Proof. induction a; simpl; congruence. Qed.

Lemma smap_length f (s : string) : String.length (smap f s) = String.length s.
Proof. induction s; simpl; congruence. Qed.

Lemma smap_app_inv f (s a b : string) :
  smap f s = a ++ b ->
  exists a' b', s = a' ++ b' /\ smap f a' = a /\ smap f b' = b.
Proof.
  revert s; induction a as [|x a IH]; intros s H; simpl in H.
  - exists "", s. auto.
  - destruct s as [|y s]; [discriminate|]. simpl in H.
    injection H as Hx H. apply IH in H. destruct H as [a' [b' [-> [Ha Hb]]]].
    exists (String y a'), b'. simpl. rewrite Hx, Ha. auto.
Qed.

(** Two Latin-1 code units are equal under the [i] flag exactly when they
    lower-case to the same code unit. *)
Lemma canonicalize_lowerChar c : canonicalize (lowerChar c) = canonicalize c.
Proof.
  destruct c as [[] [] [] [] [] [] [] []]; vm_compute; reflexivity.
Qed.

Lemma lowerChar_canonicalize c : lowerChar (canonicalize c) = lowerChar c.
Proof.
  destruct c as [[] [] [] [] [] [] [] []]; vm_compute; reflexivity.
Qed.

Lemma lowerChar_idem c : lowerChar (lowerChar c) = lowerChar c.
Proof.
  destruct c as [[] [] [] [] [] [] [] []]; vm_compute; reflexivity.
Qed.

Lemma toLowerCase_idem s : toLowerCase (toLowerCase s) = toLowerCase s.
Proof.
  unfold toLowerCase. induction s as [|c s IH]; simpl; [reflexivity|].
  rewrite lowerChar_idem, IH. reflexivity.
Qed.

Lemma canonicalize_toLowerCase w p :
  smap canonicalize w = smap canonicalize p <-> toLowerCase w = toLowerCase p.
Proof.
  unfold toLowerCase. revert p; induction w as [|c w IH]; intros [|a p]; simpl;
    try (split; [reflexivity | reflexivity]);
    try (split; discriminate).
  split; intros H; injection H as Hc Hw; apply IH in Hw; rewrite Hw; f_equal.
  - rewrite <- (lowerChar_canonicalize c), Hc. apply lowerChar_canonicalize.
  - rewrite <- (canonicalize_lowerChar c), Hc. apply canonicalize_lowerChar.
Qed.

Lemma app_length_eq (pre rest : string) :
  String.length rest = String.length (pre ++ rest) -> pre = "".
Proof.
  rewrite length_app. destruct pre; simpl; [reflexivity | lia].
Qed.

Lemma indexOf_take s t : forall i,
  indexOf s t = Some i -> String.length (take i s) = i.
Proof.
  induction s as [|c s IH]; intros i; simpl.
  - destruct (startsWith "" t); [|discriminate]. intros [= <-]. reflexivity.
  - destruct (startsWith (String c s) t).
    + intros [= <-]. reflexivity.
    + destruct (indexOf s t) as [j|]; simpl; [|discriminate].
      intros [= <-]. simpl. f_equal. apply IH. reflexivity.
Qed.

Lemma indexOf_length s t i :
  indexOf s t = Some i ->
  String.length s = i + String.length t + String.length (drop (i + String.length t) s).
Proof.
  intros H. pose proof (indexOf_take _ _ _ H) as L.
  apply indexOf_split in H.
  rewrite H at 1. rewrite !length_app, L. lia.
Qed.

Lemma includes_indexOf s t : includes s t = true -> exists i, indexOf s t = Some i.
Proof.
  intros H. destruct (indexOf s t) as [i|] eqn:E; [eauto|].
  apply indexOf_None in E. congruence.
Qed.

Lemma removeChars_app p a b :
  removeChars p (a ++ b) = removeChars p a ++ removeChars p b.
Proof. induction a as [|c a IH]; simpl; [reflexivity|]. destruct (p c); simpl; congruence. Qed.

Lemma removeChars_noneOf p s : noneOf p s = true -> removeChars p s = s.
Proof.
  induction s as [|c s IH]; simpl; [reflexivity|].
  destruct (p c); simpl; [discriminate|]. intros H. rewrite IH; auto.
Qed.

Lemma app_assoc (a b c : string) : (a ++ b) ++ c = a ++ b ++ c.
Proof. induction a; simpl; congruence. Qed.

Lemma noneOf_app p a b : noneOf p (a ++ b) = noneOf p a && noneOf p b.
Proof.
  induction a as [|c a IH]; simpl; [reflexivity|].
  rewrite IH. apply andb_assoc.
Qed.

End StringFacts.

(** ** The matcher against the declarative reading *)

Module RegexFacts.
Import JS Regex Spec StringFacts.

Lemma Matches_empty_inv total s s1 : Matches total Empty s s1 -> s1 = s.
Proof. inversion 1; reflexivity. Qed.

Lemma Matches_chr_inv total p s s1 :
  Matches total (Chr p) s s1 -> exists a, s = String a s1 /\ p a = true.
Proof. inversion 1; subst; eauto. Qed.

Lemma Matches_seq_inv total r1 r2 s s2 :
  Matches total (Seq r1 r2) s s2 ->
  exists s1, Matches total r1 s s1 /\ Matches total r2 s1 s2.
Proof. inversion 1; subst; eauto. Qed.

Lemma Matches_alt_inv total r1 r2 s s1 :
  Matches total (Alt r1 r2) s s1 ->
  Matches total r1 s s1 \/ Matches total r2 s s1.
Proof. inversion 1; subst; auto. Qed.

Lemma Matches_star_inv total g r s s2 :
  Matches total (Star g r) s s2 ->
  s2 = s \/
  exists s1, Matches total r s s1 /\ String.length s1 < String.length s /\
             Matches total (Star g r) s1 s2.
Proof. inversion 1; subst; eauto. Qed.

Lemma Matches_group_inv total i r s s1 :
  Matches total (Group i r) s s1 -> Matches total r s s1.
Proof. inversion 1; subst; auto. Qed.

Lemma Matches_bol_inv total s s1 :
  Matches total Bol s s1 -> s1 = s /\ String.length s = total.
Proof. inversion 1; subst; auto. Qed.

Lemma Matches_eol_inv total s s1 :
  Matches total Eol s s1 -> s = "" /\ s1 = "".
Proof. inversion 1; subst; auto. Qed.

Section Loop.
Context {A : Type}.
Variable total : nat.
Variable r : regex.
Variable step : string -> captures -> @cont A -> option A.

Hypothesis step_sound : forall s c k x,
  step s c k = Some x ->
  exists s1 c1, Matches total r s s1 /\ k s1 c1 = Some x.

Hypothesis step_complete : forall s s1 k,
  Matches total r s s1 -> (forall c1, k s1 c1 <> None) ->
  forall c, step s c k <> None.

Lemma starLoop_sound g k fuel : forall s c x,
  starLoop step g k fuel s c = Some x ->
  exists s1 c1, Matches total (Star g r) s s1 /\ k s1 c1 = Some x.
Proof.
  induction fuel as [|fuel IH]; intros s c x; simpl.
  - intros H. exists s, c. split; [constructor | exact H].
  - set (again := step s c _).
    assert (Hagain : again = Some x ->
              exists s1 c1, Matches total (Star g r) s s1 /\ k s1 c1 = Some x).
    { intros H. apply step_sound in H. destruct H as [s1 [c1 [M H]]].
      destruct (Nat.ltb (String.length s1) (String.length s)) eqn:L; [|discriminate].
      apply IH in H. destruct H as [s2 [c2 [M2 H]]].
      exists s2, c2. split; [|exact H].
      apply Nat.ltb_lt in L. econstructor; eassumption. }
    assert (Hstop : k s c = Some x ->
              exists s1 c1, Matches total (Star g r) s s1 /\ k s1 c1 = Some x).
    { intros H. exists s, c. split; [constructor | exact H]. }
    destruct g; unfold orElse.
    + destruct again; auto.
    + destruct (k s c); auto.
Qed.

Lemma starLoop_complete g k fuel : forall s s2,
  String.length s <= fuel ->
  Matches total (Star g r) s s2 -> (forall c2, k s2 c2 <> None) ->
  forall c, starLoop step g k fuel s c <> None.
Proof.
  induction fuel as [|fuel IH]; intros s s2 Hfuel M Hk c; simpl.
  - apply Matches_star_inv in M. destruct M as [-> | [s1 [_ [L _]]]];
      [apply Hk | lia].
  - set (again := step s c _).
    apply Matches_star_inv in M. destruct M as [-> | [s1 [M1 [L M2]]]].
    + destruct g; unfold orElse.
      * destruct again; [discriminate | apply Hk].
      * specialize (Hk c). destruct (k s c); [discriminate | congruence].
    + assert (Hagain : again <> None).
      { apply step_complete with (s1 := s1); [assumption|].
        intros c1. apply Nat.ltb_lt in L as L'. rewrite L'.
        apply IH with (s2 := s2); [lia | assumption | assumption]. }
      destruct g; unfold orElse.
      * destruct again; [discriminate | congruence].
      * destruct (k s c); [discriminate | exact Hagain].
Qed.
End Loop.

Lemma run_sound {A : Type} total r : forall s c (k : @cont A) x,
  run total r s c k = Some x ->
  exists s1 c1, Matches total r s s1 /\ k s1 c1 = Some x.
Proof.
  induction r as [|p|r1 IH1 r2 IH2|r1 IH1 r2 IH2|g r1 IH1|i r1 IH1| |];
    intros s c k x; simpl.
  - intros H. exists s, c. split; [constructor | exact H].
  - destruct s as [|a s]; [discriminate|].
    destruct (p a) eqn:P; [|discriminate].
    intros H. exists s, c. split; [constructor; exact P | exact H].
  - intros H. apply IH1 in H. destruct H as [s1 [c1 [M1 H]]].
    apply IH2 in H. destruct H as [s2 [c2 [M2 H]]].
    exists s2, c2. split; [econstructor; eassumption | exact H].
  - unfold orElse. destruct (run total r1 s c k) eqn:E.
    + intros [= ->]. apply IH1 in E. destruct E as [s1 [c1 [M E]]].
      exists s1, c1. split; [apply MAltL; exact M | exact E].
    + intros H. apply IH2 in H. destruct H as [s1 [c1 [M H]]].
      exists s1, c1. split; [apply MAltR; exact M | exact H].
  - apply starLoop_sound. intros s0 c0 k0 x0. apply IH1.
  - intros H. apply IH1 in H. destruct H as [s1 [c1 [M H]]].
    eexists _, _. split; [constructor; exact M | exact H].
  - destruct (Nat.eqb (String.length s) total) eqn:E; [|discriminate].
    intros H. exists s, c. apply Nat.eqb_eq in E.
    split; [constructor; exact E | exact H].
  - destruct s; [|discriminate].
    intros H. exists "", c. split; [constructor | exact H].
Qed.

Lemma run_complete {A : Type} total r : forall s s1 (k : @cont A),
  Matches total r s s1 -> (forall c1, k s1 c1 <> None) ->
  forall c, run total r s c k <> None.
Proof.
  induction r as [|p|r1 IH1 r2 IH2|r1 IH1 r2 IH2|g r1 IH1|i r1 IH1| |];
    intros s s1 k M Hk c; simpl.
  - apply Matches_empty_inv in M. subst. apply Hk.
  - apply Matches_chr_inv in M. destruct M as [a [-> P]]. rewrite P. apply Hk.
  - apply Matches_seq_inv in M. destruct M as [s0 [M1 M2]].
    eapply IH1; [eassumption|].
    intros c1. eapply IH2; eassumption.
  - unfold orElse. apply Matches_alt_inv in M. destruct M as [M | M].
    + pose proof (IH1 _ _ k M Hk c) as H.
      destruct (run total r1 s c k); [discriminate | congruence].
    + destruct (run total r1 s c k); [discriminate|].
      eapply IH2; eassumption.
  - eapply starLoop_complete with (r := r1); eauto.
  - apply Matches_group_inv in M. eapply IH1; [eassumption|].
    intros c1. apply Hk.
  - apply Matches_bol_inv in M. destruct M as [-> E].
    rewrite E, Nat.eqb_refl. apply Hk.
  - apply Matches_eol_inv in M. destruct M as [-> ->]. apply Hk.
Qed.


Lemma execFrom_sound total r : forall s pos m,
  execFrom total r pos s = Some m ->
  exists pre rest s1, s = pre ++ rest /\ Matches total r rest s1.
Proof.
  induction s as [|a s IH]; intros pos m; simpl.
  - destruct (run total r "" [] _) as [[s1 c1]|] eqn:E; [|discriminate].
    intros _. apply run_sound in E. destruct E as [s2 [c2 [M _]]].
    exists "", "", s2. split; [reflexivity | exact M].
  - destruct (run total r (String a s) [] _) as [[s1 c1]|] eqn:E.
    + intros _. apply run_sound in E. destruct E as [s2 [c2 [M _]]].
      exists "", (String a s), s2. split; [reflexivity | exact M].
    + intros H. apply IH in H. destruct H as [pre [rest [s1 [-> M]]]].
      exists (String a pre), rest, s1. split; [reflexivity | exact M].
Qed.

Lemma execFrom_complete total r : forall pre rest s1 pos,
  Matches total r rest s1 -> execFrom total r pos (pre ++ rest) <> None.
Proof.
  induction pre as [|a pre IH]; intros rest s1 pos M.
  - simpl. assert (H : run total r rest [] (fun s' c => Some (s', c)) <> None).
    { eapply run_complete; [exact M | discriminate]. }
    destruct rest; simpl;
      destruct (run total r _ [] _) as [[s2 c2]|]; congruence.
  - simpl. destruct (run total r _ [] _) as [[s2 c2]|]; [discriminate|].
    eapply IH. exact M.
Qed.

Theorem test_true r s : test r s = true <-> MatchesIn r s.
Proof.
  unfold test, exec, MatchesIn. split.
  - destruct (execFrom _ r 0 s) eqn:E; [|discriminate].
    intros _. eapply execFrom_sound. exact E.
  - intros [pre [rest [s1 [E M]]]].
    pose proof (execFrom_complete (String.length s) r pre rest s1 0 M) as H.
    rewrite <- E in H. destruct (execFrom _ r 0 s); congruence.
Qed.

(** A literal under the [i] flag matches the words that are equal to it up
    to case. *)
Lemma Matches_canonical total p : forall w s,
  smap canonicalize w = smap canonicalize p -> Matches total (liti p) (w ++ s) s.
Proof.
  induction p as [|a p IH]; intros [|c w] s H; simpl in H; try discriminate.
  - constructor.
  - injection H as Hc H. simpl liti. destruct p as [|b p].
    + destruct w; [|discriminate]. simpl. constructor.
      rewrite Hc. apply Ascii.eqb_refl.
    + simpl append. econstructor.
      * constructor. rewrite Hc. apply Ascii.eqb_refl.
      * apply IH. exact H.
Qed.

Lemma Matches_canonical_inv total p : forall s s1,
  Matches total (liti p) s s1 ->
  exists w, s = w ++ s1 /\ smap canonicalize w = smap canonicalize p.
Proof.
  induction p as [|a p IH]; intros s s1 M.
  - apply Matches_empty_inv in M. subst. exists "". auto.
  - simpl liti in M. destruct p as [|b p].
    + apply Matches_chr_inv in M. destruct M as [c [-> P]].
      apply Ascii.eqb_eq in P. exists (String c ""). simpl. rewrite P. auto.
    + apply Matches_seq_inv in M. destruct M as [s0 [M1 M2]].
      apply Matches_chr_inv in M1. destruct M1 as [c [-> P]].
      apply Ascii.eqb_eq in P. apply IH in M2. destruct M2 as [w [-> H]].
      exists (String c w). simpl in *. rewrite P, H. auto.
Qed.

Lemma Matches_liti total p w s :
  toLowerCase w = toLowerCase p -> Matches total (liti p) (w ++ s) s.
Proof.
  intros H. apply Matches_canonical. apply canonicalize_toLowerCase. exact H.
Qed.

Lemma Matches_liti_inv total p s s1 :
  Matches total (liti p) s s1 ->
  exists w, s = w ++ s1 /\ toLowerCase w = toLowerCase p.
Proof.
  intros M. apply Matches_canonical_inv in M. destruct M as [w [E H]].
  exists w. split; [exact E|]. apply canonicalize_toLowerCase. exact H.
Qed.

Lemma MatchesIn_intro r pre rest s1 :
  Matches (String.length (pre ++ rest)) r rest s1 -> MatchesIn r (pre ++ rest).
Proof. intros M. exists pre, rest, s1. auto. Qed.

(** A match consumes a prefix of the text it starts on. *)
Lemma Matches_suffix total r s s1 :
  Matches total r s s1 -> exists m, s = m ++ s1.
Proof.
  induction 1.
  - exists "". reflexivity.
  - exists (String a ""). reflexivity.
  - destruct IHMatches1 as [m1 ->]. destruct IHMatches2 as [m2 ->].
    exists (m1 ++ m2). symmetry. apply app_assoc.
  - assumption.
  - assumption.
  - exists "". reflexivity.
  - destruct IHMatches1 as [m1 ->]. destruct IHMatches2 as [m2 ->].
    exists (m1 ++ m2). symmetry. apply app_assoc.
  - assumption.
  - exists "". reflexivity.
  - exists "". reflexivity.
Qed.

Lemma Matches_dots total g : forall b s,
  noneOf isLineTerminator b = true -> Matches total (Star g dot) (b ++ s) s.
Proof.
  induction b as [|c b IH]; intros s H; simpl in *.
  - constructor.
  - apply andb_true_iff in H. destruct H as [Hc Hb].
    apply MStarStep with (s1 := b ++ s).
    + constructor. exact Hc.
    + simpl. lia.
    + apply IH. exact Hb.
Qed.

End RegexFacts.

(** ** The scanner and the validator *)

Module ScanFacts.
Import JS Regex Spec StringFacts RegexFacts.

Lemma selectStart_test sql :
  test Server.selectStart sql = startsWithSelectSpace sql.
Proof.
  apply eq_true_iff_eq. rewrite test_true. unfold startsWithSelectSpace.
  rewrite andb_true_iff. unfold strEq. rewrite String.eqb_eq. split.
  - intros [pre [rest [s1 [E M]]]].
    unfold Server.selectStart in M. cbn [seqs] in M.
    apply Matches_seq_inv in M. destruct M as [s0 [M0 M]].
    apply Matches_bol_inv in M0. destruct M0 as [-> L].
    rewrite E in L. apply app_length_eq in L. subst pre. simpl in E. subst rest.
    apply Matches_seq_inv in M. destruct M as [s2 [M1 M2]].
    apply Matches_liti_inv in M1. destruct M1 as [w [-> Hw]].
    unfold Plus in M2. apply Matches_seq_inv in M2. destruct M2 as [s3 [M2 _]].
    apply Matches_chr_inv in M2. destruct M2 as [a [-> Ha]].
    assert (Lw : String.length w = 6).
    { rewrite <- (smap_length lowerChar w). fold (toLowerCase w).
      rewrite Hw. reflexivity. }
    rewrite <- Lw at 1. rewrite take_app_length.
    rewrite <- Lw. rewrite drop_app_length. split; [exact Hw | exact Ha].
  - intros [Hw Hs]. destruct (drop 6 sql) as [|a s3] eqn:D; [discriminate|].
    rewrite <- (take_drop 6 sql), D.
    apply (MatchesIn_intro _ "" _ s3). simpl append.
    unfold Server.selectStart. cbn [seqs].
    econstructor; [constructor; reflexivity|].
    econstructor.
    + apply Matches_liti. exact Hw.
    + unfold Plus. econstructor; [constructor; exact Hs | constructor].
Qed.

Lemma detect_In (table : list (regex * string)) q threat : forall acc,
  In threat
     (fold_left
        (fun (threats : list string) '(pattern, t) =>
           if test pattern q then (threats ++ [t])%list else threats)
        table acc) <->
  In threat acc \/ exists pattern, In (pattern, threat) table /\ test pattern q = true.
Proof.
  induction table as [|[p t] table IH]; intros acc; simpl.
  - split; [auto | intros [H | [p [[] _]]]; exact H].
  - rewrite IH. split.
    + intros [H | [p' [H1 H2]]].
      * destruct (test p q) eqn:E; [|auto].
        apply in_app_or in H. destruct H as [H | [<- | []]]; [auto|].
        right. exists p. auto.
      * right. exists p'. auto.
    + intros [H | [p' [[H1 | H1] H2]]].
      * left. destruct (test p q); [apply in_or_app|]; auto.
      * injection H1 as -> ->. left. rewrite H2. apply in_or_app. simpl. auto.
      * right. exists p'. auto.
Qed.

Lemma codeExecution_word q p :
  (forall total s s1, Matches total (liti p) s s1 -> Matches total codeExecution s s1) ->
  includes (toLowerCase q) p = true -> test codeExecution q = true.
Proof.
  intros Hp H. apply includes_app in H. destruct H as [a [b H]].
  unfold toLowerCase in H. apply smap_app_inv in H.
  destruct H as [a' [r [-> [_ H]]]]. apply smap_app_inv in H.
  destruct H as [w [b' [-> [Hw _]]]]. fold (toLowerCase w) in Hw.
  apply test_true. eapply MatchesIn_intro. apply Hp. apply Matches_liti.
  rewrite <- Hw. symmetry. apply toLowerCase_idem.
Qed.

Lemma codeExecution_test q :
  includes (toLowerCase q) "exec" = true \/
  includes (toLowerCase q) "eval" = true \/
  includes (toLowerCase q) "script" = true ->
  test codeExecution q = true.
Proof.
  intros [H | [H | H]].
  - apply (codeExecution_word q "exec"); [|exact H].
    intros total s s1 M. constructor. cbn [alts]. apply MAltL. exact M.
  - apply (codeExecution_word q "eval"); [|exact H].
    intros total s s1 M. constructor. cbn [alts].
    apply MAltR, MAltR, MAltL. exact M.
  - apply (codeExecution_word q "script"); [|exact H].
    intros total s s1 M. constructor. cbn [alts].
    apply MAltR, MAltR, MAltR. exact M.
Qed.

Lemma keywords_inv total s s1 :
  Matches total keywords s s1 ->
  exists kw k, s = kw ++ s1 /\ In k dangerousWords /\ toLowerCase kw = k.
Proof.
  unfold keywords. cbn [alts]. intros M.
  repeat (apply Matches_alt_inv in M; destruct M as [M | M]);
    apply Matches_liti_inv in M; destruct M as [kw [-> H]];
    eexists kw, _; (split; [reflexivity|]);
    (split; [|exact H]);
    simpl; tauto.
Qed.

Lemma keywords_intro total kw k s :
  In k dangerousWords -> toLowerCase kw = k -> Matches total keywords (kw ++ s) s.
Proof.
  unfold keywords, dangerousWords. cbn [alts In].
  intros [<- | [<- | [<- | [<- | [<- | [<- | []]]]]]] H.
  - apply MAltL. apply Matches_liti. exact H.
  - apply MAltR, MAltL. apply Matches_liti. exact H.
  - apply MAltR, MAltR, MAltL. apply Matches_liti. exact H.
  - apply MAltR, MAltR, MAltR, MAltL. apply Matches_liti. exact H.
  - apply MAltR, MAltR, MAltR, MAltR, MAltL. apply Matches_liti. exact H.
  - apply MAltR, MAltR, MAltR, MAltR, MAltR. apply Matches_liti. exact H.
Qed.

Lemma dangerous_sound sql :
  test Server.dangerous sql = true -> dangerousAfterWhere sql.
Proof.
  rewrite test_true. intros [pre [rest0 [s1 [E M]]]].
  unfold Server.dangerous in M. cbn [seqs] in M.
  apply Matches_seq_inv in M. destruct M as [s2 [M1 M]].
  apply Matches_liti_inv in M1. destruct M1 as [w [-> Hw]].
  apply Matches_seq_inv in M. destruct M as [s3 [M2 M3]].
  apply Matches_suffix in M2. destruct M2 as [b ->].
  apply Matches_group_inv in M3. apply keywords_inv in M3.
  destruct M3 as [kw [k [-> [Hk Hkw]]]].
  exists pre, w, (b ++ kw ++ s1), k.
  split; [exact E|]. split; [exact Hw|].
  split; [exact Hk|].
  apply includes_app. exists (toLowerCase b), (toLowerCase s1).
  unfold toLowerCase in *. rewrite !smap_app, Hkw. reflexivity.
Qed.

Lemma dangerous_complete sql :
  noneOf isLineTerminator sql = true ->
  dangerousAfterWhere sql -> test Server.dangerous sql = true.
Proof.
  intros HL [before [w [rest [k [-> [Hw [Hk Hinc]]]]]]].
  apply includes_app in Hinc. destruct Hinc as [a [c Hinc]].
  unfold toLowerCase in Hinc. apply smap_app_inv in Hinc.
  destruct Hinc as [b [r [-> [_ Hr]]]]. apply smap_app_inv in Hr.
  destruct Hr as [kw [s1 [-> [Hkw _]]]].
  rewrite !noneOf_app in HL. repeat rewrite andb_true_iff in HL.
  destruct HL as [_ [_ [Hb _]]].
  apply test_true. apply (MatchesIn_intro _ before _ s1).
  unfold Server.dangerous. cbn [seqs].
  econstructor.
  - apply Matches_liti. exact Hw.
  - econstructor.
    + apply Matches_dots. exact Hb.
    + constructor. apply (keywords_intro _ kw k); [exact Hk | exact Hkw].
Qed.

Lemma validate_dangerous sql :
  In "Dangerous SQL operation detected" (Server.validateSQLGrammar sql) <->
  test Server.dangerous sql = true.
Proof.
  unfold Server.validateSQLGrammar.
  generalize (test Server.fromClause sql) (test Server.selectStart sql)
             (negb (Nat.eqb (Nat.modulo (List.length (matchAll (chr "`") sql)) 2) 0)).
  intros b1 b3 b2.
  destruct b1, b2, b3, (test Server.dangerous sql); simpl;
    intuition (try discriminate; try congruence).
Qed.

Lemma validate_select sql :
  In "Query must start with SELECT" (Server.validateSQLGrammar sql) <->
  test Server.selectStart sql = false.
Proof.
  unfold Server.validateSQLGrammar.
  generalize (test Server.fromClause sql) (test Server.dangerous sql)
             (negb (Nat.eqb (Nat.modulo (List.length (matchAll (chr "`") sql)) 2) 0)).
  intros b1 b4 b2.
  destruct b1, b2, (test Server.selectStart sql), b4; simpl;
    intuition (try discriminate; try congruence).
Qed.

End ScanFacts.

(** ** The condition evaluator *)

Module ConditionFacts.
Import JS Regex Spec StringFacts Client.

Lemma lt_nan_l x y : isNaN x = true -> lt x y = false.
Proof. destruct x; try discriminate. reflexivity. Qed.

Lemma lt_nan_r x y : isNaN y = true -> lt x y = false.
Proof. destruct y; try discriminate. destruct x; reflexivity. Qed.

Lemma le_nan_l x y : isNaN x = true -> le x y = false.
Proof. destruct x; try discriminate. reflexivity. Qed.

Lemma le_nan_r x y : isNaN y = true -> le x y = false.
Proof. destruct y; try discriminate. destruct x; reflexivity. Qed.


Lemma split_from_head fuel rest op :
  String.length rest <= fuel ->
  exists tl, split_from fuel rest op = upToNext rest op :: tl.
Proof.
  intros L. unfold upToNext. destruct fuel as [|fuel]; simpl.
  - destruct rest; [|simpl in L; lia].
    destruct (indexOf "" op) as [j|]; [destruct j|]; eexists; reflexivity.
  - destruct (indexOf rest op); eexists; reflexivity.
Qed.

(** The two operands of App.js:207 when the operator occurs. *)
Lemma operands_at condition op i :
  op <> "" -> indexOf condition op = Some i ->
  operands condition op =
    (trim (take i condition),
     Some (trim (upToNext (drop (i + String.length op) condition) op))).
Proof.
  intros Hop H. unfold operands, split.
  pose proof (indexOf_length _ _ _ H) as L.
  destruct (String.length condition) as [|fuel] eqn:E.
  - destruct op as [|a op]; [congruence|].
    cbn [String.length] in L. lia.
  - cbn [split_from]. rewrite H.
    destruct (split_from_head fuel (drop (i + String.length op) condition) op)
      as [tl ->]; [|reflexivity].
    destruct op as [|a op]; [congruence|].
    cbn [String.length] in *. lia.
Qed.


Lemma firstOperator_In condition op :
  firstOperator condition = Some op ->
  In op operators /\ includes condition op = true.
Proof. apply find_some. Qed.

Lemma operators_nonempty op : In op operators -> op <> "".
Proof. simpl. intuition (subst; discriminate). Qed.

Lemma compareWith_total op lv rv :
  In op operators -> exists b, compareWith op lv rv = Some b.
Proof.
  simpl. intros [<- | [<- | [<- | [<- | [<- | [<- | [<- | []]]]]]]];
    eexists; reflexivity.
Qed.

(** The loop stops at the first operator that occurs. *)
Lemma evaluateWith_find r condition : forall ops,
  (forall op, In op ops -> In op operators) ->
  match List.find (includes condition) ops with
  | Some op =>
      forall lhs rhs, operands condition op = (lhs, Some rhs) ->
      exists b, compareWith op (leftValue r lhs) (rightValue rhs) = Some b /\
                evaluateWith ops r condition = Ok b
  | None => evaluateWith ops r condition = Ok true
  end.
Proof.
  induction ops as [|op ops IH]; intros Hops; cbn [List.find evaluateWith].
  - reflexivity.
  - destruct (includes condition op) eqn:E.
    + intros lhs rhs ->.
      destruct (compareWith_total op (leftValue r lhs) (rightValue rhs))
        as [b Hb]; [apply Hops; left; reflexivity|].
      rewrite Hb. eauto.
    + apply IH. intros op' H. apply Hops. right. exact H.
Qed.

Lemma evaluateCondition_first r condition op lhs rhs :
  firstOperator condition = Some op ->
  operands condition op = (lhs, Some rhs) ->
  exists b, compareWith op (leftValue r lhs) (rightValue rhs) = Some b /\
            evaluateCondition r condition = Ok b.
Proof.
  intros H. pose proof (evaluateWith_find r condition operators (fun _ h => h)) as F.
  unfold firstOperator in H. rewrite H in F. apply F.
Qed.

Lemma evaluateCondition_none r condition :
  firstOperator condition = None -> evaluateCondition r condition = Ok true.
Proof.
  intros H. pose proof (evaluateWith_find r condition operators (fun _ h => h)) as F.
  unfold firstOperator in H. rewrite H in F. exact F.
Qed.

Lemma firstOperator_operands condition op :
  firstOperator condition = Some op ->
  exists i, indexOf condition op = Some i /\
    operands condition op =
      (trim (take i condition),
       Some (trim (upToNext (drop (i + String.length op) condition) op))).
Proof.
  intros H. apply firstOperator_In in H. destruct H as [Hin Hinc].
  apply includes_indexOf in Hinc. destruct Hinc as [i Hi].
  exists i. split; [exact Hi|].
  apply operands_at; [apply operators_nonempty; exact Hin | exact Hi].
Qed.

Lemma evaluateCondition_total r condition :
  exists b, evaluateCondition r condition = Ok b.
Proof.
  destruct (firstOperator condition) as [op|] eqn:E.
  - destruct (firstOperator_operands _ _ E) as [i [_ Ho]].
    destruct (evaluateCondition_first r _ _ _ _ E Ho) as [b [_ Hb]]. eauto.
  - exists true. apply evaluateCondition_none. exact E.
Qed.

Lemma upToNext_once rest op : includes rest op = false -> upToNext rest op = rest.
Proof. intros H. apply indexOf_None in H. unfold upToNext. rewrite H. reflexivity. Qed.

Lemma filterM_total {A : Type} (p : A -> result bool) (xs : list A) :
  (forall x, exists b, p x = Ok b) ->
  filterM p xs =
  Ok (filter (fun x => match p x with Ok b => b | Throw _ => false end) xs).
Proof.
  intros Hp. induction xs as [|x xs IH]; simpl; [reflexivity|].
  destruct (Hp x) as [b ->]. simpl. rewrite IH. simpl. reflexivity.
Qed.

Lemma handleWhere_total results sqlQuery :
  handleWhere results sqlQuery = Ok (whereRows results sqlQuery).
Proof.
  unfold handleWhere, whereRows.
  destruct (includes (toLowerCase sqlQuery) "where"); [|reflexivity].
  destruct (exec whereRe sqlQuery) as [m|]; [|reflexivity].
  apply filterM_total. intros r. apply evaluateCondition_total.
Qed.

End ConditionFacts.

(** ** The aggregation engine *)

Module AggregateFacts.
Import JS Regex Spec Client.




End AggregateFacts.

(** ** Literals and alternations of literals *)

Module MatchFacts.
Import JS Regex Spec StringFacts RegexFacts.

(** A literal matches its own text and nothing else. *)
Lemma Matches_lit total p : forall s, Matches total (lit p) (p ++ s) s.
Proof.
  induction p as [|a p IH]; intros s.
  - constructor.
  - destruct p as [|b p].
    + cbn. constructor. apply Ascii.eqb_refl.
    + change (lit (String a (String b p))) with (Seq (chr a) (lit (String b p))).
      econstructor; [constructor; apply Ascii.eqb_refl | apply IH].
Qed.

Lemma Matches_lit_inv total p : forall s s1,
  Matches total (lit p) s s1 -> s = p ++ s1.
Proof.
  induction p as [|a p IH]; intros s s1 H.
  - apply Matches_empty_inv in H. subst. reflexivity.
  - destruct p as [|b p].
    + cbn in H. apply Matches_chr_inv in H. destruct H as [c [-> Hc]].
      apply Ascii.eqb_eq in Hc. subst. reflexivity.
    + change (lit (String a (String b p))) with (Seq (chr a) (lit (String b p))) in H.
      apply Matches_seq_inv in H. destruct H as [s2 [H1 H2]].
      apply Matches_chr_inv in H1. destruct H1 as [c [-> Hc]].
      apply Ascii.eqb_eq in Hc. subst. apply IH in H2. subst. reflexivity.
Qed.

(** An alternation of literals is a test for one of the texts. *)
Lemma test_lits (ps : list string) s :
  ps <> [] ->
  test (alts (map lit ps)) s = existsb (includes s) ps.
Proof.
  intros Hne.
  apply eq_true_iff_eq. rewrite test_true, existsb_exists.
  split.
  - intros [pre [rest [s1 [-> H]]]].
    revert H. generalize (String.length (pre ++ rest)). intros total H.
    induction ps as [|p ps IH]; [congruence|].
    destruct ps as [|p' ps].
    + cbn in H. apply Matches_lit_inv in H. subst.
      exists p. split; [left; reflexivity|]. apply includes_app. eauto.
    + change (alts (map lit (p :: p' :: ps)))
        with (Alt (lit p) (alts (map lit (p' :: ps)))) in H.
      apply Matches_alt_inv in H. destruct H as [H|H].
      * apply Matches_lit_inv in H. subst.
        exists p. split; [left; reflexivity|]. apply includes_app. eauto.
      * destruct IH as [x [Hin Hx]]; [discriminate|exact H|].
        exists x. split; [right; exact Hin|exact Hx].
  - intros [p [Hin Hp]]. apply includes_app in Hp. destruct Hp as [a [b ->]].
    apply MatchesIn_intro with (s1 := b).
    generalize (String.length (a ++ p ++ b)). intros total.
    clear Hne. induction ps as [|q ps IH]; [destruct Hin|].
    destruct ps as [|q' ps].
    + destruct Hin as [->|[]]. cbn. apply Matches_lit.
    + change (alts (map lit (q :: q' :: ps)))
        with (Alt (lit q) (alts (map lit (q' :: ps)))).
      destruct Hin as [->|Hin].
      * apply MAltL. apply Matches_lit.
      * apply MAltR. apply IH. exact Hin.
Qed.

(** An alternation of literals under the [i] flag is a test for one of the
    texts in the lower-cased input. *)
Lemma includes_lower s p :
  includes (toLowerCase s) (toLowerCase p) = true <->
  exists a w b, s = a ++ w ++ b /\ toLowerCase w = toLowerCase p.
Proof.
  rewrite includes_app. split.
  - intros [a [b H]]. unfold toLowerCase in H.
    apply smap_app_inv in H. destruct H as [a' [r [-> [Ha Hr]]]].
    apply smap_app_inv in Hr. destruct Hr as [w [b' [-> [Hw Hb]]]].
    exists a', w, b'. split; [reflexivity|exact Hw].
  - intros [a [w [b [-> Hw]]]].
    exists (toLowerCase a), (toLowerCase b).
    unfold toLowerCase in *. rewrite !smap_app. rewrite Hw. reflexivity.
Qed.

Lemma test_litis (ps : list string) s :
  ps <> [] ->
  test (alts (map liti ps)) s =
  existsb (fun p => includes (toLowerCase s) (toLowerCase p)) ps.
Proof.
  intros Hne.
  apply eq_true_iff_eq. rewrite test_true, existsb_exists.
  split.
  - intros [pre [rest [s1 [-> H]]]].
    revert H. generalize (String.length (pre ++ rest)). intros total H.
    induction ps as [|p ps IH]; [congruence|].
    destruct ps as [|p' ps].
    + cbn in H. apply Matches_liti_inv in H. destruct H as [w [-> Hw]].
      exists p. split; [left; reflexivity|]. apply includes_lower. eauto.
    + change (alts (map liti (p :: p' :: ps)))
        with (Alt (liti p) (alts (map liti (p' :: ps)))) in H.
      apply Matches_alt_inv in H. destruct H as [H|H].
      * apply Matches_liti_inv in H. destruct H as [w [-> Hw]].
        exists p. split; [left; reflexivity|]. apply includes_lower. eauto.
      * destruct IH as [x [Hin Hx]]; [discriminate|exact H|].
        exists x. split; [right; exact Hin|exact Hx].
  - intros [p [Hin Hp]]. apply includes_lower in Hp.
    destruct Hp as [a [w [b [-> Hw]]]].
    apply MatchesIn_intro with (s1 := b).
    generalize (String.length (a ++ w ++ b)). intros total.
    clear Hne. induction ps as [|q ps IH]; [destruct Hin|].
    destruct ps as [|q' ps].
    + destruct Hin as [->|[]]. cbn. apply Matches_liti. exact Hw.
    + change (alts (map liti (q :: q' :: ps)))
        with (Alt (liti q) (alts (map liti (q' :: ps)))).
      destruct Hin as [->|Hin].
      * apply MAltL. apply Matches_liti. exact Hw.
      * apply MAltR. apply IH. exact Hin.
Qed.

(** Capturing parentheses do not change what matches. *)
Lemma test_group i r s : test (Group i r) s = test r s.
Proof.
  apply eq_true_iff_eq. rewrite !test_true. unfold MatchesIn.
  split; intros [pre [rest [s1 [E H]]]]; exists pre, rest, s1; split; auto.
  - apply Matches_group_inv in H. exact H.
  - constructor. exact H.
Qed.

End MatchFacts.

(** ** The report of the scan *)

Module ReportFacts.
Import JS Regex Spec StringFacts RegexFacts ScanFacts MatchFacts.

Lemma detect_threat q threat pattern :
  In (pattern, threat) Server.suspiciousPatterns ->
  (forall p, In (p, threat) Server.suspiciousPatterns -> p = pattern) ->
  In threat (Server.detectPromptInjection q) <-> test pattern q = true.
Proof.
  intros Hin Huniq. unfold Server.detectPromptInjection.
  rewrite detect_In. split.
  - intros [[]|[p [Hp Ht]]]. rewrite <- (Huniq p Hp). exact Ht.
  - intros Ht. right. exists pattern. split; assumption.
Qed.

Ltac only_entry :=
  let p := fresh "p" in let H := fresh "H" in
  intros p H; cbn [In Server.suspiciousPatterns] in H;
  repeat (destruct H as [H|H]; [try discriminate H; injection H as <-; reflexivity|]);
  destruct H.

Lemma detect_filter (table : list (regex * string)) q : forall acc,
  fold_left
    (fun (threats : list string) '(pattern, t) =>
       if test pattern q then (threats ++ [t])%list else threats)
    table acc =
  (acc ++ map snd (filter (fun pt => test (fst pt) q) table))%list.
Proof.
  induction table as [|[p t] table IH]; intros acc; cbn [fold_left filter].
  - cbn. rewrite List.app_nil_r. reflexivity.
  - rewrite IH. cbn [fst]. destruct (test p q); cbn [map snd].
    + rewrite <- List.app_assoc. reflexivity.
    + reflexivity.
Qed.

Lemma subsequence_weaken : forall l : list string,
  (forall x u, subsequence (x :: u) l = true -> subsequence u l = true) /\
  (forall u y, subsequence u l = true -> subsequence u (y :: l) = true).
Proof.
  induction l as [|y0 l [IH1 IH2]].
  - split; [discriminate|]. intros [|x u] y H; [reflexivity|discriminate].
  - assert (H1 : forall x u, subsequence (x :: u) (y0 :: l) = true ->
                             subsequence u (y0 :: l) = true).
    { intros x u H. cbn [subsequence] in H. destruct (String.eqb x y0).
      - apply IH2. exact H.
      - apply IH2. apply IH1 with x. exact H. }
    split; [exact H1|].
    intros [|x u] y H; [reflexivity|].
    change ((if String.eqb x y then subsequence u (y0 :: l)
             else subsequence (x :: u) (y0 :: l)) = true).
    destruct (String.eqb x y); [apply H1 with x|]; exact H.
Qed.

Lemma subsequence_filter (f : regex * string -> bool) :
  forall table : list (regex * string),
  subsequence (map snd (filter f table)) (map snd table) = true.
Proof.
  induction table as [|[p t] table IH]; [reflexivity|].
  cbn [filter]. destruct (f (p, t)); cbn [map snd].
  - cbn [subsequence]. rewrite String.eqb_refl. exact IH.
  - apply subsequence_weaken. exact IH.
Qed.

Lemma NoDup_filter_map (f : regex * string -> bool) :
  forall table : list (regex * string),
  NoDup (map snd table) -> NoDup (map snd (filter f table)).
Proof.
  induction table as [|[p t] table IH]; cbn [filter map snd]; intros H.
  - constructor.
  - inversion H as [|? ? Hn Hd]; subst.
    destruct (f (p, t)); cbn [map snd]; [constructor|]; auto.
    intros Hin. apply Hn. apply in_map_iff in Hin.
    destruct Hin as [[p' t'] [E Hin]]. cbn in E. subst t'.
    apply filter_In in Hin. destruct Hin as [Hin _].
    apply in_map_iff. exists (p', t). split; [reflexivity|exact Hin].
Qed.

End ReportFacts.

(** ** The search for a match *)

Module SearchFacts.
Import JS Regex Spec StringFacts RegexFacts MatchFacts.

(** The search stops at the first place where the expression matches. *)
Lemma execFrom_skip total r : forall pre rest pos,
  (forall pre1 pre2 s1, pre = pre1 ++ pre2 -> pre2 <> "" ->
     ~ Matches total r (pre2 ++ rest) s1) ->
  execFrom total r pos (pre ++ rest) =
  execFrom total r (pos + String.length pre) rest.
Proof.
  induction pre as [|a pre IH]; intros rest pos Hno.
  - cbn. rewrite Nat.add_0_r. reflexivity.
  - cbn [append execFrom String.length].
    destruct (run total r (String a (pre ++ rest)) [] _) as [[s1 c1]|] eqn:E.
    + apply run_sound in E. destruct E as [s2 [c2 [M _]]].
      exfalso. apply (Hno "" (String a pre) s2); [reflexivity|discriminate|exact M].
    + rewrite IH.
      * f_equal. lia.
      * intros pre1 pre2 s1 E1 Hne. apply (Hno (String a pre1) pre2 s1); [|exact Hne].
        rewrite E1. reflexivity.
Qed.

Lemma execFrom_here total r rest s1 pos :
  Matches total r rest s1 ->
  exists s2 c,
    Matches total r rest s2 /\
    execFrom total r pos rest =
    Some {| index := pos;
            matched := take (String.length rest - String.length s2) rest;
            caps := c |}.
Proof.
  intros M.
  assert (H : run total r rest [] (fun s' c => Some (s', c)) <> None).
  { eapply run_complete; [exact M | discriminate]. }
  destruct (run total r rest [] (fun s' c => Some (s', c))) as [[s2 c2]|] eqn:E;
    [clear H|congruence].
  exists s2, c2. split.
  - apply run_sound in E. destruct E as [s3 [c3 [M3 E3]]].
    injection E3 as <- <-. exact M3.
  - destruct rest; cbn [execFrom]; rewrite E; reflexivity.
Qed.

(** The matches of a class, with the [g] flag, are the code units of the
    class. *)
Lemma countOf_app p a b : countOf p (a ++ b) = countOf p a + countOf p b.
Proof. induction a as [|c a IH]; cbn; [reflexivity|]. rewrite IH. lia. Qed.

Lemma first_of_class p : forall s,
  countOf p s = 0 \/
  exists pre a rest, s = pre ++ String a rest /\ countOf p pre = 0 /\ p a = true.
Proof.
  induction s as [|c s IH]; [left; reflexivity|].
  destruct (p c) eqn:Hc.
  - right. exists "", c, s. auto.
  - destruct IH as [IH|[pre [a [rest [-> [H0 Ha]]]]]].
    + left. cbn. rewrite Hc. exact IH.
    + right. exists (String c pre), a, rest. cbn. rewrite Hc. auto.
Qed.

Lemma no_class_match total p : forall pre2 rest s1,
  countOf p (pre2 ++ rest) = 0 -> ~ Matches total (Chr p) (pre2 ++ rest) s1.
Proof.
  intros pre2 rest s1 H0 M. apply Matches_chr_inv in M.
  destruct M as [a [E Ha]]. rewrite E in H0. cbn in H0. rewrite Ha in H0.
  discriminate.
Qed.

Lemma execFrom_class_none total p : forall s pos,
  countOf p s = 0 -> execFrom total (Chr p) pos s = None.
Proof.
  intros s pos H0.
  destruct (execFrom total (Chr p) pos s) eqn:E; [|reflexivity].
  apply execFrom_sound in E. destruct E as [pre [rest [s1 [-> M]]]].
  rewrite countOf_app in H0.
  exfalso. apply (no_class_match total p "" rest s1); [cbn; lia|exact M].
Qed.

Lemma execFrom_class total p pre a rest pos :
  countOf p pre = 0 -> p a = true ->
  execFrom total (Chr p) pos (pre ++ String a rest) =
  Some {| index := pos + String.length pre; matched := String a ""; caps := [] |}.
Proof.
  intros H0 Ha.
  rewrite execFrom_skip.
  - cbn [execFrom run]. rewrite Ha.
    replace (String.length (String a rest) - String.length rest) with 1
      by (cbn [String.length]; lia).
    reflexivity.
  - intros pre1 pre2 s1 E Hne M. apply Matches_chr_inv in M.
    destruct M as [c [Ec Hc]]. destruct pre2 as [|c' pre2]; [congruence|].
    injection Ec as -> _. subst pre. rewrite countOf_app in H0. cbn in H0.
    rewrite Hc in H0. lia.
Qed.

Lemma matchAll_class_from total p : forall fuel s,
  String.length s < fuel ->
  List.length (matchAllFrom total (Chr p) fuel s) = countOf p s.
Proof.
  induction fuel as [|fuel IH]; intros s Hf; [lia|].
  cbn [matchAllFrom].
  destruct (first_of_class p s) as [H0|[pre [a [rest [-> [H0 Ha]]]]]].
  - rewrite execFrom_class_none by exact H0. rewrite H0. reflexivity.
  - rewrite execFrom_class by assumption.
    cbn [index matched String.length Nat.max Nat.add].
    rewrite length_app in Hf. cbn [String.length] in Hf.
    replace (Nat.ltb (String.length (pre ++ String a rest))
                     (String.length pre + 1)) with false.
    2:{ symmetry. apply Nat.ltb_ge. rewrite length_app. cbn. lia. }
    replace (drop (String.length pre + 1) (pre ++ String a rest)) with rest.
    2:{ replace (String.length pre + 1)
          with (String.length (pre ++ String a "")) by (rewrite length_app; reflexivity).
        replace (pre ++ String a rest) with ((pre ++ String a "") ++ rest)
          by (rewrite app_assoc; reflexivity).
        rewrite drop_app_length. reflexivity. }
    cbn [List.length]. rewrite IH by lia.
    rewrite countOf_app. cbn. rewrite Ha, H0. reflexivity.
Qed.

Lemma matchAll_class p s :
  List.length (matchAll (Chr p) s) = countOf p s.
Proof. apply matchAll_class_from. lia. Qed.

End SearchFacts.

(** ** The checks of the validator *)

Module ValidatorFacts.
Import JS Regex Spec StringFacts RegexFacts ScanFacts MatchFacts SearchFacts
       ConditionFacts.
Import Client.

Lemma odd_mod2 n : negb (Nat.eqb (Nat.modulo n 2) 0) = Nat.odd n.
Proof.
  pose proof (Nat.mod_upper_bound n 2 ltac:(lia)) as Hb.
  pose proof (Nat.div_mod_eq n 2) as Hd.
  destruct (Nat.odd n) eqn:E.
  - apply Nat.odd_spec in E. destruct E as [k Hk].
    apply negb_true_iff, Nat.eqb_neq. lia.
  - assert (Ev : Nat.even n = true).
    { rewrite <- Nat.negb_odd, E. reflexivity. }
    apply Nat.even_spec in Ev. destruct Ev as [k Hk].
    apply negb_false_iff, Nat.eqb_eq. lia.
Qed.

Lemma validate_backticks sql :
  In "Unbalanced backticks" (Server.validateSQLGrammar sql) <->
  Nat.odd (countOf (Ascii.eqb "`") sql) = true.
Proof.
  unfold Server.validateSQLGrammar.
  change (chr "`") with (Chr (Ascii.eqb "`")).
  rewrite matchAll_class, odd_mod2.
  generalize (test Server.fromClause sql) (test Server.selectStart sql)
             (test Server.dangerous sql) (Nat.odd (countOf (Ascii.eqb "`") sql)).
  intros b1 b3 b4 b2.
  destruct b1, b2, b3, b4; simpl; intuition (try discriminate; try congruence).
Qed.

Lemma validate_from sql :
  In "Missing FROM clause" (Server.validateSQLGrammar sql) <->
  test Server.fromClause sql = false.
Proof.
  unfold Server.validateSQLGrammar.
  generalize (test Server.selectStart sql) (test Server.dangerous sql)
             (negb (Nat.eqb (Nat.modulo (List.length (matchAll (chr "`") sql)) 2) 0)).
  intros b3 b4 b2.
  destruct (test Server.fromClause sql), b2, b3, b4; simpl;
    intuition (try discriminate; try congruence).
Qed.

Lemma validate_nil sql :
  Server.validateSQLGrammar sql = [] <->
  test Server.fromClause sql = true /\
  Nat.odd (countOf (Ascii.eqb "`") sql) = false /\
  test Server.selectStart sql = true /\
  test Server.dangerous sql = false.
Proof.
  unfold Server.validateSQLGrammar.
  change (chr "`") with (Chr (Ascii.eqb "`")).
  rewrite matchAll_class, odd_mod2.
  generalize (test Server.fromClause sql) (test Server.selectStart sql)
             (test Server.dangerous sql) (Nat.odd (countOf (Ascii.eqb "`") sql)).
  intros b1 b3 b4 b2.
  destruct b1, b2, b3, b4; simpl; intuition (try discriminate; try congruence).
Qed.

(** The FROM expression of the interpreter is the one of the validator with
    parentheses around the name. *)
Lemma Matches_from total s s1 :
  Matches total fromRe s s1 <-> Matches total Server.fromClause s s1.
Proof.
  unfold fromRe, Server.fromClause. cbn [seqs].
  split; intros H.
  - apply Matches_seq_inv in H. destruct H as [a [H1 H]].
    apply Matches_seq_inv in H. destruct H as [b [H2 H]].
    apply Matches_seq_inv in H. destruct H as [c [H3 H]].
    apply Matches_seq_inv in H. destruct H as [d [H4 H5]].
    apply Matches_group_inv in H4.
    eapply MSeq; [exact H1|]. eapply MSeq; [exact H2|].
    eapply MSeq; [exact H3|]. eapply MSeq; [exact H4|exact H5].
  - apply Matches_seq_inv in H. destruct H as [a [H1 H]].
    apply Matches_seq_inv in H. destruct H as [b [H2 H]].
    apply Matches_seq_inv in H. destruct H as [c [H3 H]].
    apply Matches_seq_inv in H. destruct H as [d [H4 H5]].
    eapply MSeq; [exact H1|]. eapply MSeq; [exact H2|].
    eapply MSeq; [exact H3|]. eapply MSeq; [apply MGroup; exact H4|exact H5].
Qed.

Lemma test_from sql : test fromRe sql = test Server.fromClause sql.
Proof.
  apply eq_true_iff_eq. rewrite !test_true. unfold MatchesIn.
  split; intros [pre [rest [s1 [E H]]]]; exists pre, rest, s1; split; auto;
    apply Matches_from; exact H.
Qed.

Lemma executeSQL_from `{ArraySort} (data : list row) sql :
  executeSQL data sql =
  if test fromRe sql then
    Ok (if hasAggregate sql
        then calculateAggregation (handleOrderBy (whereRows data sql) sql) sql
        else handleSelect (handleLimit (handleOrderBy (whereRows data sql) sql) sql) sql)
  else Throw "Invalid SQL: Missing FROM clause".
Proof.
  unfold executeSQL, test.
  destruct (exec fromRe sql); [|reflexivity].
  rewrite handleWhere_total. cbn [bind].
  destruct (hasAggregate sql); reflexivity.
Qed.

End ValidatorFacts.

(** ** The steps of the interpreter *)

Module InterpreterFacts.
Import JS Regex Spec StringFacts RegexFacts MatchFacts SearchFacts
       ConditionFacts ValidatorFacts.
Import Client.

(** *** The steps keep or shorten the rows *)

Lemma whereRows_incl data sql r : In r (whereRows data sql) -> In r data.
Proof.
  unfold whereRows.
  destruct (includes (toLowerCase sql) "where"); [|auto].
  destruct (exec whereRe sql); [|auto].
  intros H. apply filter_In in H. tauto.
Qed.

Lemma whereRows_length data sql :
  List.length (whereRows data sql) <= List.length data.
Proof.
  unfold whereRows.
  destruct (includes (toLowerCase sql) "where"); [|auto].
  destruct (exec whereRe sql); [|auto].
  apply filter_length_le.
Qed.

Lemma handleOrderBy_perm `{ArraySort} results sql :
  Permutation results (handleOrderBy results sql).
Proof.
  unfold handleOrderBy.
  destruct (includes (toLowerCase sql) "order by"); [|apply Permutation_refl].
  destruct (exec orderRe sql); [|apply Permutation_refl].
  apply sortWith_perm.
Qed.

Lemma slice0_length {A : Type} n (xs : list A) :
  List.length (slice0 n xs) = Nat.min (Z.to_nat n) (List.length xs).
Proof. unfold slice0. rewrite length_firstn. lia. Qed.

Lemma slice0_incl {A : Type} n (xs : list A) x : In x (slice0 n xs) -> In x xs.
Proof.
  unfold slice0. intros H.
  rewrite <- (firstn_skipn (Z.to_nat (Z.min n (Z.of_nat (List.length xs)))) xs).
  apply in_or_app. left. exact H.
Qed.

Lemma handleLimit_incl results sql r :
  In r (handleLimit results sql) -> In r results.
Proof.
  unfold handleLimit. destruct (exec limitRe sql); [apply slice0_incl|auto].
Qed.

Lemma handleSelect_length results sql :
  List.length (handleSelect results sql) = List.length results.
Proof.
  unfold handleSelect. destruct (exec selectRe sql); [|reflexivity].
  destruct (negb _); [apply length_map|reflexivity].
Qed.

Lemma handleSelect_selection results sql :
  handleSelect results sql = map (selection sql) results.
Proof.
  unfold handleSelect, selection, selectedColumns.
  destruct (exec selectRe sql);
    [destruct (negb _); [reflexivity|]|]; symmetry; apply map_id.
Qed.

(** *** Writing a cell *)

Lemma update_In k v r k0 v0 :
  In (k0, v0) (update k v r) -> (k0 = k /\ v0 = v) \/ In (k0, v0) r.
Proof.
  induction r as [|[k' v'] r IH]; cbn [update]; [auto|].
  destruct (String.eqb k' k) eqn:E.
  - apply String.eqb_eq in E. subst k'. intros [H|H].
    + injection H as <- <-. auto.
    + right. right. exact H.
  - intros [H|H]; [right; left; exact H|].
    destruct (IH H) as [?|?]; [auto|right; right; assumption].
Qed.

Lemma insertKey_In k v r k0 v0 :
  In (k0, v0) (insertKey k v r) <-> (k0, v0) = (k, v) \/ In (k0, v0) r.
Proof.
  induction r as [|[k' v'] r IH]; cbn [insertKey].
  - cbn. intuition congruence.
  - destruct (arrayIndex k) as [n|]; [destruct (arrayIndex k') as [n'|];
      [destruct (n <? n')%Z|]|]; cbn [In] in *; rewrite ?IH;
      intuition congruence.
Qed.

Lemma set_In r k v k0 v0 :
  In (k0, v0) (set r k v) -> (k0 = k /\ v0 = v) \/ In (k0, v0) r.
Proof.
  unfold set. destruct (hasOwnProperty r k).
  - apply update_In.
  - intros H. apply insertKey_In in H. destruct H as [H|H]; [|auto].
    injection H as -> ->. auto.
Qed.

Lemma hasOwnProperty_In r k : hasOwnProperty r k = true <-> In k (keys r).
Proof.
  unfold hasOwnProperty. rewrite existsb_exists. split.
  - intros [x [Hx E]]. apply String.eqb_eq in E. subst. exact Hx.
  - intros H. exists k. split; [exact H|apply String.eqb_refl].
Qed.

Lemma update_keys k v r : keys (update k v r) = keys r.
Proof.
  unfold keys. induction r as [|[k' v'] r IH]; [reflexivity|]. cbn [update].
  destruct (String.eqb k' k); cbn [map fst]; [reflexivity|].
  rewrite IH. reflexivity.
Qed.

Lemma set_has r k v k0 :
  hasOwnProperty (set r k v) k0 = true <->
  k0 = k \/ hasOwnProperty r k0 = true.
Proof.
  rewrite !hasOwnProperty_In. unfold set.
  destruct (hasOwnProperty r k) eqn:E.
  - rewrite update_keys. apply hasOwnProperty_In in E.
    split; [auto|]. intros [->|H]; assumption.
  - unfold keys. rewrite !in_map_iff. split.
    + intros [[k1 v1] [E1 H]]. cbn in E1. subst k1.
      apply insertKey_In in H. destruct H as [H|H].
      * injection H as -> _. auto.
      * right. exists (k0, v1). auto.
    + intros [->|[[k1 v1] [E1 H]]].
      * exists (k, v). split; [reflexivity|]. apply insertKey_In. auto.
      * cbn in E1. subst k1. exists (k0, v1). split; [reflexivity|].
        apply insertKey_In. auto.
Qed.

Lemma actualColumn_own r original :
  hasOwnProperty r (actualColumn r original) = true ->
  In (actualColumn r original) (keys r) /\
  toLowerCase (actualColumn r original) = toLowerCase original.
Proof.
  intros H. split; [apply hasOwnProperty_In; exact H|].
  unfold actualColumn, find in *.
  destruct (List.find _ (keys r)) as [k|] eqn:E; [|reflexivity].
  destruct k as [|c k]; [reflexivity|]. cbn [orStr].
  apply find_some in E. destruct E as [_ E]. apply String.eqb_eq in E. exact E.
Qed.

Lemma assign_In o k v k0 v0 :
  In (k0, v0) (fst (assign o k v)) -> (k0 = k /\ v0 = v) \/ In (k0, v0) (fst o).
Proof.
  unfold assign. destruct (String.eqb k "__proto__" && snd o); cbn [fst].
  - auto.
  - apply set_In.
Qed.

Lemma assign_keeps o k v k0 :
  hasOwnProperty (fst o) k0 = true ->
  hasOwnProperty (fst (assign o k v)) k0 = true.
Proof.
  unfold assign. destruct (String.eqb k "__proto__" && snd o); cbn [fst].
  - auto.
  - intros H. apply set_has. auto.
Qed.

Lemma assign_makes o k v :
  k <> "__proto__" -> hasOwnProperty (fst (assign o k v)) k = true.
Proof.
  intros Hk. unfold assign. apply String.eqb_neq in Hk. rewrite Hk.
  cbn [andb fst]. apply set_has. auto.
Qed.

Lemma project_cells columns r : forall acc k v,
  In (k, v)
     (fst (fold_left
             (fun newRow '(original, alias) =>
                let actual := actualColumn r original in
                if hasOwnProperty r actual
                then assign newRow (orStr alias actual) (get r actual)
                else newRow)
             columns acc)) ->
  In (k, v) (fst acc) \/
  exists original alias,
    In (original, alias) columns /\
    hasOwnProperty r (actualColumn r original) = true /\
    k = orStr alias (actualColumn r original) /\
    v = get r (actualColumn r original).
Proof.
  induction columns as [|[original alias] columns IH]; intros acc k v;
    cbn [fold_left]; [auto|].
  intros H. apply IH in H. destruct H as [H|[o [a [Hin [Ho [Hk Hv]]]]]].
  - cbv zeta in H.
    destruct (hasOwnProperty r (actualColumn r original)) eqn:E; [|auto].
    apply assign_In in H. destruct H as [[-> ->]|H]; [|auto].
    right. exists original, alias. cbn [In]. auto.
  - right. exists o, a. cbn [In]. auto.
Qed.

Lemma project_keeps columns r : forall acc k,
  hasOwnProperty (fst acc) k = true ->
  hasOwnProperty
    (fst (fold_left
            (fun newRow '(original, alias) =>
               let actual := actualColumn r original in
               if hasOwnProperty r actual
               then assign newRow (orStr alias actual) (get r actual)
               else newRow)
            columns acc)) k = true.
Proof.
  induction columns as [|[original alias] columns IH]; intros acc k H;
    cbn [fold_left]; [exact H|].
  apply IH. cbv zeta.
  destruct (hasOwnProperty r (actualColumn r original)); [|exact H].
  apply assign_keeps. exact H.
Qed.

Lemma project_makes columns r original alias : forall acc,
  In (original, alias) columns ->
  hasOwnProperty r (actualColumn r original) = true ->
  orStr alias (actualColumn r original) <> "__proto__" ->
  hasOwnProperty
    (fst (fold_left
            (fun newRow '(original, alias) =>
               let actual := actualColumn r original in
               if hasOwnProperty r actual
               then assign newRow (orStr alias actual) (get r actual)
               else newRow)
            columns acc))
    (orStr alias (actualColumn r original)) = true.
Proof.
  induction columns as [|[o a] columns IH]; intros acc Hin Ho Hk; [destruct Hin|].
  cbn [fold_left]. destruct Hin as [Hin|Hin].
  - injection Hin as -> ->. apply project_keeps. cbv zeta. rewrite Ho.
    apply assign_makes. exact Hk.
  - apply IH; assumption.
Qed.

Lemma In_keys (r : row) k :
  In k (keys r) <-> exists v, In (k, v) r.
Proof.
  unfold keys. rewrite in_map_iff. split.
  - intros [[k' v] [E H]]. cbn in E. subst k'. eauto.
  - intros [v H]. exists (k, v). auto.
Qed.

(** *** The aggregate expressions and the aggregate tokens *)

Lemma aggregate_token total f s s1 rest :
  Matches total (Seq (liti f) (Seq (chri "(") rest)) s s1 ->
  exists w t, s = w ++ "(" ++ t /\ toLowerCase w = toLowerCase f.
Proof.
  intros H. apply Matches_seq_inv in H. destruct H as [a [H1 H]].
  apply Matches_seq_inv in H. destruct H as [b [H2 _]].
  apply Matches_liti_inv in H1. destruct H1 as [w [-> Hw]].
  apply Matches_chr_inv in H2. destruct H2 as [c [-> Hc]].
  apply Ascii.eqb_eq in Hc.
  assert (c = "("%char).
  { revert Hc. clear.
    destruct c as [[] [] [] [] [] [] [] []]; vm_compute; congruence. }
  subst c. exists w, b. auto.
Qed.

Lemma token_included sql f rest :
  test (Seq (liti f) (Seq (chri "(") rest)) sql = true ->
  includes (toLowerCase sql) (toLowerCase f ++ "(") = true.
Proof.
  intros H. apply test_true in H. destruct H as [pre [r [s1 [-> M]]]].
  apply aggregate_token in M. destruct M as [w [t [-> Hw]]].
  apply includes_app. exists (toLowerCase pre), (toLowerCase t).
  unfold toLowerCase in *. rewrite !smap_app, Hw, app_assoc. reflexivity.
Qed.

Lemma matched_hasAggregate sql :
  aggregateMatched sql = true -> hasAggregate sql = true.
Proof.
  unfold aggregateMatched, hasAggregate, isSome. cbv zeta.
  intros H. rewrite !orb_true_iff in H. rewrite !orb_true_iff.
  assert (T : forall r, match exec r sql with Some _ => true | None => false end
                        = test r sql) by reflexivity.
  rewrite !T in H.
  destruct H as [[[[H|H]|H]|H]|H];
    apply token_included in H; cbn in H; tauto.
Qed.

End InterpreterFacts.

(** ** The order of the numbers *)

Module OrderFacts.
Import JS Regex Spec Client.

Ltac compare_cases :=
  repeat match goal with
  | |- context [(?a ?= ?b)%Z] => destruct (Z.compare_spec a b)
  | |- context [Pos.compare_cont Eq ?a ?b] =>
      change (Pos.compare_cont Eq a b) with (Pos.compare a b);
      destruct (Pos.compare_spec a b)
  end.

Lemma number_le_refl x : isNaN x = false -> le x x = true.
Proof.
  unfold le, SFleb, SFcompare.
  destruct x as [s|s| |s m e]; try discriminate; intros _;
    try (destruct s; reflexivity).
  rewrite Z.compare_refl.
  change (Pos.compare_cont Eq m m) with (Pos.compare m m).
  rewrite Pos.compare_refl. destruct s; reflexivity.
Qed.

Lemma number_lt_le x y : lt x y = true -> le x y = true.
Proof.
  unfold lt, le, SFltb, SFleb.
  destruct (SFcompare x y) as [[]|]; congruence.
Qed.

Lemma number_not_lt_le x y :
  isNaN x = false -> isNaN y = false -> lt x y = false -> le y x = true.
Proof.
  unfold lt, le, SFltb, SFleb, SFcompare.
  destruct x as [sx|sx| |sx mx ex], y as [sy|sy| |sy my ey];
    try discriminate; intros _ _;
    try (destruct sx); try (destruct sy); try reflexivity; try discriminate;
    rewrite (Z.compare_antisym ey ex);
    change (Pos.compare_cont Eq my mx) with (Pos.compare my mx);
    change (Pos.compare_cont Eq mx my) with (Pos.compare mx my);
    rewrite (Pos.compare_antisym my mx);
    destruct (ey ?= ex)%Z; cbn; try reflexivity; try discriminate;
    destruct (my ?= mx)%positive; cbn; try reflexivity; discriminate.
Qed.

Lemma number_le_trans x y z : le x y = true -> le y z = true -> le x z = true.
Proof.
  unfold le, SFleb, SFcompare.
  destruct x as [sx|sx| |sx mx ex], y as [sy|sy| |sy my ey],
           z as [sz|sz| |sz mz ez];
    try discriminate;
    try (destruct sx); try (destruct sy); try (destruct sz);
    try reflexivity; try discriminate;
    try (intros _ _; reflexivity);
    compare_cases; cbn; try reflexivity; try discriminate; try lia;
    try (intros; exfalso; lia).
Qed.

Lemma le_neg_infinity x :
  le x (S754_infinity true) = true -> x = S754_infinity true.
Proof.
  unfold le, SFleb, SFcompare.
  destruct x as [s|s| |s m e]; try discriminate; destruct s; try discriminate;
    reflexivity.
Qed.

Lemma le_pos_infinity x :
  le (S754_infinity false) x = true -> x = S754_infinity false.
Proof.
  unfold le, SFleb, SFcompare.
  destruct x as [s|s| |s m e]; try discriminate; destruct s; try discriminate;
    reflexivity.
Qed.

Lemma max2_bound a b :
  isNaN a = false -> isNaN b = false ->
  (max2 a b = a \/ max2 a b = b) /\
  le a (max2 a b) = true /\ le b (max2 a b) = true.
Proof.
  intros Ha Hb. unfold max2. rewrite Ha, Hb. cbn [orb].
  destruct (lt a b) eqn:E1.
  - split; [auto|]. split; [apply number_lt_le; exact E1|apply number_le_refl; exact Hb].
  - destruct (lt b a) eqn:E2.
    + split; [auto|]. split; [apply number_le_refl; exact Ha|apply number_lt_le; exact E2].
    + pose proof (number_not_lt_le a b Ha Hb E1) as L1.
      pose proof (number_not_lt_le b a Hb Ha E2) as L2.
      destruct a as [[]|?| |? ? ?]; try discriminate;
        (split; [auto|]); split; auto using number_le_refl.
Qed.

Lemma min2_bound a b :
  isNaN a = false -> isNaN b = false ->
  (min2 a b = a \/ min2 a b = b) /\
  le (min2 a b) a = true /\ le (min2 a b) b = true.
Proof.
  intros Ha Hb. unfold min2. rewrite Ha, Hb. cbn [orb].
  destruct (lt a b) eqn:E1.
  - split; [auto|]. split; [apply number_le_refl; exact Ha|apply number_lt_le; exact E1].
  - destruct (lt b a) eqn:E2.
    + split; [auto|]. split; [apply number_lt_le; exact E2|apply number_le_refl; exact Hb].
    + pose proof (number_not_lt_le a b Ha Hb E1) as L1.
      pose proof (number_not_lt_le b a Hb Ha E2) as L2.
      destruct a as [[]|?| |? ? ?]; try discriminate;
        (split; [auto|]); split; auto using number_le_refl.
Qed.

Lemma fold_max l : forall acc,
  isNaN acc = false -> Forall (fun x => isNaN x = false) l ->
  isNaN (fold_left max2 l acc) = false /\
  le acc (fold_left max2 l acc) = true /\
  Forall (fun x => le x (fold_left max2 l acc) = true) l /\
  (fold_left max2 l acc = acc \/ In (fold_left max2 l acc) l).
Proof.
  induction l as [|x l IH]; intros acc Ha Hl; cbn [fold_left].
  - repeat split; auto using number_le_refl.
  - inversion Hl as [|? ? Hx Hl']; subst.
    destruct (max2_bound acc x Ha Hx) as [Hin [L1 L2]].
    assert (Hm : isNaN (max2 acc x) = false) by (destruct Hin as [->| ->]; assumption).
    destruct (IH (max2 acc x) Hm Hl') as [Hr [Lr [Hall Hor]]].
    repeat split.
    + exact Hr.
    + eapply number_le_trans; eassumption.
    + constructor; [eapply number_le_trans; eassumption|exact Hall].
    + destruct Hor as [E|Hor]; [|right; right; exact Hor].
      rewrite E. destruct Hin as [->| ->]; [left; reflexivity|right; left; reflexivity].
Qed.

Lemma fold_min l : forall acc,
  isNaN acc = false -> Forall (fun x => isNaN x = false) l ->
  isNaN (fold_left min2 l acc) = false /\
  le (fold_left min2 l acc) acc = true /\
  Forall (fun x => le (fold_left min2 l acc) x = true) l /\
  (fold_left min2 l acc = acc \/ In (fold_left min2 l acc) l).
Proof.
  induction l as [|x l IH]; intros acc Ha Hl; cbn [fold_left].
  - repeat split; auto using number_le_refl.
  - inversion Hl as [|? ? Hx Hl']; subst.
    destruct (min2_bound acc x Ha Hx) as [Hin [L1 L2]].
    assert (Hm : isNaN (min2 acc x) = false) by (destruct Hin as [->| ->]; assumption).
    destruct (IH (min2 acc x) Hm Hl') as [Hr [Lr [Hall Hor]]].
    repeat split.
    + exact Hr.
    + eapply number_le_trans; eassumption.
    + constructor; [eapply number_le_trans; eassumption|exact Hall].
    + destruct Hor as [E|Hor]; [|right; right; exact Hor].
      rewrite E. destruct Hin as [->| ->]; [left; reflexivity|right; left; reflexivity].
Qed.

Lemma Math_max_bound l :
  l <> [] -> Forall (fun x => isNaN x = false) l ->
  In (Math_max l) l /\ forall x, In x l -> le x (Math_max l) = true.
Proof.
  intros Hne Hl. unfold Math_max.
  destruct (fold_max l (S754_infinity true) eq_refl Hl) as [_ [_ [Hall Hor]]].
  split; [|apply Forall_forall; exact Hall].
  destruct Hor as [E|Hin]; [|exact Hin].
  destruct l as [|x l]; [congruence|].
  inversion Hall as [|? ? Hx _]; subst. rewrite E in Hx |- *.
  apply le_neg_infinity in Hx. left. exact Hx.
Qed.

Lemma Math_min_bound l :
  l <> [] -> Forall (fun x => isNaN x = false) l ->
  In (Math_min l) l /\ forall x, In x l -> le (Math_min l) x = true.
Proof.
  intros Hne Hl. unfold Math_min.
  destruct (fold_min l (S754_infinity false) eq_refl Hl) as [_ [_ [Hall Hor]]].
  split; [|apply Forall_forall; exact Hall].
  destruct Hor as [E|Hin]; [|exact Hin].
  destruct l as [|x l]; [congruence|].
  inversion Hall as [|? ? Hx _]; subst. rewrite E in Hx |- *.
  apply le_pos_infinity in Hx. left. exact Hx.
Qed.

Lemma numberOrZero_number r col : isNaN (numberOrZero r col) = false.
Proof.
  unfold numberOrZero. cbv zeta.
  destruct (toNumber (get r col)) as [s|s| |s m e]; reflexivity.
Qed.

Lemma numbers_not_NaN results col :
  Forall (fun x => isNaN x = false) (map (fun r => numberOrZero r col) results).
Proof.
  apply Forall_forall. intros x H. apply in_map_iff in H.
  destruct H as [r [<- _]]. apply numberOrZero_number.
Qed.

End OrderFacts.

(** ** The values of a [Set] *)

Module SetFacts.
Import JS Regex Spec Client OrderFacts.

Lemma eqb_refl_number x : isNaN x = false -> SFeqb x x = true.
Proof.
  intros H. pose proof (number_le_refl x H) as L. unfold le, SFleb, SFeqb in *.
  destruct x as [s|s| |s m e]; try discriminate; try (destruct s; reflexivity).
  unfold SFcompare. rewrite Z.compare_refl.
  change (Pos.compare_cont Eq m m) with (Pos.compare m m).
  rewrite Pos.compare_refl. destruct s; reflexivity.
Qed.

Lemma eqb_sym_number x y : SFeqb x y = SFeqb y x.
Proof.
  unfold SFeqb, SFcompare.
  destruct x as [sx|sx| |sx mx ex], y as [sy|sy| |sy my ey];
    try reflexivity;
    try (destruct sx); try (destruct sy); try reflexivity;
    rewrite (Z.compare_antisym ey ex);
    change (Pos.compare_cont Eq my mx) with (Pos.compare my mx);
    change (Pos.compare_cont Eq mx my) with (Pos.compare mx my);
    rewrite (Pos.compare_antisym my mx);
    destruct (ey ?= ex)%Z; cbn; try reflexivity;
    destruct (my ?= mx)%positive; reflexivity.
Qed.

Lemma sameValueZero_refl v : sameValueZero v v = true.
Proof.
  destruct v as [x|s|b| |]; cbn; try reflexivity.
  - destruct (isNaN x) eqn:E; [reflexivity|]. apply eqb_refl_number. exact E.
  - apply String.eqb_refl.
  - destruct b; reflexivity.
Qed.

Lemma sameValueZero_sym a b : sameValueZero a b = sameValueZero b a.
Proof.
  destruct a as [x|s|p| |], b as [y|t|q| |]; cbn; try reflexivity.
  - rewrite (andb_comm (isNaN x)), eqb_sym_number. reflexivity.
  - apply String.eqb_sym.
  - destruct p, q; reflexivity.
Qed.

Lemma sameValueZero_kept_r a v : sameValueZero a (kept v) = sameValueZero a v.
Proof.
  destruct v as [[[]|?| |? ? ?]|?|?| |]; reflexivity.
Qed.

Lemma sameValueZero_text s x : sameValueZero (VStr s) x = true -> x = VStr s.
Proof.
  destruct x; cbn; try discriminate. intros H. apply String.eqb_eq in H.
  congruence.
Qed.

Lemma setAdd_unfold seen v :
  setAdd seen v =
  if existsb (sameValueZero v) seen then seen else (seen ++ [kept v])%list.
Proof. reflexivity. Qed.

Lemma pairs_snoc (seen : list value) v :
  ForallOrdPairs different seen ->
  (forall s, In s seen -> different s v) ->
  ForallOrdPairs different (seen ++ [v]).
Proof.
  induction 1 as [|a l Ha Hl IH]; intros Hv; cbn [app].
  - constructor; constructor.
  - constructor.
    + apply Forall_app. split; [exact Ha|].
      constructor; [apply Hv; left; reflexivity|constructor].
    + apply IH. intros s Hs. apply Hv. right. exact Hs.
Qed.

Lemma pairs_firstn n : forall l : list value,
  ForallOrdPairs different l -> ForallOrdPairs different (firstn n l).
Proof.
  induction n as [|n IH]; intros l H; [constructor|].
  destruct H as [|a l Ha Hl]; cbn [firstn]; constructor.
  - apply Forall_forall. intros x Hx.
    rewrite Forall_forall in Ha. apply Ha.
    rewrite <- (firstn_skipn n l). apply in_or_app. left. exact Hx.
  - apply IH. exact Hl.
Qed.

Lemma distinct_from xs : forall seen,
  ForallOrdPairs different seen ->
  let out := fold_left setAdd xs seen in
  ForallOrdPairs different out /\
  (forall x, In x out ->
     In x seen \/ exists y, In y xs /\ x = kept y) /\
  (forall s, In s seen -> In s out) /\
  (forall y, In y xs -> exists x, In x out /\ sameValueZero y x = true).
Proof.
  induction xs as [|v xs IH]; intros seen Hseen; cbn [fold_left].
  - cbv zeta. repeat split; auto. intros y [].
  - rewrite setAdd_unfold. cbv zeta.
    destruct (existsb (sameValueZero v) seen) eqn:E.
    + destruct (IH seen Hseen) as [H1 [H2 [H3 H4]]].
      repeat split.
      * exact H1.
      * intros x Hx. destruct (H2 x Hx) as [?|[y [Hy ->]]]; [auto|].
        right. exists y. split; [right; exact Hy|reflexivity].
      * exact H3.
      * intros y [->|Hy]; [|apply H4; exact Hy].
        apply existsb_exists in E. destruct E as [s [Hs Es]].
        exists s. split; [apply H3; exact Hs|exact Es].
    + assert (Hnew : ForallOrdPairs different (seen ++ [kept v])).
      { apply pairs_snoc; [exact Hseen|].
        intros s Hs. unfold different.
        rewrite sameValueZero_kept_r, sameValueZero_sym.
        destruct (sameValueZero v s) eqn:Es; [|reflexivity].
        assert (existsb (sameValueZero v) seen = true)
          by (apply existsb_exists; eauto).
        congruence. }
      destruct (IH (seen ++ [kept v])%list Hnew) as [H1 [H2 [H3 H4]]].
      repeat split.
      * exact H1.
      * intros x Hx. destruct (H2 x Hx) as [Hs|[y [Hy ->]]].
        -- apply in_app_or in Hs. destruct Hs as [Hs|[<-|[]]]; [auto|].
           right. exists v. split; [left; reflexivity|reflexivity].
        -- right. exists y. split; [right; exact Hy|reflexivity].
      * intros s Hs. apply H3. apply in_or_app. left. exact Hs.
      * intros y [->|Hy]; [|apply H4; exact Hy].
        exists (kept y). split.
        -- apply H3. apply in_or_app. right. left. reflexivity.
        -- rewrite sameValueZero_kept_r. apply sameValueZero_refl.
Qed.

Lemma distinct_spec xs :
  ForallOrdPairs different (distinct xs) /\
  (forall x, In x (distinct xs) -> exists y, In y xs /\ x = kept y) /\
  (forall y, In y xs -> exists x, In x (distinct xs) /\ sameValueZero y x = true).
Proof.
  destruct (distinct_from xs [] (FOP_nil _)) as [H1 [H2 [_ H4]]].
  repeat split; [exact H1| |exact H4].
  intros x Hx. destruct (H2 x Hx) as [[]|H]. exact H.
Qed.

End SetFacts.

(** ** Trimming, and matches without anchors *)

Module TrimFacts.
Import JS Regex Spec StringFacts RegexFacts MatchFacts SearchFacts.

Lemma append_nil_r (s : string) : s ++ "" = s.
Proof. induction s as [|c s IH]; cbn; congruence. Qed.

Lemma trimEnd_app_nonspace c : forall a b,
  isSpace c = false -> trimEnd (a ++ String c b) = a ++ String c (trimEnd b).
Proof.
  intros a b Hc. induction a as [|x a IH]; cbn [append trimEnd].
  - rewrite Hc. destruct (trimEnd b); reflexivity.
  - rewrite IH. destruct a; reflexivity.
Qed.

(** What [trimEnd] takes away is white space. *)
Lemma trimEnd_split : forall s,
  exists ws, s = trimEnd s ++ ws /\ countOf (fun c => negb (isSpace c)) ws = 0.
Proof.
  induction s as [|c s [ws [E H0]]]; [exists ""; auto|].
  cbn [trimEnd].
  destruct (trimEnd s) as [|x t] eqn:Et.
  - destruct (isSpace c) eqn:Hc.
    + exists (String c ws). cbn in E. split; [cbn; congruence|].
      cbn. rewrite Hc. exact H0.
    + exists ws. split; [cbn in *; congruence|exact H0].
  - exists ws. split; [cbn in *; congruence|exact H0].
Qed.

Lemma trimStart_split : forall s,
  exists ws, s = ws ++ trimStart s /\ countOf (fun c => negb (isSpace c)) ws = 0.
Proof.
  induction s as [|c s [ws [E H0]]]; [exists ""; auto|].
  cbn [trimStart]. destruct (isSpace c) eqn:Hc.
  - exists (String c ws). split; [cbn; congruence|]. cbn. rewrite Hc. exact H0.
  - exists "". auto.
Qed.

(** Trimming a trimmed text changes nothing. *)
Lemma trimEnd_idem : forall s, trimEnd (trimEnd s) = trimEnd s.
Proof.
  induction s as [|c s IH]; [reflexivity|]. cbn [trimEnd].
  destruct (trimEnd s) as [|x t] eqn:Et.
  - destruct (isSpace c) eqn:Hc; [reflexivity|]. cbn [trimEnd]. rewrite Hc.
    reflexivity.
  - cbn [trimEnd] in IH |- *. rewrite IH. reflexivity.
Qed.

Lemma trimStart_nonspace : forall s,
  trimStart s = EmptyString \/
  exists c t, trimStart s = String c t /\ isSpace c = false.
Proof.
  induction s as [|c s IH]; [left; reflexivity|]. cbn [trimStart].
  destruct (isSpace c) eqn:Hc; [exact IH|]. right. exists c, s. auto.
Qed.

Lemma trim_idem s : trim (trim s) = trim s.
Proof.
  unfold trim. destruct (trimStart_nonspace s) as [E|[c [t [E Hc]]]]; rewrite E.
  - reflexivity.
  - assert (H : exists u, trimEnd (String c t) = String c u).
    { cbn [trimEnd]. destruct (trimEnd t); [rewrite Hc|]; eauto. }
    destruct H as [u Eu]. rewrite Eu. cbn [trimStart]. rewrite Hc.
    rewrite <- Eu. apply trimEnd_idem.
Qed.

(** The trimmed text is a part of the text. *)
Lemma trim_split s : exists a b, s = a ++ trim s ++ b.
Proof.
  unfold trim.
  destruct (trimStart_split s) as [a [Ea _]].
  destruct (trimEnd_split (trimStart s)) as [b [Eb _]].
  exists a, b. rewrite <- Eb. exact Ea.
Qed.

Lemma includes_part s a b p :
  includes s p = true -> includes (a ++ s ++ b) p = true.
Proof.
  intros H. apply includes_app in H. destruct H as [x [y ->]].
  apply includes_app. exists (a ++ x), (y ++ b).
  rewrite !app_assoc. reflexivity.
Qed.

Lemma includes_trim s p : includes s p = false -> includes (trim s) p = false.
Proof.
  intros H. destruct (includes (trim s) p) eqn:E; [|reflexivity].
  destruct (trim_split s) as [a [b Es]].
  apply (includes_part _ a b) in E. rewrite <- Es in E. congruence.
Qed.

Lemma countOf_weaker (p q : ascii -> bool) ws :
  (forall c, q c = true -> p c = true) -> countOf p ws = 0 -> countOf q ws = 0.
Proof.
  intros Hpq. induction ws as [|c ws IH]; [reflexivity|]. cbn.
  destruct (p c) eqn:Hp; [discriminate|].
  destruct (q c) eqn:Hq; [rewrite (Hpq c Hq) in Hp; discriminate|].
  exact IH.
Qed.

(** A match of an expression without anchors depends on the text it
    consumes only. *)
Lemma Matches_consumed total r s s1 :
  Matches total r s s1 -> anchorFree r = true ->
  exists m, s = m ++ s1 /\ forall total' t, Matches total' r (m ++ t) t.
Proof.
  induction 1 as [s|p a s Hp|r1 r2 s s1 s2 _ IH1 _ IH2|r1 r2 s s1 _ IH
                 |r1 r2 s s1 _ IH|g r s|g r s s1 s2 _ IH1 Hlen _ IH2
                 |i r s s1 _ IH|s Hs|]; cbn [anchorFree]; intros Hf;
    try discriminate.
  - exists "". split; [reflexivity|]. intros. constructor.
  - exists (String a ""). split; [reflexivity|]. intros. constructor. exact Hp.
  - apply andb_true_iff in Hf. destruct Hf as [F1 F2].
    destruct (IH1 F1) as [m1 [-> K1]]. destruct (IH2 F2) as [m2 [-> K2]].
    exists (m1 ++ m2). split; [rewrite app_assoc; reflexivity|].
    intros total' t. rewrite app_assoc. eapply MSeq; [apply K1|apply K2].
  - apply andb_true_iff in Hf. destruct Hf as [F1 F2].
    destruct (IH F1) as [m [-> K]]. exists m. split; [reflexivity|].
    intros. apply MAltL. apply K.
  - apply andb_true_iff in Hf. destruct Hf as [F1 F2].
    destruct (IH F2) as [m [-> K]]. exists m. split; [reflexivity|].
    intros. apply MAltR. apply K.
  - exists "". split; [reflexivity|]. intros. apply MStarStop.
  - destruct (IH1 Hf) as [m1 [-> K1]]. destruct (IH2 Hf) as [m2 [-> K2]].
    exists (m1 ++ m2). split; [rewrite app_assoc; reflexivity|].
    intros total' t. rewrite app_assoc.
    eapply MStarStep; [apply K1| |apply K2].
    rewrite !length_app in *. lia.
  - destruct (IH Hf) as [m [-> K]]. exists m. split; [reflexivity|].
    intros. apply MGroup. apply K.
Qed.

(** An expression without anchors that matches in a part of a text
    matches in the text. *)
Lemma test_part r s a b :
  anchorFree r = true -> test r s = true -> test r (a ++ s ++ b) = true.
Proof.
  intros Hf H. apply test_true in H. destruct H as [pre [rest [s1 [-> M]]]].
  destruct (Matches_consumed _ _ _ _ M Hf) as [m [-> K]].
  apply test_true. exists (a ++ pre), (m ++ s1 ++ b), (s1 ++ b).
  split; [rewrite !app_assoc; reflexivity|]. apply K.
Qed.

(** The last code unit of a non-empty run of a class. *)
Lemma star_class_last total g p s s1 :
  Matches total (Star g (Chr p)) s s1 ->
  s = s1 \/ exists m c, s = m ++ String c s1 /\ p c = true.
Proof.
  intros H. remember (Star g (Chr p)) as r eqn:Er.
  induction H as [| | | | | |g' r' s s1 s2 H1 _ Hlen H2 IH2| | |];
    try discriminate; [left; reflexivity|].
  injection Er as -> ->.
  apply Matches_chr_inv in H1. destruct H1 as [a [-> Ha]].
  right. destruct (IH2 eq_refl) as [->|[m [c [-> Hc]]]].
  - exists "", a. auto.
  - exists (String a m), c. auto.
Qed.

Lemma plus_class_last total g p s s1 :
  Matches total (Plus g (Chr p)) s s1 ->
  exists m c, s = m ++ String c s1 /\ p c = true.
Proof.
  intros H. apply Matches_seq_inv in H. destruct H as [s2 [H1 H2]].
  apply Matches_chr_inv in H1. destruct H1 as [a [-> Ha]].
  apply star_class_last in H2. destruct H2 as [->|[m [c [-> Hc]]]].
  - exists "", a. auto.
  - exists (String a m), c. auto.
Qed.

Lemma plus_class_first total g p s s1 :
  Matches total (Plus g (Chr p)) s s1 ->
  exists c m, s = String c m ++ s1 /\ p c = true.
Proof.
  intros H. apply Matches_seq_inv in H. destruct H as [s2 [H1 H2]].
  apply Matches_chr_inv in H1. destruct H1 as [a [-> Ha]].
  apply Matches_suffix in H2. destruct H2 as [m ->].
  exists a, m. auto.
Qed.

(** Code units by class. *)
Lemma word_not_space c : isWord c = true -> isSpace c = false.
Proof. destruct c as [[] [] [] [] [] [] [] []]; vm_compute; congruence. Qed.

Lemma space_lower c : isSpace c = true -> lowerChar c = c.
Proof. destruct c as [[] [] [] [] [] [] [] []]; vm_compute; congruence. Qed.

Lemma backtick_only c :
  Ascii.eqb (canonicalize c) (canonicalize "`") = true -> c = "`"%char.
Proof. destruct c as [[] [] [] [] [] [] [] []]; vm_compute; congruence. Qed.

End TrimFacts.

(** ** The request handler *)

Module HandlerFacts.
Import JS Regex Spec StringFacts RegexFacts ScanFacts MatchFacts
       SearchFacts ConditionFacts ValidatorFacts TrimFacts.

Ltac assoc :=
  repeat (progress (rewrite ?StringFacts.app_assoc; cbn [append])); reflexivity.

(** A match of the FROM expression has a white space inside and ends with
    a code unit that is none. *)
Lemma fromClause_shape total s s1 :
  Matches total Server.fromClause s s1 ->
  exists m1 sp m2 c,
    s = m1 ++ String sp (m2 ++ String c s1) /\
    isSpace sp = true /\ isSpace c = false.
Proof.
  unfold Server.fromClause. cbn [seqs]. intros H.
  apply Matches_seq_inv in H. destruct H as [a1 [H1 H]].
  apply Matches_seq_inv in H. destruct H as [b1 [H2 H]].
  apply Matches_seq_inv in H. destruct H as [b2 [H3 H]].
  apply Matches_seq_inv in H. destruct H as [b3 [H4 H5]].
  apply Matches_suffix in H1. destruct H1 as [w ->].
  apply plus_class_first in H2. destruct H2 as [sp [m' [-> Hsp]]].
  apply Matches_suffix in H3. destruct H3 as [x ->].
  apply plus_class_last in H4. destruct H4 as [mw [cw [-> Hcw]]].
  apply Matches_alt_inv in H5. destruct H5 as [H5|H5].
  - apply Matches_chr_inv in H5. destruct H5 as [bt [-> Hbt]].
    apply backtick_only in Hbt. subst bt.
    exists w, sp, (m' ++ x ++ mw ++ String cw ""), "`"%char.
    split; [|split; [exact Hsp|reflexivity]]. assoc.
  - apply Matches_empty_inv in H5. subst b3.
    exists w, sp, (m' ++ x ++ mw), cw.
    split; [|split; [exact Hsp|apply word_not_space; exact Hcw]]. assoc.
Qed.

(** A text that starts with SELECT and a white space. *)
Lemma select_start_inv sql :
  startsWithSelectSpace sql = true ->
  exists c1 c2 c3 c4 c5 c6 c7 rest,
    sql = String c1 (String c2 (String c3 (String c4 (String c5 (String c6
            (String c7 rest)))))) /\
    lowerChar c1 = "s"%char /\ lowerChar c2 = "e"%char /\
    lowerChar c3 = "l"%char /\ lowerChar c4 = "e"%char /\
    lowerChar c5 = "c"%char /\ lowerChar c6 = "t"%char /\ isSpace c7 = true.
Proof.
  unfold startsWithSelectSpace. intros H. apply andb_true_iff in H.
  destruct H as [H6 H7]. apply String.eqb_eq in H6.
  destruct sql as [|c1 [|c2 [|c3 [|c4 [|c5 [|c6 [|c7 rest]]]]]]];
    try discriminate H6; try discriminate H7.
  cbn in H6. injection H6 as E1 E2 E3 E4 E5 E6.
  exists c1, c2, c3, c4, c5, c6, c7, rest. cbn in H7. auto 10.
Qed.

Lemma select_start_intro c1 c2 c3 c4 c5 c6 c7 rest :
  lowerChar c1 = "s"%char -> lowerChar c2 = "e"%char ->
  lowerChar c3 = "l"%char -> lowerChar c4 = "e"%char ->
  lowerChar c5 = "c"%char -> lowerChar c6 = "t"%char -> isSpace c7 = true ->
  startsWithSelectSpace
    (String c1 (String c2 (String c3 (String c4 (String c5 (String c6
       (String c7 rest))))))) = true.
Proof.
  intros E1 E2 E3 E4 E5 E6 E7. unfold startsWithSelectSpace.
  cbn [take drop toLowerCase smap]. rewrite E1, E2, E3, E4, E5, E6, E7.
  reflexivity.
Qed.

Lemma letter_not_space c l :
  lowerChar c = l -> isSpace l = false -> isSpace c = false.
Proof.
  intros E Hl. destruct (isSpace c) eqn:Hc; [|reflexivity].
  rewrite (space_lower c Hc) in E. subst. congruence.
Qed.

(** In a text that starts with SELECT, a white space has six code units
    before it. *)
Lemma space_behind_select c1 c2 c3 c4 c5 c6 c7 rest A sp B :
  lowerChar c1 = "s"%char -> lowerChar c2 = "e"%char ->
  lowerChar c3 = "l"%char -> lowerChar c4 = "e"%char ->
  lowerChar c5 = "c"%char -> lowerChar c6 = "t"%char ->
  isSpace sp = true ->
  String c1 (String c2 (String c3 (String c4 (String c5 (String c6
    (String c7 rest)))))) = A ++ String sp B ->
  exists P, A ++ String sp "" =
            String c1 (String c2 (String c3 (String c4 (String c5 (String c6
              (String c7 P)))))).
Proof.
  intros E1 E2 E3 E4 E5 E6 Hsp E.
  pose proof (letter_not_space c1 _ E1 eq_refl) as N1.
  pose proof (letter_not_space c2 _ E2 eq_refl) as N2.
  pose proof (letter_not_space c3 _ E3 eq_refl) as N3.
  pose proof (letter_not_space c4 _ E4 eq_refl) as N4.
  pose proof (letter_not_space c5 _ E5 eq_refl) as N5.
  pose proof (letter_not_space c6 _ E6 eq_refl) as N6.
  destruct A as [|a1 A]; cbn [append] in E;
    [injection E as -> _; congruence|injection E as <- E].
  destruct A as [|a2 A]; cbn [append] in E;
    [injection E as -> _; congruence|injection E as <- E].
  destruct A as [|a3 A]; cbn [append] in E;
    [injection E as -> _; congruence|injection E as <- E].
  destruct A as [|a4 A]; cbn [append] in E;
    [injection E as -> _; congruence|injection E as <- E].
  destruct A as [|a5 A]; cbn [append] in E;
    [injection E as -> _; congruence|injection E as <- E].
  destruct A as [|a6 A]; cbn [append] in E;
    [injection E as -> _; congruence|injection E as <- E].
  destruct A as [|a7 A]; cbn [append] in E.
  - injection E as -> _. exists "". reflexivity.
  - injection E as <- E. exists (A ++ String sp ""). reflexivity.
Qed.

(** The validator accepts the trimmed text of a text it accepts. *)
Lemma validate_trim sql :
  Server.validateSQLGrammar sql = [] ->
  Server.validateSQLGrammar (trim sql) = [].
Proof.
  intros Hv. apply validate_nil in Hv. destruct Hv as [Hfrom [Hticks [Hsel Hdang]]].
  rewrite selectStart_test in Hsel.
  destruct (select_start_inv sql Hsel)
    as (c1 & c2 & c3 & c4 & c5 & c6 & c7 & rest & Esql & E1 & E2 & E3 & E4 & E5 & E6 & E7).
  assert (Hstart : trimStart sql = sql).
  { rewrite Esql. cbn [trimStart].
    rewrite (letter_not_space c1 _ E1 eq_refl). reflexivity. }
  unfold trim. rewrite Hstart.
  destruct (trimEnd_split sql) as [ws [Ews Hws]].
  apply test_true in Hfrom. destruct Hfrom as [pre [r [s1 [Epre M]]]].
  destruct (Matches_consumed _ _ _ _ M eq_refl) as [mm [-> K]].
  destruct (fromClause_shape _ _ _ (K 0 ""))
    as [m1 [sp [m2 [c [Emm [Hsp Hc]]]]]].
  rewrite append_nil_r in Emm. subst mm.
  assert (Etrim : trimEnd sql =
                  (pre ++ m1) ++ String sp (m2 ++ String c (trimEnd s1))).
  { rewrite Epre.
    replace (pre ++ (m1 ++ String sp (m2 ++ String c "")) ++ s1)
      with ((pre ++ m1 ++ String sp m2) ++ String c s1)
      by assoc.
    rewrite trimEnd_app_nonspace by exact Hc. assoc. }
  apply validate_nil. split; [|split; [|split]].
  - apply test_true.
    exists pre, ((m1 ++ String sp (m2 ++ String c "")) ++ trimEnd s1), (trimEnd s1).
    split; [|apply K].
    rewrite Etrim. assoc.
  - rewrite Ews, countOf_app in Hticks.
    rewrite (countOf_weaker (fun c => negb (isSpace c)) (Ascii.eqb "`") ws) in Hticks;
      [rewrite Nat.add_0_r in Hticks; exact Hticks| |exact Hws].
    intros x Hx. apply Ascii.eqb_eq in Hx. subst x. reflexivity.
  - rewrite selectStart_test.
    assert (Esp : sql = (pre ++ m1) ++ String sp (m2 ++ String c s1)).
    { rewrite Epre. assoc. }
    rewrite Esql in Esp.
    destruct (space_behind_select _ _ _ _ _ _ _ _ _ _ _ E1 E2 E3 E4 E5 E6 Hsp Esp)
      as [P EP].
    rewrite Etrim.
    replace ((pre ++ m1) ++ String sp (m2 ++ String c (trimEnd s1)))
      with (((pre ++ m1) ++ String sp "") ++ m2 ++ String c (trimEnd s1))
      by assoc.
    rewrite EP. cbn [append].
    assert (E7' : isSpace c7 = true).
    { exact E7. }
    apply select_start_intro; assumption.
  - destruct (test Server.dangerous (trimEnd sql)) eqn:Ed; [|reflexivity].
    apply (test_part Server.dangerous _ "" ws eq_refl) in Ed. cbn [append] in Ed.
    rewrite <- Ews in Ed. congruence.
Qed.

(** *** The lines of the completion *)

Lemma startsWith_take n : forall s p,
  startsWith (take n s) p = true -> startsWith s p = true.
Proof.
  induction n as [|n IH]; intros s p; cbn [take].
  - destruct p; [reflexivity|discriminate].
  - destruct s as [|c s]; [auto|]. destruct p as [|a p]; [reflexivity|].
    cbn [startsWith]. intros H. apply andb_true_iff in H. destruct H as [Ha Hp].
    rewrite Ha. cbn. apply IH. exact Hp.
Qed.

Lemma indexOf_before sep : sep <> "" -> forall s i,
  indexOf s sep = Some i -> includes (take i s) sep = false.
Proof.
  intros Hne. induction s as [|c s IH]; intros i; cbn [indexOf].
  - destruct (startsWith "" sep) eqn:E; [|discriminate].
    intros H. injection H as <-. destruct sep; [congruence|reflexivity].
  - destruct (startsWith (String c s) sep) eqn:E.
    + intros H. injection H as <-. destruct sep; [congruence|reflexivity].
    + destruct (indexOf s sep) as [j|] eqn:Ej; [|discriminate].
      intros H. injection H as <-. cbn [take includes].
      rewrite (IH j eq_refl), orb_false_r.
      destruct (startsWith (String c (take j s)) sep) eqn:E2; [|reflexivity].
      apply (startsWith_take (S j) (String c s)) in E2. congruence.
Qed.

Lemma split_pieces sep : sep <> "" -> forall fuel s piece,
  String.length s <= fuel ->
  In piece (split_from fuel s sep) -> includes piece sep = false.
Proof.
  intros Hne. induction fuel as [|fuel IH]; intros s piece Hlen; cbn [split_from].
  - intros [<-|[]]. destruct s; [|cbn in Hlen; lia].
    destruct sep; [congruence|reflexivity].
  - destruct (indexOf s sep) as [i|] eqn:Ei.
    + intros [<-|H]; [apply (indexOf_before sep Hne); exact Ei|].
      apply IH in H; [exact H|].
      pose proof (indexOf_length _ _ _ Ei) as L.
      destruct sep; [congruence|]. cbn [String.length] in *. lia.
    + intros [<-|[]]. apply indexOf_None. exact Ei.
Qed.

Lemma upper_letters c1 c2 c3 c4 c5 c6 :
  lowerChar c1 = "s"%char -> lowerChar c2 = "e"%char ->
  lowerChar c3 = "l"%char -> lowerChar c4 = "e"%char ->
  lowerChar c5 = "c"%char -> lowerChar c6 = "t"%char ->
  forall rest,
  startsWithUnits
    (toUpperCase (String c1 (String c2 (String c3 (String c4 (String c5
       (String c6 rest)))))))
    (units "SELECT") = true.
Proof.
  intros E1 E2 E3 E4 E5 E6 rest.
  assert (U : forall c l u, lowerChar c = l ->
            (forall x, lowerChar x = l -> upperUnits x = [u]) ->
            upperUnits c = [u]) by (intros; auto).
  assert (Us : forall x, lowerChar x = "s"%char -> upperUnits x = [83%N]).
  { intros [[] [] [] [] [] [] [] []]; vm_compute; congruence. }
  assert (Ue : forall x, lowerChar x = "e"%char -> upperUnits x = [69%N]).
  { intros [[] [] [] [] [] [] [] []]; vm_compute; congruence. }
  assert (Ul : forall x, lowerChar x = "l"%char -> upperUnits x = [76%N]).
  { intros [[] [] [] [] [] [] [] []]; vm_compute; congruence. }
  assert (Uc : forall x, lowerChar x = "c"%char -> upperUnits x = [67%N]).
  { intros [[] [] [] [] [] [] [] []]; vm_compute; congruence. }
  assert (Ut : forall x, lowerChar x = "t"%char -> upperUnits x = [84%N]).
  { intros [[] [] [] [] [] [] [] []]; vm_compute; congruence. }
  cbn [toUpperCase].
  rewrite (Us c1 E1), (Ue c2 E2), (Ul c3 E3), (Ue c4 E4), (Uc c5 E5), (Ut c6 E6).
  reflexivity.
Qed.

(** The first line of a text that starts with SELECT and a white space is
    a line that starts with SELECT. *)
Lemma first_line_selected sql :
  startsWithSelectSpace sql = true ->
  exists line, In line (split sql lineFeed) /\ Server.isSelectLine line = true.
Proof.
  intros Hsel.
  destruct (select_start_inv sql Hsel)
    as (c1 & c2 & c3 & c4 & c5 & c6 & c7 & rest & Esql & E1 & E2 & E3 & E4 & E5 & E6 & E7).
  destruct (split_from_head (String.length sql) sql lineFeed (le_n _)) as [tl Etl].
  exists (upToNext sql lineFeed). split.
  - unfold split. rewrite Etl. left. reflexivity.
  - pose proof (letter_not_space c1 _ E1 eq_refl) as N1.
    pose proof (letter_not_space c2 _ E2 eq_refl) as N2.
    pose proof (letter_not_space c3 _ E3 eq_refl) as N3.
    pose proof (letter_not_space c4 _ E4 eq_refl) as N4.
    pose proof (letter_not_space c5 _ E5 eq_refl) as N5.
    pose proof (letter_not_space c6 _ E6 eq_refl) as N6.
    assert (Hline : exists tail,
              upToNext sql lineFeed =
              String c1 (String c2 (String c3 (String c4 (String c5
                (String c6 tail)))))).
    { unfold upToNext. destruct (indexOf sql lineFeed) as [i|] eqn:Ei.
      - pose proof (indexOf_split _ _ _ Ei) as Es.
        revert Es. generalize (drop (i + String.length lineFeed) sql) as tail.
        generalize (take i sql) as head. intros head tail Es.
        rewrite Esql in Es. unfold lineFeed in Es. cbn [append] in Es.
        assert (Hlf : forall c, isSpace c = false -> c <> ascii_of_nat 10).
        { intros c Hc ->. vm_compute in Hc. discriminate. }
        destruct head as [|h1 head]; cbn [append] in Es;
          [injection Es as -> _; exfalso; apply (Hlf _ N1); reflexivity
          |injection Es as <- Es].
        destruct head as [|h2 head]; cbn [append] in Es;
          [injection Es as -> _; exfalso; apply (Hlf _ N2); reflexivity
          |injection Es as <- Es].
        destruct head as [|h3 head]; cbn [append] in Es;
          [injection Es as -> _; exfalso; apply (Hlf _ N3); reflexivity
          |injection Es as <- Es].
        destruct head as [|h4 head]; cbn [append] in Es;
          [injection Es as -> _; exfalso; apply (Hlf _ N4); reflexivity
          |injection Es as <- Es].
        destruct head as [|h5 head]; cbn [append] in Es;
          [injection Es as -> _; exfalso; apply (Hlf _ N5); reflexivity
          |injection Es as <- Es].
        destruct head as [|h6 head]; cbn [append] in Es;
          [injection Es as -> _; exfalso; apply (Hlf _ N6); reflexivity
          |injection Es as <- Es].
        exists head. reflexivity.
      - exists (String c7 rest). exact Esql. }
    destruct Hline as [tail ->].
    unfold Server.isSelectLine, trim. cbn [trimStart]. rewrite N1.
    replace (String c1 (String c2 (String c3 (String c4 (String c5 (String c6 tail))))))
      with (String c1 (String c2 (String c3 (String c4 (String c5 "")))) ++ String c6 tail)
      by reflexivity.
    rewrite trimEnd_app_nonspace by exact N6. cbn [append].
    apply upper_letters; assumption.
Qed.

(** The text that goes to the validator has one line, or comes whole from
    a completion without a line that starts with SELECT. *)
Lemma selectQuery_cases sqlQuery :
  (In (Server.selectQuery sqlQuery) (split sqlQuery lineFeed) /\
   Server.isSelectLine (Server.selectQuery sqlQuery) = true) \/
  (Server.selectQuery sqlQuery = sqlQuery /\
   forall line, In line (split sqlQuery lineFeed) ->
                Server.isSelectLine line = false).
Proof.
  unfold Server.selectQuery, find. cbv zeta.
  destruct (List.find Server.isSelectLine (split sqlQuery lineFeed)) as [line|] eqn:E.
  - apply find_some in E. destruct E as [Hin Hsel].
    destruct line as [|c line]; [discriminate Hsel|]. cbn [orStr]. left. auto.
  - right. split; [reflexivity|]. intros line Hin.
    apply (find_none _ _ E). exact Hin.
Qed.

Lemma accepted_one_line sqlQuery :
  Server.validateSQLGrammar (Server.selectQuery sqlQuery) = [] ->
  includes (Server.selectQuery sqlQuery) lineFeed = false.
Proof.
  intros Hv. destruct (selectQuery_cases sqlQuery) as [[Hin _]|[E Hnone]].
  - apply (split_pieces lineFeed ltac:(discriminate)) in Hin; [exact Hin|].
    apply le_n.
  - rewrite E in Hv. apply validate_nil in Hv.
    destruct Hv as [_ [_ [Hsel _]]]. rewrite selectStart_test in Hsel.
    destruct (first_line_selected sqlQuery Hsel) as [line [Hin Hline]].
    rewrite (Hnone line Hin) in Hline. discriminate.
Qed.

(** *** The answers of the handler *)

Lemma generated_inv question vectorStore completion sql rag :
  Server.generateSQL question vectorStore completion = Server.Generated sql rag ->
  exists text content,
    question = Some text /\ text <> "" /\ completion = Some content /\
    Server.detectPromptInjection text = [] /\
    Server.validateSQLGrammar (Server.selectQuery (Server.cleanCompletion content)) = [] /\
    sql = trim (Server.selectQuery (Server.cleanCompletion content)) /\
    rag = Nat.ltb 0 (List.length (Server.relevantColumns text vectorStore)).
Proof.
  unfold Server.generateSQL. destruct question as [[|c text]|]; try discriminate.
  cbv zeta.
  destruct (Server.detectPromptInjection (String c text)) as [|t ts] eqn:Ed;
    [|discriminate].
  cbn [List.length Nat.ltb Nat.leb].
  destruct completion as [content|]; [|discriminate].
  destruct (Server.validateSQLGrammar _) as [|e es] eqn:Ev; [|discriminate].
  cbn [List.length Nat.ltb Nat.leb]. intros H. injection H as <- <-.
  exists (String c text), content. repeat split; auto. discriminate.
Qed.

End HandlerFacts.

(** ** The names of an uploaded file *)

Module NameFacts.
Import JS Regex Spec StringFacts RegexFacts MatchFacts SearchFacts TrimFacts.
Import Client.

Lemma take_all (s : string) : take (String.length s) s = s.
Proof. induction s as [|c s IH]; cbn; congruence. Qed.

Lemma drop_all (s : string) : drop (String.length s) s = "".
Proof. induction s as [|c s IH]; cbn; congruence. Qed.

(** *** The pieces of [split] at a dot *)

Lemma indexOf_dot a b :
  countOf isDot a = 0 -> indexOf (a ++ String "." b) "." = Some (String.length a).
Proof.
  induction a as [|c a IH]; intros H0; cbn [append].
  - reflexivity.
  - cbn in H0. unfold isDot in H0 at 1.
    destruct (Ascii.eqb c ".") eqn:E; [discriminate|].
    cbn [indexOf startsWith]. rewrite Ascii.eqb_sym, E. cbn [andb].
    rewrite IH by exact H0. reflexivity.
Qed.

Lemma indexOf_no_dot a : countOf isDot a = 0 -> indexOf a "." = None.
Proof.
  induction a as [|c a IH]; intros H0; [reflexivity|].
  cbn in H0. unfold isDot in H0 at 1.
  destruct (Ascii.eqb c ".") eqn:E; [discriminate|].
  cbn [indexOf startsWith]. rewrite Ascii.eqb_sym, E. cbn [andb].
  rewrite IH by exact H0. reflexivity.
Qed.

Lemma split_from_cons fuel s sep : exists x l, split_from fuel s sep = x :: l.
Proof.
  destruct fuel; cbn [split_from]; [eauto|].
  destruct (indexOf s sep); eauto.
Qed.

Lemma last_piece : forall fuel stem ext,
  String.length (stem ++ String "." ext) <= fuel ->
  countOf isDot ext = 0 ->
  List.last (split_from fuel (stem ++ String "." ext) ".") "" = ext.
Proof.
  induction fuel as [|fuel IH]; intros stem ext Hlen Hext.
  - rewrite length_app in Hlen. cbn in Hlen. lia.
  - destruct (first_of_class isDot stem) as [H0|[pre [a [rest [-> [H0 Ha]]]]]].
    + cbn [split_from]. rewrite indexOf_dot by exact H0.
      replace (String.length stem + String.length ".")
        with (String.length (stem ++ ".")) by (rewrite length_app; reflexivity).
      replace (stem ++ String "." ext) with ((stem ++ ".") ++ ext)
        by (rewrite app_assoc; reflexivity).
      rewrite drop_app_length.
      assert (E : split_from fuel ext "." = [ext]).
      { destruct fuel; cbn [split_from]; [reflexivity|].
        rewrite indexOf_no_dot by exact Hext. reflexivity. }
      rewrite E. reflexivity.
    + unfold isDot in Ha. apply Ascii.eqb_eq in Ha. subst a.
      rewrite app_assoc. cbn [append]. cbn [split_from].
      rewrite indexOf_dot by exact H0.
      replace (String.length pre + String.length ".")
        with (String.length (pre ++ ".")) by (rewrite length_app; reflexivity).
      replace (pre ++ String "." (rest ++ String "." ext))
        with ((pre ++ ".") ++ (rest ++ String "." ext))
        by (rewrite app_assoc; reflexivity).
      rewrite drop_app_length.
      destruct (split_from_cons fuel (rest ++ String "." ext) ".") as [x [l E]].
      pose proof (IH rest ext) as IH'. rewrite E in IH' |- *.
      cbn [List.last]. apply IH'; [|exact Hext].
      rewrite !length_app in *. cbn [String.length] in *. lia.
Qed.

(** *** The extension expression *)

Lemma plus_class_all total g p s s1 :
  Matches total (Plus g (Chr p)) s s1 ->
  exists m, s = m ++ s1 /\ countOf (fun c => negb (p c)) m = 0.
Proof.
  intros H. apply Matches_seq_inv in H. destruct H as [s2 [H1 H2]].
  apply Matches_chr_inv in H1. destruct H1 as [a [-> Ha]].
  assert (K : exists m, s2 = m ++ s1 /\ countOf (fun c => negb (p c)) m = 0).
  { clear Ha. remember (Star g (Chr p)) as r eqn:Er.
    induction H2 as [| | | | | |g' r' s s' s'' H1 _ Hlen H2 IH2| | |];
      try discriminate; [exists ""; auto|].
    injection Er as -> ->.
    apply Matches_chr_inv in H1. destruct H1 as [b [-> Hb]].
    destruct (IH2 eq_refl) as [m [-> Hm]].
    exists (String b m). split; [reflexivity|]. cbn. rewrite Hb. exact Hm. }
  destruct K as [m [-> Hm]]. exists (String a m).
  split; [reflexivity|]. cbn. rewrite Ha. exact Hm.
Qed.

Lemma star_class_intro total g p : forall m t,
  countOf (fun c => negb (p c)) m = 0 -> Matches total (Star g (Chr p)) (m ++ t) t.
Proof.
  induction m as [|c m IH]; intros t H0; cbn [append].
  - apply MStarStop.
  - cbn in H0. destruct (p c) eqn:Hc; [|discriminate].
    eapply MStarStep; [constructor; exact Hc|cbn; lia|apply IH; exact H0].
Qed.

Lemma plus_class_intro total g p c m t :
  p c = true -> countOf (fun c => negb (p c)) m = 0 ->
  Matches total (Plus g (Chr p)) (String c m ++ t) t.
Proof.
  intros Hc H0. cbn [append]. eapply MSeq; [constructor; exact Hc|].
  apply star_class_intro. exact H0.
Qed.

Lemma extension_inv total s s1 :
  Matches total extensionRe s s1 ->
  s1 = "" /\ exists m, s = String "." m /\ countOf (fun c => negb (extensionChar c)) m = 0.
Proof.
  unfold extensionRe. cbn [seqs]. intros H.
  apply Matches_seq_inv in H. destruct H as [a [H1 H]].
  apply Matches_seq_inv in H. destruct H as [b [H2 H3]].
  apply Matches_chr_inv in H1. destruct H1 as [c [-> Hc]].
  apply Ascii.eqb_eq in Hc. subst c.
  apply Matches_eol_inv in H3. destruct H3 as [-> ->].
  apply plus_class_all in H2. destruct H2 as [m [-> Hm]].
  rewrite append_nil_r. split; [reflexivity|]. exists m. auto.
Qed.

Lemma no_dot_in_extension m :
  countOf (fun c => negb (extensionChar c)) m = 0 -> countOf isDot m = 0.
Proof.
  apply countOf_weaker. intros c Hc. unfold isDot in Hc. unfold extensionChar.
  rewrite Hc, orb_true_r. reflexivity.
Qed.

Lemma exec_extension stem c ext :
  extensionChar c = true ->
  countOf (fun c => negb (extensionChar c)) ext = 0 ->
  exists cs,
    exec extensionRe (stem ++ String "." (String c ext)) =
    Some {| index := String.length stem;
            matched := String "." (String c ext);
            caps := cs |}.
Proof.
  intros Hc Hext. unfold exec.
  rewrite execFrom_skip.
  - assert (M : Matches (String.length (stem ++ String "." (String c ext)))
                  extensionRe (String "." (String c ext)) "").
    { unfold extensionRe. cbn [seqs].
      eapply MSeq; [constructor; apply Ascii.eqb_refl|].
      eapply MSeq; [|constructor].
      pose proof (plus_class_intro (String.length (stem ++ String "." (String c ext)))
                    true extensionChar c ext "" Hc Hext) as P.
      rewrite append_nil_r in P. exact P. }
    destruct (execFrom_here _ _ _ _ (0 + String.length stem) M) as [s2 [cs [M2 E]]].
    apply extension_inv in M2. destruct M2 as [-> _].
    rewrite E. exists cs. cbn [String.length]. rewrite Nat.sub_0_r.
    change (S (S (String.length ext)))
      with (String.length (String "." (String c ext))).
    rewrite take_all. reflexivity.
  - intros pre1 pre2 s1 E Hne M. apply extension_inv in M.
    destruct M as [_ [m [Em Hm]]].
    destruct pre2 as [|d pre2]; [congruence|]. cbn [append] in Em.
    injection Em as -> <-.
    apply no_dot_in_extension in Hm. rewrite countOf_app in Hm. cbn in Hm. lia.
Qed.

Lemma exec_no_extension name :
  countOf isDot name = 0 -> exec extensionRe name = None.
Proof.
  intros H0. destruct (exec extensionRe name) as [m|] eqn:E; [|reflexivity].
  apply execFrom_sound in E. destruct E as [pre [rest [s1 [-> M]]]].
  apply extension_inv in M. destruct M as [_ [m' [-> _]]].
  rewrite countOf_app in H0. cbn in H0. lia.
Qed.

Lemma underscored_word s :
  countOf (fun c => negb (isAlphaNumeric c || Ascii.eqb c "_")) (underscored s) = 0.
Proof.
  induction s as [|c s IH]; [reflexivity|].
  unfold underscored, replaceChars in *. cbn [smap countOf].
  rewrite IH. destruct (isAlphaNumeric c) eqn:E; cbn [negb].
  - rewrite E. reflexivity.
  - reflexivity.
Qed.

End NameFacts.

Module UploadFacts.
Import JS Regex Spec StringFacts RegexFacts MatchFacts SearchFacts TrimFacts
       NameFacts.
Import Client.

Lemma includes_char_cons c a s :
  includes (String a s) (String c "") = Ascii.eqb c a || includes s (String c "").
Proof. cbn [includes startsWith]. rewrite andb_true_r. reflexivity. Qed.

Lemma extension_chars ext :
  includes ext "." = false -> includes ext "/" = false ->
  countOf (fun c => negb (extensionChar c)) ext = 0.
Proof.
  induction ext as [|a ext IH]; [reflexivity|].
  rewrite !includes_char_cons. intros H1 H2.
  apply orb_false_iff in H1. destruct H1 as [D1 H1].
  apply orb_false_iff in H2. destruct H2 as [D2 H2].
  cbn [countOf]. rewrite (IH H1 H2). unfold extensionChar.
  rewrite (Ascii.eqb_sym a "/"), (Ascii.eqb_sym a "."), D1, D2. reflexivity.
Qed.

Lemma no_dot ext : includes ext "." = false -> countOf isDot ext = 0.
Proof.
  induction ext as [|a ext IH]; [reflexivity|].
  rewrite includes_char_cons. intros H. apply orb_false_iff in H.
  destruct H as [D H]. cbn [countOf]. rewrite (IH H). unfold isDot.
  rewrite Ascii.eqb_sym, D. reflexivity.
Qed.

Lemma word_class c : isWord c = isAlphaNumeric c || Ascii.eqb c "_".
Proof. destruct c as [[] [] [] [] [] [] [] []]; reflexivity. Qed.

End UploadFacts.

(** ** The fences of a completion *)

Module FenceFacts.
Import JS Regex Spec StringFacts RegexFacts ScanFacts MatchFacts
       SearchFacts ConditionFacts ValidatorFacts TrimFacts HandlerFacts NameFacts.

Lemma replaceAllFrom_none total r t fuel s :
  execFrom total r 0 s = None -> replaceAllFrom total r t fuel s = s.
Proof. intros E. destruct fuel; cbn [replaceAllFrom]; [|rewrite E]; reflexivity. Qed.

(** Where the fence is in a text that ends with a line feed and a fence
    and has none before. *)
Lemma fence_position : forall q pre y,
  includes q "```" = false ->
  q ++ lineFeed ++ "```" = pre ++ "```" ++ y ->
  pre = q ++ lineFeed /\ y = "".
Proof.
  assert (Hlf : ascii_of_nat 10 <> "`"%char) by discriminate.
  induction q as [|a q IH]; intros pre y Hq E.
  - cbn [append lineFeed] in E.
    destruct pre as [|c pre]; cbn [append] in E; [injection E; congruence|].
    injection E as <- E.
    destruct pre as [|c pre]; cbn [append] in E.
    + injection E as <-. auto.
    + exfalso. apply (f_equal String.length) in E.
      cbn [String.length] in E. rewrite !length_app in E.
      cbn [String.length] in E. lia.
  - destruct pre as [|c pre].
    + exfalso. cbn [append] in E. injection E as -> E.
      destruct q as [|b q]; cbn [append lineFeed] in E; [injection E; congruence|].
      injection E as -> E.
      destruct q as [|c q]; cbn [append lineFeed] in E; [injection E; congruence|].
      injection E as -> E.
      cbn in Hq. discriminate.
    + cbn [append] in E. injection E as <- E.
      assert (Hq' : includes q "```" = false).
      { cbn [includes] in Hq. apply orb_false_iff in Hq. tauto. }
      destruct (IH pre y Hq' E) as [-> ->]. auto.
Qed.

Lemma app_inv_head_nil (a b : string) : a ++ b = a -> b = "".
Proof.
  intros E. apply (f_equal String.length) in E. rewrite length_app in E.
  destruct b; [reflexivity|cbn in E; lia].
Qed.

Lemma fence_inv total s s1 :
  Matches total Server.fence s s1 -> exists y, s = "```" ++ y.
Proof.
  unfold Server.fence. cbn [seqs]. intros H.
  apply Matches_seq_inv in H. destruct H as [a [H1 _]].
  apply Matches_lit_inv in H1. eauto.
Qed.

Lemma fenceSql_inv total s s1 :
  Matches total Server.fenceSql s s1 -> exists y, s = "```" ++ "sql" ++ y.
Proof.
  unfold Server.fenceSql. cbn [seqs]. intros H.
  apply Matches_seq_inv in H. destruct H as [a [H1 _]].
  apply Matches_lit_inv in H1. exists a. exact H1.
Qed.

Lemma no_fenceSql total q pos :
  includes q "```" = false ->
  execFrom total Server.fenceSql pos (q ++ lineFeed ++ "```") = None.
Proof.
  intros Hq.
  destruct (execFrom total Server.fenceSql pos (q ++ lineFeed ++ "```")) eqn:E;
    [|reflexivity].
  apply execFrom_sound in E. destruct E as [pre [rest [s1 [E M]]]].
  apply fenceSql_inv in M. destruct M as [y ->].
  apply fence_position in E; [|exact Hq]. destruct E as [_ E]. discriminate.
Qed.

Lemma no_fence_at_all total r q pos :
  (forall total s s1, Matches total r s s1 -> exists y, s = "```" ++ y) ->
  includes q "```" = false -> execFrom total r pos q = None.
Proof.
  intros Hr Hq. destruct (execFrom total r pos q) eqn:E; [|reflexivity].
  apply execFrom_sound in E. destruct E as [pre [rest [s1 [-> M]]]].
  apply Hr in M. destruct M as [y ->].
  assert (includes (pre ++ "```" ++ y) "```" = true)
    by (apply includes_app; eauto).
  congruence.
Qed.

Lemma exec_fence_tail total q pos :
  includes q "```" = false ->
  execFrom total Server.fence pos (q ++ lineFeed ++ "```") =
  Some {| index := pos + String.length (q ++ lineFeed);
          matched := "```"; caps := [] |}.
Proof.
  intros Hq.
  replace (q ++ lineFeed ++ "```") with ((q ++ lineFeed) ++ "```")
    by (rewrite app_assoc; reflexivity).
  rewrite execFrom_skip; [reflexivity|].
  intros pre1 pre2 s1 E Hne M. apply fence_inv in M. destruct M as [y Ey].
  assert (E2 : q ++ lineFeed ++ "```" = pre1 ++ "```" ++ y).
  { rewrite <- Ey, <- !app_assoc, <- E. reflexivity. }
  apply fence_position in E2; [|exact Hq]. destruct E2 as [E2 _].
  rewrite E2 in E. apply Hne. apply (app_inv_head_nil (q ++ lineFeed)).
  symmetry. exact E.
Qed.

(** *** White space at the ends *)

Lemma trimEnd_space_tail c : forall x,
  isSpace c = true -> trimEnd (x ++ String c "") = trimEnd x.
Proof.
  intros x Hc. induction x as [|a x IH]; cbn [append trimEnd].
  - rewrite Hc. reflexivity.
  - rewrite IH. reflexivity.
Qed.

Lemma trimEnd_length s : String.length (trimEnd s) <= String.length s.
Proof.
  destruct (trimEnd_split s) as [ws [E _]].
  rewrite E at 2. rewrite length_app. lia.
Qed.

Lemma trimmed_start s :
  trim s = s -> s = "" \/ exists c s', s = String c s' /\ isSpace c = false.
Proof.
  intros H. destruct s as [|c s]; [auto|]. right. exists c, s.
  split; [reflexivity|].
  destruct (isSpace c) eqn:Hc; [|reflexivity]. exfalso.
  unfold trim in H. cbn [trimStart] in H. rewrite Hc in H.
  apply (f_equal String.length) in H. cbn [String.length] in H.
  pose proof (trimEnd_length (trimStart s)).
  destruct (trimStart_split s) as [ws [E _]].
  apply (f_equal String.length) in E. rewrite length_app in E. lia.
Qed.

Lemma trim_line_feed q : trim q = q -> trim (q ++ lineFeed) = q.
Proof.
  intros H. destruct (trimmed_start q H) as [->|[c [s' [-> Hc]]]]; [reflexivity|].
  unfold trim in *. cbn [append trimStart] in *. rewrite Hc in *.
  change (String c (s' ++ lineFeed)) with (String c s' ++ lineFeed).
  unfold lineFeed. rewrite trimEnd_space_tail by reflexivity. exact H.
Qed.

Lemma trim_fenced q :
  trim ("```sql" ++ lineFeed ++ q ++ lineFeed ++ "```") =
  "```sql" ++ lineFeed ++ q ++ lineFeed ++ "```".
Proof.
  unfold trim. cbn [append trimStart lineFeed].
  replace (isSpace "`") with false by reflexivity.
  set (content := String "`" _).
  assert (E : content = ("```sql" ++ lineFeed ++ q ++ lineFeed ++ "``") ++ String "`" "").
  { subst content. unfold lineFeed. cbn [append]. do 7 f_equal.
    rewrite app_assoc. cbn [append]. reflexivity. }
  rewrite E at 1. rewrite trimEnd_app_nonspace by reflexivity.
  cbn [trimEnd]. symmetry. exact E.
Qed.

End FenceFacts.

Module CompletionFacts.
Import JS Regex Spec StringFacts RegexFacts ScanFacts MatchFacts
       SearchFacts ConditionFacts ValidatorFacts TrimFacts HandlerFacts NameFacts
       FenceFacts.

Lemma execFrom_eq total r pos s :
  execFrom total r pos s =
  match run total r s [] (fun s' c => Some (s', c)) with
  | Some (s', c) =>
      Some {| index := pos;
              matched := take (String.length s - String.length s') s;
              caps := c |}
  | None =>
      match s with
      | EmptyString => None
      | String _ s' => execFrom total r (S pos) s'
      end
  end.
Proof. destruct s; reflexivity. Qed.

Lemma take_sub_app (a b : string) :
  take (String.length (a ++ b) - String.length b) (a ++ b) = a.
Proof.
  rewrite length_app. replace (String.length a + String.length b - String.length b)
    with (String.length a) by lia.
  apply take_app_length.
Qed.

Lemma execFrom_prefix total r a b c pos :
  run total r (a ++ b) [] (fun s' c => Some (s', c)) = Some (b, c) ->
  execFrom total r pos (a ++ b) =
  Some {| index := pos; matched := a; caps := c |}.
Proof. intros H. rewrite execFrom_eq, H, take_sub_app. reflexivity. Qed.

Lemma clean_bare q :
  trim q = q -> includes q "```" = false -> Server.cleanCompletion q = q.
Proof.
  intros Ht Hq. unfold Server.cleanCompletion. cbv zeta. rewrite Ht.
  unfold replaceAll.
  rewrite (replaceAllFrom_none _ Server.fenceSql).
  2:{ apply no_fence_at_all; [|exact Hq].
      intros total s s1 M. apply fenceSql_inv in M. destruct M as [y ->]. eauto. }
  rewrite (replaceAllFrom_none _ Server.fence).
  2:{ apply no_fence_at_all; [|exact Hq]. apply fence_inv. }
  exact Ht.
Qed.

Lemma clean_fenced q :
  trim q = q -> includes q "```" = false ->
  Server.cleanCompletion ("```sql" ++ lineFeed ++ q ++ lineFeed ++ "```") = q.
Proof.
  intros Ht Hq. unfold Server.cleanCompletion. cbv zeta. rewrite trim_fenced.
  assert (E1 : replaceAll Server.fenceSql
                 ("```sql" ++ lineFeed ++ q ++ lineFeed ++ "```") "" =
               q ++ lineFeed ++ "```").
  { unfold replaceAll.
    generalize (String.length ("```sql" ++ lineFeed ++ q ++ lineFeed ++ "```")).
    intros total. cbn [replaceAllFrom].
    assert (E : execFrom total Server.fenceSql 0
                  ("```sql" ++ lineFeed ++ q ++ lineFeed ++ "```") =
                Some {| index := 0;
                        matched := "```sql" ++ lineFeed;
                        caps := [] |}).
    { replace ("```sql" ++ lineFeed ++ q ++ lineFeed ++ "```")
        with (("```sql" ++ lineFeed) ++ q ++ lineFeed ++ "```") by reflexivity.
      apply execFrom_prefix. reflexivity. }
    rewrite E. cbn [index matched take append lineFeed String.length Nat.add drop].
    apply replaceAllFrom_none. apply (no_fenceSql total q 0). exact Hq. }
  rewrite E1. clear E1.
  assert (E2 : replaceAll Server.fence (q ++ lineFeed ++ "```") "" = q ++ lineFeed).
  { unfold replaceAll.
    generalize (String.length (q ++ lineFeed ++ "```")). intros total.
    cbn [replaceAllFrom]. rewrite exec_fence_tail by exact Hq.
    cbn [index matched Nat.add append].
    replace (String.length (q ++ lineFeed) + String.length "```")
      with (String.length ((q ++ lineFeed) ++ "```"))
      by (rewrite (length_app (q ++ lineFeed)); reflexivity).
    replace (q ++ lineFeed ++ "```") with ((q ++ lineFeed) ++ "```")
      by (rewrite app_assoc; reflexivity).
    rewrite drop_all.
    replace (String.length (q ++ lineFeed))
      with (0 + String.length (q ++ lineFeed)) by reflexivity.
    cbn [Nat.add]. rewrite take_app_length.
    rewrite (replaceAllFrom_none total Server.fence "" total "") by reflexivity.
    apply append_nil_r. }
  rewrite E2. apply trim_line_feed. exact Ht.
Qed.

Lemma select_one_line q :
  includes q lineFeed = false -> Server.selectQuery q = q.
Proof.
  intros Hq. unfold Server.selectQuery, split, find. cbv zeta.
  assert (E : split_from (String.length q) q lineFeed = [q]).
  { destruct (String.length q); cbn [split_from]; [reflexivity|].
    apply indexOf_None in Hq. rewrite Hq. reflexivity. }
  rewrite E. cbn [List.find].
  destruct (Server.isSelectLine q); [|reflexivity].
  destruct q; reflexivity.
Qed.

End CompletionFacts.

Module CleanFacts.
Import JS Regex Spec StringFacts RegexFacts ScanFacts MatchFacts
       SearchFacts ConditionFacts ValidatorFacts TrimFacts HandlerFacts NameFacts
       FenceFacts CompletionFacts.

(** What [execFrom] finds is the leftmost match. *)
Lemma execFrom_leftmost total r : forall s pos m,
  execFrom total r pos s = Some m ->
  exists pre rest s1,
    s = pre ++ rest /\ index m = pos + String.length pre /\
    Matches total r rest s1 /\
    matched m = take (String.length rest - String.length s1) rest /\
    (forall p1 p2 s', pre = p1 ++ p2 -> p2 <> "" ->
       ~ Matches total r (p2 ++ rest) s').
Proof.
  induction s as [|a s IH]; intros pos m; rewrite execFrom_eq.
  - destruct (run total r "" [] _) as [[s1 c1]|] eqn:E; [|discriminate].
    intros H. injection H as <-. apply run_sound in E.
    destruct E as [s2 [c2 [M E]]]. injection E as <- <-.
    exists "", "", s2. cbn [index matched append String.length].
    repeat split; auto.
    intros p1 p2 s' E Hne. destruct p1; [cbn in E; congruence|discriminate].
  - destruct (run total r (String a s) [] _) as [[s1 c1]|] eqn:E.
    + intros H. injection H as <-. apply run_sound in E.
      destruct E as [s2 [c2 [M E]]]. injection E as <- <-.
      exists "", (String a s), s2. cbn [index matched append String.length].
      repeat split; auto.
      intros p1 p2 s' E Hne. destruct p1; [cbn in E; congruence|discriminate].
    + intros H. apply IH in H.
      destruct H as (pre & rest & s1 & -> & Hi & M & Hm & Hno).
      exists (String a pre), rest, s1. cbn [append String.length].
      repeat split; auto; [lia|].
      intros p1 p2 s' Ep Hne M'.
      destruct p1 as [|b p1]; cbn [append] in Ep.
      * subst p2. cbn [append] in M'.
        assert (N : run total r (String a (pre ++ rest)) []
                      (fun s' c => Some (s', c)) <> None).
        { eapply run_complete; [exact M'|discriminate]. }
        congruence.
      * injection Ep as <- Ep. apply (Hno p1 p2 s' Ep Hne M').
Qed.

Lemma append_inv_tail : forall a b c : string, a ++ c = b ++ c -> a = b.
Proof.
  induction a as [|x a IH]; intros b c E.
  - destruct b as [|y b]; [reflexivity|]. exfalso.
    apply (f_equal String.length) in E. cbn [append String.length] in E.
    rewrite length_app in E. lia.
  - destruct b as [|y b].
    + exfalso. apply (f_equal String.length) in E.
      cbn [append String.length] in E. rewrite length_app in E. lia.
    + cbn [append] in E. injection E as <- E. f_equal. apply (IH b c E).
Qed.

Lemma drop_app (a b : string) n :
  drop (String.length a + n) (a ++ b) = drop n b.
Proof. induction a as [|c a IH]; cbn; [reflexivity|exact IH]. Qed.

Lemma includes_cons c s p :
  includes (String c s) p = startsWith (String c s) p || includes s p.
Proof. reflexivity. Qed.

Lemma fence_matches total y :
  exists s1, Matches total Server.fence ("```" ++ y) s1.
Proof.
  exists y. unfold Server.fence. cbn [seqs].
  eapply MSeq; [apply (Matches_lit total "```")|apply MAltR; constructor].
Qed.

Lemma no_fence_across : forall pre rest R,
  startsWith rest "```" = true ->
  (forall p1 p2, pre = p1 ++ p2 -> p2 <> "" -> startsWith (p2 ++ rest) "```" = false) ->
  includes R "```" = false ->
  includes (pre ++ R) "```" = false.
Proof.
  induction pre as [|c pre IH]; intros rest R Hrest Hno HR; [exact HR|].
  cbn [append]. rewrite includes_cons. apply orb_false_iff. split.
  - pose proof (Hno "" (String c pre) eq_refl ltac:(discriminate)) as H0.
    destruct (startsWith (String c (pre ++ R)) "```") eqn:E; [|reflexivity].
    exfalso. apply startsWith_app in E. destruct E as [z Ez].
    apply startsWith_app in Hrest. destruct Hrest as [y ->].
    cbn [append] in Ez. injection Ez as -> Ez.
    destruct pre as [|c2 pre]; cbn [append] in Ez, H0.
    { discriminate H0. }
    injection Ez as -> Ez.
    destruct pre as [|c3 pre]; cbn [append] in Ez, H0.
    { discriminate H0. }
    injection Ez as -> Ez. discriminate H0.
  - apply (IH rest R Hrest); [|exact HR].
    intros p1 p2 E Hne. apply (Hno (String c p1) p2); [|exact Hne].
    rewrite E. reflexivity.
Qed.

Lemma replaceAll_no_fence total : forall fuel s,
  String.length s < fuel ->
  includes (replaceAllFrom total Server.fence "" fuel s) "```" = false.
Proof.
  induction fuel as [|fuel IH]; intros s Hlen; [lia|].
  cbn [replaceAllFrom].
  destruct (execFrom total Server.fence 0 s) as [m|] eqn:E.
  - apply execFrom_leftmost in E.
    destruct E as (pre & rest & s1 & -> & Hi & M & Hm & Hno).
    cbn [Nat.add] in Hi.
    destruct (fence_inv _ _ _ M) as [y Ey].
    destruct (Matches_suffix _ _ _ _ M) as [mt Emt].
    assert (Hmt : matched m = mt).
    { rewrite Hm, Emt. apply take_sub_app. }
    assert (Hmt3 : exists mt', mt = "```" ++ mt').
    { unfold Server.fence in M. cbn [seqs] in M.
      apply Matches_seq_inv in M. destruct M as [a [M1 M2]].
      apply Matches_lit_inv in M1. apply Matches_suffix in M2.
      destruct M2 as [o Eo]. exists o.
      rewrite Eo in M1. rewrite M1 in Emt.
      replace ("```" ++ o ++ s1) with (("```" ++ o) ++ s1) in Emt
        by (rewrite <- app_assoc; reflexivity).
      symmetry. apply (append_inv_tail _ _ s1). exact Emt. }
    destruct Hmt3 as [mt' Emt'].
    rewrite Hi, Hmt. rewrite take_app_length.
    assert (Hdrop : drop (String.length pre + String.length mt) (pre ++ rest) = s1).
    { rewrite drop_app, Emt. apply drop_app_length. }
    rewrite Hdrop. rewrite Emt'. cbn [append].
    apply (no_fence_across pre rest).
    + rewrite Ey. reflexivity.
    + intros p1 p2 Ep Hne.
      destruct (startsWith (p2 ++ rest) "```") eqn:Es; [|reflexivity].
      exfalso. apply startsWith_app in Es. destruct Es as [z Ez].
      destruct (fence_matches total z) as [s' M'].
      apply (Hno p1 p2 s' Ep Hne). rewrite Ez. exact M'.
    + apply IH. rewrite length_app, Emt, Emt', !length_app in Hlen.
      cbn [String.length] in Hlen. lia.
  - destruct (includes s "```") eqn:Ei; [|reflexivity].
    exfalso. apply includes_app in Ei. destruct Ei as [a [b ->]].
    destruct (fence_matches total b) as [s' M'].
    apply (execFrom_complete total Server.fence a _ s' 0 M'). exact E.
Qed.

Lemma piece_of_split sep : forall fuel s piece,
  In piece (split_from fuel s sep) -> exists a b, s = a ++ piece ++ b.
Proof.
  induction fuel as [|fuel IH]; intros s piece; cbn [split_from].
  - intros [<-|[]]. exists "", "". rewrite append_nil_r. reflexivity.
  - destruct (indexOf s sep) as [i|] eqn:Ei.
    + intros [<-|H].
      * exists "", (drop i s). cbn [append]. symmetry. apply take_drop.
      * apply IH in H. destruct H as [a [b E]].
        exists (take (i + String.length sep) s ++ a), b.
        rewrite app_assoc, <- E. symmetry. apply take_drop.
    + intros [<-|[]]. exists "", "". rewrite append_nil_r. reflexivity.
Qed.

Lemma selectQuery_part sqlQuery :
  exists a b, sqlQuery = a ++ Server.selectQuery sqlQuery ++ b.
Proof.
  destruct (selectQuery_cases sqlQuery) as [[Hin _]|[E _]].
  - apply piece_of_split in Hin. exact Hin.
  - rewrite E. exists "", "". rewrite append_nil_r. reflexivity.
Qed.

Lemma clean_no_fence content :
  includes (trim (Server.selectQuery (Server.cleanCompletion content))) "```" = false.
Proof.
  apply includes_trim.
  destruct (includes (Server.selectQuery (Server.cleanCompletion content)) "```")
    eqn:E; [|reflexivity].
  exfalso.
  destruct (selectQuery_part (Server.cleanCompletion content)) as [a [b Es]].
  apply (includes_part _ a b) in E. rewrite <- Es in E.
  unfold Server.cleanCompletion in E. cbv zeta in E.
  rewrite includes_trim in E; [discriminate|].
  apply replaceAll_no_fence. lia.
Qed.

End CleanFacts.

(** ** A condition on a column that is not there *)

Module WhereFacts.
Import JS Regex Spec StringFacts ConditionFacts.
Import Client.

Lemma find_nothing {A : Type} (p : A -> bool) (l : list A) :
  (forall x, In x l -> p x = false) -> List.find p l = None.
Proof.
  induction l as [|a l IH]; intros H; [reflexivity|]. cbn [List.find].
  rewrite (H a (or_introl eq_refl)). apply IH. intros x Hx. apply H. right. exact Hx.
Qed.

Lemma leftValue_unknown r lhs :
  (forall key, In key (keys r) ->
     toLowerCase key <> toLowerCase (trim (removeChars isBacktick lhs))) ->
  leftValue r lhs = VStr lhs.
Proof.
  intros H. unfold leftValue, find. cbv zeta. rewrite find_nothing; [reflexivity|].
  intros key Hkey. apply String.eqb_neq. apply H. exact Hkey.
Qed.

Lemma filter_constant {A : Type} (p : A -> bool) (b : bool) (l : list A) :
  (forall x, In x l -> p x = b) -> filter p l = if b then l else [].
Proof.
  induction l as [|a l IH]; intros H; [destruct b; reflexivity|].
  cbn [filter]. rewrite (H a (or_introl eq_refl)).
  rewrite IH by (intros x Hx; apply H; right; exact Hx).
  destruct b; reflexivity.
Qed.

End WhereFacts.

(** ** What the aggregation throws *)

Module RaiseFacts.
Import JS Regex Spec Client.

Lemma spread_outcome {A : Type} maxArguments (f : list number -> A) xs :
  spread maxArguments f xs =
  if Nat.ltb maxArguments (List.length xs) then Throw "RangeError" else Ok (f xs).
Proof. reflexivity. Qed.


End RaiseFacts.

(** ** Texts that are not blank *)

Module BlankFacts.
Import JS Regex Spec StringFacts SearchFacts TrimFacts HandlerFacts.

(** A text with a code unit that is no white space is not blank. *)
Lemma not_blank a x b : isSpace x = false -> trim (a ++ String x b) <> "".
Proof.
  intros Hx E. unfold trim in E.
  destruct (trimStart_nonspace (a ++ String x b)) as [E0|[c [t [E0 Hc]]]].
  - destruct (trimStart_split (a ++ String x b)) as [ws [Es H0]].
    rewrite E0, append_nil_r in Es. rewrite <- Es, countOf_app in H0.
    cbn [countOf] in H0. rewrite Hx in H0. cbn [negb] in H0. lia.
  - rewrite E0 in E. cbn [trimEnd] in E.
    destruct (trimEnd t); [rewrite Hc in E|]; discriminate E.
Qed.

Lemma marked_not_blank text c p :
  isSpace c = false ->
  includes (toLowerCase text) (String c p) = true -> trim text <> "".
Proof.
  intros Hc H. apply includes_app in H. destruct H as [a [b E]].
  unfold toLowerCase in E. apply smap_app_inv in E.
  destruct E as [a' [r [-> [_ Er]]]].
  destruct r as [|x r]; [discriminate Er|]. cbn [smap append] in Er.
  injection Er as Ex _. apply not_blank.
  apply (letter_not_space x c Ex Hc).
Qed.

End BlankFacts.

(** ** The model on the scenarios of the specification *)

Module Scenarios.
Import JS Spec Client.

(** Scenario A: a filter and a projection. *)
Example scenario_A :
  executeSQL
    [[("Country", VStr "Nepal"); ("Rank", VNum (ofZ 5))];
     [("Country", VStr "India"); ("Rank", VNum (ofZ 1))]]
    "SELECT `Country`,`Rank` FROM data WHERE `Country` = 'Nepal'" =
  Ok [[("Country", VStr "Nepal"); ("Rank", VNum (ofZ 5))]].
Proof. vm_compute. reflexivity. Qed.

(** Scenario C: two patterns of the table match. *)
Example scenario_C :
  Server.detectPromptInjection "'; DROP TABLE users; --" =
  ["SQL Comment Injection"; "SQL Injection Attack"].
Proof. vm_compute. reflexivity. Qed.

(** ORDER BY, LIMIT and an alias on a query without aggregate. *)
Example order_limit_alias :
  executeSQL
    [[("Country", VStr "Nepal"); ("Rank", VNum (ofZ 5))];
     [("Country", VStr "India"); ("Rank", VNum (ofZ 1))]]
    "SELECT `Country` as c, rank FROM data ORDER BY Rank DESC LIMIT 1" =
  Ok [[("c", VStr "Nepal"); ("Rank", VNum (ofZ 5))]].
Proof. vm_compute. reflexivity. Qed.

(** Numbers and their decimal notation, both ways. *)
Example numbers_to_strings :
  map (fun s => numberToString (stringToNumber s))
      ["0.1"; "1e21"; "123.456"; "5e-324"; "1.7976931348623157e308"; "1e23";
       "0.000001"; "1e-7"; " 100 "; "9007199254740993"; "-2.50"; "0x1F";
       ""; "-0"; "abc"; "12px"; ".5"; "Infinity"] =
  ["0.1"; "1e+21"; "123.456"; "5e-324"; "1.7976931348623157e+308"; "1e+23";
   "0.000001"; "1e-7"; "100"; "9007199254740992"; "-2.5"; "31";
   "0"; "0"; "NaN"; "NaN"; "0.5"; "Infinity"].
Proof. vm_compute. reflexivity. Qed.

Example sum_of_tenths :
  numberToString (add (stringToNumber "0.1") (stringToNumber "0.2")) =
  "0.30000000000000004".
Proof. vm_compute. reflexivity. Qed.

End Scenarios.

(** ** The properties of the specification *)

Import JS Regex Spec StringFacts RegexFacts ScanFacts ConditionFacts AggregateFacts.
Import Client.

(** *** C1: the aggregate short circuit *)

(** C1, counterexample.  A query with an aggregate token and no FROM clause
    throws; and ORDER BY is applied before the aggregation: on the rows
    1e16, -1e16, 1 the sum in the order of the dataset is 1, the interpreter
    sorts them first and returns 0. *)
Lemma aggregate_counterexample :
  hasAggregate "SELECT SUM(x)" = true /\
  executeSQL unordered "SELECT SUM(x)" = Throw "Invalid SQL: Missing FROM clause" /\
  hasAggregate "SELECT SUM(x) FROM data ORDER BY x" = true /\
  claimedAggregate unordered "SELECT SUM(x) FROM data ORDER BY x" =
    [[("SUM(x)", VNum (ofZ 1))]] /\
  executeSQL unordered "SELECT SUM(x) FROM data ORDER BY x" =
    Ok [[("SUM(x)", VNum posZero)]] /\
  executeSQL unordered "SELECT SUM(x) FROM data ORDER BY x" <>
    Ok (claimedAggregate unordered "SELECT SUM(x) FROM data ORDER BY x").
Proof. vm_compute. repeat split. discriminate. Qed.

(** C1, amended.  On every engine, for every dataset and every query text
    with a FROM clause and an aggregate token, the interpreter returns what
    [calculateAggregation] computes on the rows that the WHERE step leaves,
    once the ORDER BY step has gone over them; LIMIT and the projection are
    not applied.  And [SELECT COUNT( * ) as cnt FROM data ORDER BY Rank]
    returns the one row [{cnt: number of rows}] on every dataset. *)
Theorem aggregate_short_circuit (engine : ArraySort) (data : list row)
    (sqlQuery : string) :
  (hasAggregate sqlQuery = true ->
   exec fromRe sqlQuery <> None ->
   executeSQL data sqlQuery =
     Ok (calculateAggregation
           (handleOrderBy (whereRows data sqlQuery) sqlQuery) sqlQuery)) /\
  executeSQL data countQuery = Ok [[("cnt", VNum (ofNat (List.length data)))]].
Proof.
  split.
  - intros Hagg Hfrom. unfold executeSQL.
    destruct (exec fromRe sqlQuery); [|congruence].
    rewrite handleWhere_total. cbn [bind]. rewrite Hagg. reflexivity.
  - unfold executeSQL.
    assert (E1 : exec fromRe countQuery <> None) by (vm_compute; discriminate).
    destruct (exec fromRe countQuery); [clear E1|congruence].
    rewrite handleWhere_total. cbn [bind].
    replace (whereRows data countQuery) with data
      by (unfold whereRows;
          replace (includes (toLowerCase countQuery) "where") with false
            by (vm_compute; reflexivity);
          reflexivity).
    replace (hasAggregate countQuery) with true by (vm_compute; reflexivity).
    unfold calculateAggregation.
    replace (exec sumRe countQuery) with (@None matchResult)
      by (vm_compute; reflexivity).
    assert (E3 : exists cm, exec countRe countQuery = Some cm /\ group cm 2 = Some "cnt").
    { vm_compute. eexists. split; reflexivity. }
    destruct E3 as [cm [-> Hm]]. rewrite Hm. cbn [orStr].
    unfold handleOrderBy.
    replace (includes (toLowerCase countQuery) "order by") with true
      by (vm_compute; reflexivity).
    destruct (exec orderRe countQuery); [|reflexivity].
    rewrite <- (Permutation_length (sortWith_perm _ data)). reflexivity.
Qed.

(** C1, at an aggregate query with WHERE and LIMIT over the Sales rows:
    the average of the one row that passes, the LIMIT left aside. *)
Lemma aggregate_short_circuit_witness :
  executeSQL sales "SELECT AVG(Sales) FROM data WHERE Sales > 100 LIMIT 0" =
    Ok (calculateAggregation
          (handleOrderBy
             (whereRows sales "SELECT AVG(Sales) FROM data WHERE Sales > 100 LIMIT 0")
             "SELECT AVG(Sales) FROM data WHERE Sales > 100 LIMIT 0")
          "SELECT AVG(Sales) FROM data WHERE Sales > 100 LIMIT 0") /\
  executeSQL sales "SELECT AVG(Sales) FROM data WHERE Sales > 100 LIMIT 0" =
    Ok [[("AVG(Sales)", VNum (ofZ 200))]].
Proof.
  split; [|vm_compute; reflexivity].
  apply (aggregate_short_circuit insertionEngine sales
           "SELECT AVG(Sales) FROM data WHERE Sales > 100 LIMIT 0").
  - vm_compute. reflexivity.
  - vm_compute. discriminate.
Defined.

(** *** C2: the shape of the aggregation result *)

(** C2, counterexample.  [SUM(a+b)] and [count( * )] carry an aggregate
    token but none of the five expressions matches them, and the rows come
    back as they went in: three rows in one case, none in the other. *)
Lemma single_row_counterexample :
  hasAggregate "SELECT SUM(a+b) FROM data" = true /\
  calculateAggregation sales "SELECT SUM(a+b) FROM data" = sales /\
  List.length (calculateAggregation sales "SELECT SUM(a+b) FROM data") = 3 /\
  hasAggregate "SELECT count( * ) FROM data" = true /\
  calculateAggregation [] "SELECT count( * ) FROM data" = [] /\
  ~ (exists r, calculateAggregation sales "SELECT SUM(a+b) FROM data" = [r]) /\
  ~ (exists r, calculateAggregation [] "SELECT count( * ) FROM data" = [r]).
Proof.
  vm_compute. repeat split; try (intros [r H]; discriminate).
Qed.

(** C2, amended.  For every row list and every query text that one of the
    five aggregate expressions matches, the result of the aggregation
    engine is one row with one key, the alias when there is one and else
    the default alias of the function, and its value is a number; a query
    text that none of them matches gets its rows back as they are. *)
Theorem single_row_when_matched (results : list row) (sqlQuery : string) :
  (aggregateMatched sqlQuery = true ->
   exists key x,
     resultKey sqlQuery = Some key /\
     calculateAggregation results sqlQuery = [[(key, VNum x)]]) /\
  (aggregateMatched sqlQuery = false ->
   calculateAggregation results sqlQuery = results).
Proof.
  unfold aggregateMatched, resultKey, calculateAggregation, aliasOr.
  destruct (exec sumRe sqlQuery);
    [split; [intros _; eexists _, _; split; reflexivity | discriminate]|].
  destruct (exec countRe sqlQuery);
    [split; [intros _; eexists _, _; split; reflexivity | discriminate]|].
  destruct (exec avgRe sqlQuery);
    [split; [intros _; eexists _, _; split; reflexivity | discriminate]|].
  destruct (exec maxRe sqlQuery);
    [split; [intros _; eexists _, _; split; reflexivity | discriminate]|].
  destruct (exec minRe sqlQuery);
    [split; [intros _; eexists _, _; split; reflexivity | discriminate]|].
  split; [discriminate | reflexivity].
Qed.

(** C2, at MAX over the Sales rows, whose key is the default alias, and at
    a sum with an alias. *)
Lemma single_row_when_matched_witness :
  resultKey "SELECT MAX(`Sales`) FROM data" = Some "MAX(Sales)" /\
  resultKey "SELECT sum(Sales) AS total FROM data" = Some "total" /\
  exists key x,
    resultKey "SELECT MAX(`Sales`) FROM data" = Some key /\
    calculateAggregation sales "SELECT MAX(`Sales`) FROM data" = [[(key, VNum x)]].
Proof.
  split; [vm_compute; reflexivity|]. split; [vm_compute; reflexivity|].
  apply (single_row_when_matched sales "SELECT MAX(`Sales`) FROM data").
  vm_compute. reflexivity.
Defined.

(** *** C3: the relevance filter *)

(** C3, counterexample.  An entry whose sixth stored value is the only one
    the question contains is selected, where a check of the first five
    values would pass it over. *)
Lemma relevance_counterexample :
  claimedRelevant "rank of nepal" sixValues = false /\
  Server.relevantColumns "rank of nepal" (Some [sixValues]) = [sixValues] /\
  In sixValues (Server.relevantColumns "rank of nepal" (Some [sixValues])).
Proof. vm_compute. repeat split. left. reflexivity. Qed.

(** C3, amended.  For every question and every list of entries, an entry
    is selected if and only if it is in the list and the lower-cased
    question contains its lower-cased column name or, lower-cased, one of
    its stored distinct values: every stored value takes part, not the
    first five only. *)
Theorem relevance_all_values (question : string)
    (entries : list Server.vectorStoreEntry) (v : Server.vectorStoreEntry) :
  In v (Server.relevantColumns question (Some entries)) <->
  In v entries /\
  (includes (toLowerCase question) (toLowerCase (Server.column v)) = true \/
   exists val, In val (storedValues v) /\
     includes (toLowerCase question) (toLowerCase (toString val)) = true).
Proof.
  unfold Server.relevantColumns. rewrite filter_In.
  unfold Server.isRelevant, storedValues. rewrite orb_true_iff.
  destruct (Server.meta v) as [m|]; [destruct (Server.distinctValues m) as [vals|]|].
  - rewrite existsb_exists. tauto.
  - split; intros [H1 [H2 | H2]]; auto; [discriminate | destruct H2 as [? [[] _]]].
  - split; intros [H1 [H2 | H2]]; auto; [discriminate | destruct H2 as [? [[] _]]].
Qed.

(** C3, at the entry whose sixth value is the one the question names. *)
Lemma relevance_all_values_witness :
  In sixValues (Server.relevantColumns "rank of nepal" (Some [sixValues])).
Proof.
  apply (relevance_all_values "rank of nepal" [sixValues] sixValues).
  split; [left; reflexivity|].
  right. exists (VStr "Nepal"). split; [simpl; tauto | reflexivity].
Defined.

(** *** C4: the operands of a condition *)

(** C4, counterexample.  In [url = 'a=b'] the right operand stops at the
    second [=]; in [name = 'O'Brien'] the quote inside the value goes with
    the two around it. *)
Lemma condition_split_counterexample :
  firstOperator "url = 'a=b'" = Some "=" /\
  claimedOperands "url = 'a=b'" "=" = Some ("url", "a=b") /\
  evaluatorOperands "url = 'a=b'" "=" = Some ("url", "a") /\
  firstOperator "name = 'O'Brien'" = Some "=" /\
  claimedOperands "name = 'O'Brien'" "=" = Some ("name", "O'Brien") /\
  evaluatorOperands "name = 'O'Brien'" "=" = Some ("name", "OBrien") /\
  evaluatorOperands "url = 'a=b'" "=" <> claimedOperands "url = 'a=b'" "=" /\
  evaluatorOperands "name = 'O'Brien'" "=" <>
    claimedOperands "name = 'O'Brien'" "=".
Proof. vm_compute. repeat split; discriminate. Qed.

(** C4, amended.  For every condition text in which an operator occurs,
    with [op] the first of the priority list that does and [i] the place of
    its first occurrence: the left operand is the trimmed text before [i];
    when [op] does not occur again behind it, the right operand is all the
    trimmed text behind it; every row is compared through these operands,
    the right one with every single and double quote removed, at either
    end or inside, and nothing else. *)
Theorem condition_split (condition op : string) :
  firstOperator condition = Some op ->
  exists i rhs,
    indexOf condition op = Some i /\
    operands condition op = (trim (take i condition), Some rhs) /\
    (includes (drop (i + String.length op) condition) op = false ->
     rhs = trim (drop (i + String.length op) condition)) /\
    (forall r, exists b,
       compareWith op (leftValue r (trim (take i condition))) (rightValue rhs) = Some b /\
       evaluateCondition r condition = Ok b) /\
    (forall a c b, isQuote c = true ->
       rightValue (a ++ String c b) = rightValue (a ++ b)) /\
    (forall s, noneOf isQuote s = true -> rightValue s = s).
Proof.
  intros H. destruct (firstOperator_operands _ _ H) as [i [Hi Ho]].
  exists i, (trim (upToNext (drop (i + String.length op) condition) op)).
  split; [exact Hi|]. split; [exact Ho|]. split; [|split; [|split]].
  - intros Hn. rewrite upToNext_once; [reflexivity | exact Hn].
  - intros r. apply (evaluateCondition_first r _ _ _ _ H Ho).
  - intros a c b Hc. unfold rightValue. rewrite !removeChars_app. simpl.
    rewrite Hc. reflexivity.
  - intros s. apply removeChars_noneOf.
Qed.

(** C4, at a condition with one operator. *)
Lemma condition_split_witness :
  exists i rhs,
    indexOf "`Rank` >= 5" ">=" = Some i /\
    operands "`Rank` >= 5" ">=" = (trim (take i "`Rank` >= 5"), Some rhs).
Proof.
  destruct (condition_split "`Rank` >= 5" ">=" eq_refl) as [i [rhs [Hi [Ho _]]]].
  exists i, rhs. split; [exact Hi | exact Ho].
Defined.

(** *** C5: comparisons with not-a-number, and no operator *)

(** C5.  For every row and condition text the evaluator returns a boolean
    and never throws; when the operator it stops at is one of [>], [<],
    [>=], [<=] and the numeric coercion of the left value or of the right
    value is NaN, it returns false; and when no operator of the priority
    list occurs in the text, it returns true. *)
Theorem condition_nan_and_no_operator (r : row) (condition : string) :
  (exists b, evaluateCondition r condition = Ok b) /\
  (forall op lhs rhs,
     firstOperator condition = Some op ->
     In op [">"; "<"; ">="; "<="] ->
     operands condition op = (lhs, Some rhs) ->
     isNaN (toNumber (leftValue r lhs)) = true \/
     isNaN (stringToNumber (rightValue rhs)) = true ->
     evaluateCondition r condition = Ok false) /\
  ((forall op, In op operators -> includes condition op = false) ->
   evaluateCondition r condition = Ok true).
Proof.
  split; [apply evaluateCondition_total|]. split.
  - intros op lhs rhs Hf Hop Ho Hnan.
    destruct (evaluateCondition_first r _ _ _ _ Hf Ho) as [b [Hc He]].
    rewrite He. f_equal.
    simpl in Hop.
    destruct Hop as [<- | [<- | [<- | [<- | []]]]];
      [ change (Some (lt (stringToNumber (rightValue rhs)) (toNumber (leftValue r lhs))) = Some b) in Hc
      | change (Some (lt (toNumber (leftValue r lhs)) (stringToNumber (rightValue rhs))) = Some b) in Hc
      | change (Some (le (stringToNumber (rightValue rhs)) (toNumber (leftValue r lhs))) = Some b) in Hc
      | change (Some (le (toNumber (leftValue r lhs)) (stringToNumber (rightValue rhs))) = Some b) in Hc ];
      injection Hc as <-; destruct Hnan as [Hn | Hn];
      first [apply lt_nan_l; exact Hn | apply lt_nan_r; exact Hn
            | apply le_nan_l; exact Hn | apply le_nan_r; exact Hn].
  - intros Hn. apply evaluateCondition_none.
    unfold firstOperator. destruct (List.find _ operators) as [op|] eqn:E; [|reflexivity].
    apply find_some in E. destruct E as [Hin Hinc].
    rewrite (Hn op Hin) in Hinc. discriminate.
Qed.

(** C5, at a comparison with a word and at a text without operator. *)
Lemma condition_nan_and_no_operator_witness :
  evaluateCondition [("Rank", VNum (ofZ 5))] "`Rank` > abc" = Ok false /\
  evaluateCondition [("Rank", VNum (ofZ 5))] "Rank is high" = Ok true.
Proof.
  pose proof (condition_nan_and_no_operator [("Rank", VNum (ofZ 5))] "`Rank` > abc")
    as [_ [H1 _]].
  pose proof (condition_nan_and_no_operator [("Rank", VNum (ofZ 5))] "Rank is high")
    as [_ [_ H2]].
  split.
  - apply (H1 ">" "`Rank`" "abc"); [reflexivity | simpl; tauto | reflexivity |].
    right. reflexivity.
  - apply H2. intros op Hop. simpl in Hop.
    destruct Hop as [<- | [<- | [<- | [<- | [<- | [<- | [<- | []]]]]]]]; reflexivity.
Defined.

(** *** C6: values that are not numbers *)




(** *** C7: the query must start with SELECT *)

(** C7, counterexample.  [SELECT*FROM data] starts with SELECT, and so does
    a text with white space before it once trimmed, yet the validator
    reports that the query must start with SELECT. *)
Lemma select_prefix_counterexample :
  claimedStartsWithSelect "SELECT*FROM data" = true /\
  In "Query must start with SELECT" (Server.validateSQLGrammar "SELECT*FROM data") /\
  claimedStartsWithSelect "  SELECT * FROM data" = true /\
  In "Query must start with SELECT" (Server.validateSQLGrammar "  SELECT * FROM data") /\
  ~ (In "Query must start with SELECT" (Server.validateSQLGrammar "SELECT*FROM data") <->
     claimedStartsWithSelect "SELECT*FROM data" = false).
Proof.
  assert (H : In "Query must start with SELECT"
                 (Server.validateSQLGrammar "SELECT*FROM data"))
    by (vm_compute; tauto).
  repeat split; try (vm_compute; tauto).
  intros [Hto _]. specialize (Hto H). vm_compute in Hto. discriminate.
Qed.

(** C7, amended.  For every query text the validator reports that the
    query must start with SELECT if and only if the text as given, not
    trimmed, does not begin with SELECT (in any case) followed by a white
    space; and on [SELECT * ] it returns the one error "Missing FROM
    clause". *)
Theorem select_prefix (sql : string) :
  (In "Query must start with SELECT" (Server.validateSQLGrammar sql) <->
   startsWithSelectSpace sql = false) /\
  Server.validateSQLGrammar "SELECT * " = ["Missing FROM clause"].
Proof.
  split; [|vm_compute; reflexivity].
  rewrite <- selectStart_test. apply validate_select.
Qed.

(** C7, at a text that starts with SELECT and has no white space behind it. *)
Lemma select_prefix_witness :
  In "Query must start with SELECT" (Server.validateSQLGrammar "SELECTED rows").
Proof.
  apply (select_prefix "SELECTED rows"). reflexivity.
Defined.

(** *** C8: dangerous operations behind WHERE *)

(** C8.  On a text without a line terminator the validator reports a
    dangerous operation if and only if one of DROP, DELETE, INSERT, UPDATE,
    CREATE, ALTER (in any case) occurs somewhere behind a WHERE, and on no
    text does it report one that is not there; but a carriage return or a
    line feed between the WHERE and the DROP hides it, and the text passes
    every check. *)
Theorem dangerous_on_one_line :
  (forall sql, noneOf isLineTerminator sql = true ->
     (In "Dangerous SQL operation detected" (Server.validateSQLGrammar sql) <->
      dangerousAfterWhere sql)) /\
  (forall sql, In "Dangerous SQL operation detected" (Server.validateSQLGrammar sql) ->
     dangerousAfterWhere sql) /\
  dangerousAfterWhere dropBehindBreak /\
  Server.validateSQLGrammar dropBehindBreak = [] /\
  Server.validateSQLGrammar ("SELECT * FROM t WHERE a = 1" ++ LF ++ "DROP TABLE t") = [] /\
  Server.validateSQLGrammar "SELECT * FROM t WHERE a = 1 DROP TABLE t" =
    ["Dangerous SQL operation detected"].
Proof.
  split; [|split; [|split; [|split; [|split]]]].
  - intros sql HL. rewrite validate_dangerous. split.
    + apply dangerous_sound.
    + apply dangerous_complete. exact HL.
  - intros sql H. apply dangerous_sound. apply validate_dangerous. exact H.
  - exists "SELECT * FROM t ", "WHERE", (" a = 1" ++ CR ++ "DROP TABLE t"), "drop".
    repeat split; [simpl; tauto].
  - vm_compute. reflexivity.
  - vm_compute. reflexivity.
  - vm_compute. reflexivity.
Qed.

(** C8, at a column name that contains UPDATE, on one line. *)
Lemma dangerous_on_one_line_witness :
  In "Dangerous SQL operation detected"
     (Server.validateSQLGrammar "SELECT * FROM t WHERE updated_at = 1").
Proof.
  destruct dangerous_on_one_line as [H _].
  apply H; [reflexivity|].
  exists "SELECT * FROM t ", "WHERE", " updated_at = 1", "update".
  repeat split; [simpl; tauto].
Defined.

(** *** C9: the two copies of the scanner *)

(** C9.  For every input text the scan of the client and the scan of the
    server return the same threats, in the same order. *)
Theorem scan_copies_agree (text : string) :
  Client.detectPromptInjection text = Server.detectPromptInjection text.
Proof. reflexivity. Qed.

(** *** C10: words that contain exec, eval or script *)

(** C10.  For every text whose lower-cased form contains [exec], [eval] or
    [script], inside a word or not, both scans return the Code Execution
    threat, and the whole request is refused before any call of the model:
    the handler of the server answers with the security violation and the
    threats of the scan, whatever the vector store is and whatever the
    model would complete; and the client, with a schema loaded, shows the
    security alert with the threats of the scan and sends nothing,
    whatever the endpoint would answer. *)
Theorem code_execution_flagged (text : string) :
  includes (toLowerCase text) "exec" = true \/
  includes (toLowerCase text) "eval" = true \/
  includes (toLowerCase text) "script" = true ->
  In "Code Execution Attempt" (Client.detectPromptInjection text) /\
  In "Code Execution Attempt" (Server.detectPromptInjection text) /\
  (forall vectorStore completion,
     Server.generateSQL (Some text) vectorStore completion =
     Server.SecurityViolation (Server.detectPromptInjection text)) /\
  (forall (engine : ArraySort) post failure schema data vectorStore,
     handleSendMessage post failure text schema data vectorStore =
     if schema then SecurityAlert (Client.detectPromptInjection text)
     else NoReply).
Proof.
  intros H.
  assert (Hblank : trim text <> "").
  { destruct H as [H|[H|H]].
    - apply (BlankFacts.marked_not_blank text "e" "xec" eq_refl H).
    - apply (BlankFacts.marked_not_blank text "e" "val" eq_refl H).
    - apply (BlankFacts.marked_not_blank text "s" "cript" eq_refl H). }
  apply codeExecution_test in H.
  assert (Hc : In "Code Execution Attempt" (Client.detectPromptInjection text)).
  { apply detect_In. right. exists codeExecution. split; [simpl; tauto | exact H]. }
  assert (Hs : In "Code Execution Attempt" (Server.detectPromptInjection text)).
  { apply detect_In. right. exists codeExecution. split; [simpl; tauto | exact H]. }
  split; [exact Hc|]. split; [exact Hs|]. split.
  - intros vectorStore completion. unfold Server.generateSQL.
    destruct text as [|c text]; [exfalso; apply Hblank; reflexivity|].
    cbv zeta.
    destruct (Server.detectPromptInjection (String c text)); [destruct Hs|].
    reflexivity.
  - intros engine post failure schema data vectorStore.
    unfold handleSendMessage.
    apply String.eqb_neq in Hblank. unfold strEq. rewrite Hblank. cbn [orb].
    destruct schema; cbn [negb]; [|reflexivity].
    unfold securityAlert. cbv zeta.
    destruct (Client.detectPromptInjection text); [destruct Hc|reflexivity].
Qed.

(** C10, at a question about descriptions and executives. *)
Lemma code_execution_flagged_witness :
  In "Code Execution Attempt"
     (Client.detectPromptInjection "Show the description of each executive") /\
  In "Code Execution Attempt"
     (Server.detectPromptInjection "Show the description of each executive") /\
  (forall vectorStore completion,
     Server.generateSQL (Some "Show the description of each executive")
       vectorStore completion =
     Server.SecurityViolation
       (Server.detectPromptInjection "Show the description of each executive")) /\
  (forall (engine : ArraySort) post failure schema data vectorStore,
     handleSendMessage post failure "Show the description of each executive"
       schema data vectorStore =
     if schema
     then SecurityAlert
            (Client.detectPromptInjection "Show the description of each executive")
     else NoReply).
Proof.
  apply (code_execution_flagged "Show the description of each executive").
  left. reflexivity.
Defined.

(** * Further properties of the code

    Properties of the scanner, the validator, the interpreter, the vector
    store, the request handler and the names of an uploaded file that the
    specification does not state. *)

Import MatchFacts ReportFacts SearchFacts ValidatorFacts InterpreterFacts
       OrderFacts SetFacts TrimFacts HandlerFacts NameFacts UploadFacts
       FenceFacts CompletionFacts CleanFacts WhereFacts.

(** X1.  The two expressions of the scan that are written without the [i]
    flag are plain substring tests: the scan lists the comment injection
    exactly for a text that contains one of the four comment marks, and the
    template injection exactly for a text that contains one of the three
    template openers. *)
Theorem comment_and_template_marks (q : string) :
  (In "SQL Comment Injection" (Server.detectPromptInjection q) <->
   includes q "/*" = true \/ includes q "*/" = true \/
   includes q "--" = true \/ includes q "#" = true) /\
  (In "Template Injection" (Server.detectPromptInjection q) <->
   includes q "${" = true \/ includes q "{{" = true \/ includes q "<%" = true).
Proof.
  split.
  - rewrite (detect_threat q _ (alts (map lit ["/*"; "*/"; "--"; "#"])));
      [|cbn; tauto|only_entry].
    rewrite test_lits by discriminate. cbn [existsb].
    rewrite !orb_true_iff. intuition discriminate.
  - rewrite (detect_threat q _ (alts (map lit ["${"; "{{"; "<%"])));
      [|cbn; tauto|only_entry].
    rewrite test_lits by discriminate. cbn [existsb].
    rewrite !orb_true_iff. intuition discriminate.
Qed.

(** X2.  The scan of the server and the scan of the client list the XSS
    injection exactly for a text whose lower-cased form contains [<script],
    [javascript:] or [onerror=]. *)
Theorem xss_marks (q : string) :
  let marked :=
    includes (toLowerCase q) "<script" = true \/
    includes (toLowerCase q) "javascript:" = true \/
    includes (toLowerCase q) "onerror=" = true in
  (In "XSS Injection Attempt" (Server.detectPromptInjection q) <-> marked) /\
  (In "XSS Injection Attempt" (Client.detectPromptInjection q) <-> marked).
Proof.
  cbv zeta.
  change (Client.detectPromptInjection q) with (Server.detectPromptInjection q).
  assert (H : In "XSS Injection Attempt" (Server.detectPromptInjection q) <->
    includes (toLowerCase q) "<script" = true \/
    includes (toLowerCase q) "javascript:" = true \/
    includes (toLowerCase q) "onerror=" = true).
  { rewrite (detect_threat q _
               (alts (map liti ["<script"; "javascript:"; "onerror="])));
      [|cbn; tauto|only_entry].
    rewrite test_litis by discriminate. cbn [existsb].
    change (toLowerCase "<script") with "<script".
    change (toLowerCase "javascript:") with "javascript:".
    change (toLowerCase "onerror=") with "onerror=".
    rewrite !orb_true_iff. intuition discriminate. }
  split; exact H.
Qed.

(** X3.  The scan of the server and the scan of the client list the code
    execution attempt only for a text whose lower-cased form contains
    [exec], [eval] or [script], and for each such text: the word [execute]
    of the expression adds nothing to [exec]. *)
Theorem code_execution_marks (q : string) :
  let marked :=
    includes (toLowerCase q) "exec" = true \/
    includes (toLowerCase q) "eval" = true \/
    includes (toLowerCase q) "script" = true in
  (In "Code Execution Attempt" (Server.detectPromptInjection q) <-> marked) /\
  (In "Code Execution Attempt" (Client.detectPromptInjection q) <-> marked).
Proof.
  cbv zeta.
  change (Client.detectPromptInjection q) with (Server.detectPromptInjection q).
  assert (H : In "Code Execution Attempt" (Server.detectPromptInjection q) <->
    includes (toLowerCase q) "exec" = true \/
    includes (toLowerCase q) "eval" = true \/
    includes (toLowerCase q) "script" = true).
  { rewrite (detect_threat q _
               (Group 1 (alts (map liti ["exec"; "execute"; "eval"; "script"]))));
      [|cbn; tauto|only_entry].
    rewrite test_group, test_litis by discriminate. cbn [existsb].
    change (toLowerCase "exec") with "exec".
    change (toLowerCase "execute") with "execute".
    change (toLowerCase "eval") with "eval".
    change (toLowerCase "script") with "script".
    rewrite !orb_true_iff.
    assert (Hx : includes (toLowerCase q) "execute" = true ->
                 includes (toLowerCase q) "exec" = true).
    { intros H. apply includes_app in H. destruct H as [a [b E]].
      apply includes_app. exists a, ("ute" ++ b). rewrite E. reflexivity. }
    intuition discriminate. }
  split; exact H.
Qed.

(** X4.  For every text the scan lists no threat twice, and what it lists
    are names of the table of nine, in the order of the table. *)
Theorem scan_report_shape (q : string) :
  NoDup (Server.detectPromptInjection q) /\
  subsequence (Server.detectPromptInjection q) threatNames = true /\
  List.length (Server.detectPromptInjection q) <= 9.
Proof.
  unfold Server.detectPromptInjection. rewrite detect_filter. cbn [app].
  split; [|split].
  - apply NoDup_filter_map. cbn.
    repeat (constructor; [cbn; intuition discriminate|]). constructor.
  - apply (subsequence_filter (fun pt => test (fst pt) q) Server.suspiciousPatterns).
  - rewrite length_map.
    etransitivity; [apply filter_length_le|]. reflexivity.
Qed.

(** X5.  For every text the validator reports unbalanced backticks exactly
    when the number of backticks in the text is odd. *)
Theorem unbalanced_backticks_parity (sql : string) :
  In "Unbalanced backticks" (Server.validateSQLGrammar sql) <->
  Nat.odd (countOf (Ascii.eqb "`") sql) = true.
Proof. apply validate_backticks. Qed.

(** X6.  On every engine, for every dataset and every query text, the
    interpreter of the client throws its missing FROM error exactly when the
    validator of the server reports the missing FROM clause; so a text the
    validator accepts is never refused by the interpreter for its FROM
    clause. *)
Theorem missing_from_agreement (engine : ArraySort) (data : list row)
    (sql : string) :
  (executeSQL data sql = Throw "Invalid SQL: Missing FROM clause" <->
   In "Missing FROM clause" (Server.validateSQLGrammar sql)) /\
  (Server.validateSQLGrammar sql = [] ->
   executeSQL data sql <> Throw "Invalid SQL: Missing FROM clause").
Proof.
  assert (E : executeSQL data sql = Throw "Invalid SQL: Missing FROM clause" <->
              In "Missing FROM clause" (Server.validateSQLGrammar sql)).
  { rewrite validate_from, executeSQL_from, test_from.
    destruct (test Server.fromClause sql); split; congruence. }
  split; [exact E|].
  intros Hv Ht. apply E in Ht. rewrite Hv in Ht. destruct Ht.
Qed.

Lemma missing_from_agreement_witness :
  Server.validateSQLGrammar "SELECT `a` FROM t WHERE `a` > 1" = [] /\
  @executeSQL insertionEngine [[("a", VNum (ofZ 2))]] "SELECT `a` FROM t WHERE `a` > 1"
    <> Throw "Invalid SQL: Missing FROM clause".
Proof.
  split; [vm_compute; reflexivity|].
  apply (missing_from_agreement insertionEngine). vm_compute. reflexivity.
Defined.

(** X7.  On every engine, a query without aggregate token returns as many
    rows as pass its WHERE filter, never more than the dataset has, and with
    a LIMIT the smaller of that number and the number behind LIMIT: neither
    ORDER BY nor the column list changes the number of rows. *)
Theorem row_count (engine : ArraySort) (data : list row) (sql : string)
    (rows : list row) :
  hasAggregate sql = false ->
  executeSQL data sql = Ok rows ->
  List.length (whereRows data sql) <= List.length data /\
  match exec limitRe sql with
  | Some m =>
      List.length rows =
      Nat.min (Z.to_nat (parseInt (capture m 1)))
              (List.length (whereRows data sql))
  | None => List.length rows = List.length (whereRows data sql)
  end.
Proof.
  intros Hagg E. rewrite executeSQL_from, Hagg in E.
  destruct (test fromRe sql); [|discriminate]. injection E as <-.
  split; [apply whereRows_length|].
  rewrite handleSelect_length. unfold handleLimit.
  pose proof (Permutation_length (handleOrderBy_perm (whereRows data sql) sql)) as P.
  destruct (exec limitRe sql).
  - rewrite slice0_length, <- P. reflexivity.
  - symmetry. exact P.
Qed.

Lemma row_count_witness :
  List.length (whereRows sales "SELECT * FROM data WHERE Sales > 50 ORDER BY Sales DESC LIMIT 1") <= 3 /\
  exists m,
    exec limitRe "SELECT * FROM data WHERE Sales > 50 ORDER BY Sales DESC LIMIT 1" = Some m /\
    1 = Nat.min (Z.to_nat (parseInt (capture m 1)))
          (List.length (whereRows sales "SELECT * FROM data WHERE Sales > 50 ORDER BY Sales DESC LIMIT 1")).
Proof.
  pose proof (row_count insertionEngine sales
                "SELECT * FROM data WHERE Sales > 50 ORDER BY Sales DESC LIMIT 1"
                [[("Sales", VNum (ofZ 200))]]
                ltac:(vm_compute; reflexivity) ltac:(vm_compute; reflexivity)) as [H1 H2].
  split; [exact H1|].
  destruct (exec limitRe _) as [m|] eqn:E; [|vm_compute in E; discriminate E].
  exists m. split; [reflexivity|exact H2].
Defined.

(** X8.  On every engine, every row that a query without aggregate token
    returns is made of a row of the dataset that passes the WHERE filter:
    it is that row, for a query without column list or with [SELECT *],
    and else its projection on the columns that the column list of the
    query names.  The interpreter invents no row. *)
Theorem returned_rows_come_from_data (engine : ArraySort) (data : list row)
    (sql : string) (rows : list row) :
  hasAggregate sql = false ->
  executeSQL data sql = Ok rows ->
  forall out, In out rows ->
  exists r, In r data /\ In r (whereRows data sql) /\
            out = match selectedColumns sql with
                  | Some columns => project columns r
                  | None => r
                  end.
Proof.
  intros Hagg E out Hout. rewrite executeSQL_from, Hagg in E.
  destruct (test fromRe sql); [|discriminate]. injection E as <-.
  rewrite handleSelect_selection in Hout. apply in_map_iff in Hout.
  destruct Hout as [r [<- Hr]]. exists r.
  apply handleLimit_incl in Hr.
  apply (Permutation_in _ (Permutation_sym (handleOrderBy_perm _ sql))) in Hr.
  split; [eapply whereRows_incl; exact Hr|]. split; [exact Hr|reflexivity].
Qed.

Lemma returned_rows_come_from_data_witness :
  exists r, In r sales /\
            In r (whereRows sales "SELECT `sales` as s FROM data WHERE Sales > 150") /\
            [("s", VNum (ofZ 200))] =
            match selectedColumns "SELECT `sales` as s FROM data WHERE Sales > 150" with
            | Some columns => project columns r
            | None => r
            end.
Proof.
  apply (returned_rows_come_from_data insertionEngine sales
           "SELECT `sales` as s FROM data WHERE Sales > 150"
           [[("s", VNum (ofZ 200))]]).
  - vm_compute. reflexivity.
  - vm_compute. reflexivity.
  - left. reflexivity.
Defined.

(** X9.  For every list of selected columns and every row, each cell of the
    projected row holds the value that the row has under an own key which
    is a selected name up to case, under the alias of that column or under
    that key; each selected column that stands for an own key of the row
    has its cell, unless the cell would be named [__proto__]; and every
    key of the projected row is the alias or the key of such a column.  A
    selected column the row lacks gives no cell, and a column whose alias
    is [__proto__] gives none in a row of its own, the assignment going to
    the setter of the prototype. *)
Theorem projection_cells (columns : list (string * option string)) (r : row) :
  (forall k v, In (k, v) (project columns r) ->
     exists original alias,
       In (original, alias) columns /\
       In (actualColumn r original) (keys r) /\
       toLowerCase (actualColumn r original) = toLowerCase original /\
       k = orStr alias (actualColumn r original) /\
       v = get r (actualColumn r original)) /\
  (forall original alias,
     In (original, alias) columns ->
     hasOwnProperty r (actualColumn r original) = true ->
     orStr alias (actualColumn r original) <> "__proto__" ->
     hasOwnProperty (project columns r)
       (orStr alias (actualColumn r original)) = true) /\
  (forall k, hasOwnProperty (project columns r) k = true ->
     exists original alias,
       In (original, alias) columns /\
       hasOwnProperty r (actualColumn r original) = true /\
       k = orStr alias (actualColumn r original)) /\
  (forall original, project [(original, Some "__proto__")] r = []).
Proof.
  split; [|split; [|split]].
  - intros k v H. apply (project_cells columns r ([], true) k v) in H.
    destruct H as [[]|[o [a [Hin [Ho [Hk Hv]]]]]].
    destruct (actualColumn_own r o Ho) as [Hkey Hlow].
    exists o, a. auto.
  - intros original alias Hin Ho Hk.
    apply (project_makes columns r original alias ([], true)); assumption.
  - intros k H. apply hasOwnProperty_In, In_keys in H. destruct H as [v H].
    apply (project_cells columns r ([], true) k v) in H.
    destruct H as [[]|[o [a [Hin [Ho [Hk Hv]]]]]]. exists o, a. auto.
  - intros original. unfold project. cbn [fold_left].
    fold (actualColumn r original).
    destruct (hasOwnProperty r (actualColumn r original)); reflexivity.
Qed.

Lemma projection_cells_witness :
  hasOwnProperty
    (project [("country", Some "c"); ("Missing", None)]
             [("Country", VStr "Nepal"); ("Rank", VNum (ofZ 3))])
    (orStr (Some "c")
           (actualColumn [("Country", VStr "Nepal"); ("Rank", VNum (ofZ 3))] "country"))
  = true.
Proof.
  apply (projection_cells [("country", Some "c"); ("Missing", None)]
           [("Country", VStr "Nepal"); ("Rank", VNum (ofZ 3))]).
  - left. reflexivity.
  - vm_compute. reflexivity.
  - vm_compute. discriminate.
Defined.

(** X10.  On every engine, a query with a FROM clause that one of the five
    aggregate expressions matches returns one row with one cell, the
    aggregate over the rows that pass the WHERE filter as ORDER BY left
    them; LIMIT and the column list are not applied. *)
Theorem matched_aggregate_one_row (engine : ArraySort) (data : list row)
    (sql : string) :
  test fromRe sql = true ->
  aggregateMatched sql = true ->
  exists key x,
    resultKey sql = Some key /\
    executeSQL data sql = Ok [[(key, VNum x)]] /\
    calculateAggregation (handleOrderBy (whereRows data sql) sql) sql =
      [[(key, VNum x)]].
Proof.
  intros Hfrom Hm. rewrite executeSQL_from, Hfrom.
  rewrite (matched_hasAggregate sql Hm).
  generalize (handleOrderBy (whereRows data sql) sql). intros results.
  revert Hm. unfold aggregateMatched, resultKey, calculateAggregation, aliasOr.
  destruct (exec sumRe sql); [intros _; eexists _, _; repeat split; reflexivity|].
  destruct (exec countRe sql); [intros _; eexists _, _; repeat split; reflexivity|].
  destruct (exec avgRe sql); [intros _; eexists _, _; repeat split; reflexivity|].
  destruct (exec maxRe sql); [intros _; eexists _, _; repeat split; reflexivity|].
  destruct (exec minRe sql); [intros _; eexists _, _; repeat split; reflexivity|].
  discriminate.
Qed.

Lemma matched_aggregate_one_row_witness :
  exists key x,
    resultKey "SELECT Sales, MAX(Sales) FROM data LIMIT 0" = Some key /\
    @executeSQL insertionEngine sales "SELECT Sales, MAX(Sales) FROM data LIMIT 0"
      = Ok [[(key, VNum x)]] /\
    calculateAggregation
      (@handleOrderBy insertionEngine
         (whereRows sales "SELECT Sales, MAX(Sales) FROM data LIMIT 0")
         "SELECT Sales, MAX(Sales) FROM data LIMIT 0")
      "SELECT Sales, MAX(Sales) FROM data LIMIT 0" = [[(key, VNum x)]].
Proof.
  apply (matched_aggregate_one_row insertionEngine sales
           "SELECT Sales, MAX(Sales) FROM data LIMIT 0");
    vm_compute; reflexivity.
Defined.

(** X11.  On every engine, COUNT counts rows: when the COUNT expression
    matches a query with a FROM clause and the SUM expression does not, the
    result is the number of rows that pass the WHERE filter, whatever the
    column named in the parentheses holds and whatever ORDER BY or LIMIT
    the text has. *)
Theorem count_counts_rows (engine : ArraySort) (data : list row)
    (sql : string) (m : matchResult) :
  test fromRe sql = true ->
  exec sumRe sql = None ->
  exec countRe sql = Some m ->
  executeSQL data sql =
  Ok [[(orStr (group m 2) "COUNT",
        VNum (ofNat (List.length (whereRows data sql))))]].
Proof.
  intros Hfrom Hsum Hcount. rewrite executeSQL_from, Hfrom.
  rewrite matched_hasAggregate.
  2:{ unfold aggregateMatched. rewrite Hcount. cbn [isSome].
      rewrite orb_true_r. reflexivity. }
  unfold calculateAggregation. rewrite Hsum, Hcount.
  rewrite <- (Permutation_length (handleOrderBy_perm (whereRows data sql) sql)).
  reflexivity.
Qed.

Lemma count_counts_rows_witness :
  exists m,
    exec countRe "SELECT COUNT(`Missing`) FROM data WHERE Sales >= 100 ORDER BY Sales LIMIT 1" = Some m /\
    @executeSQL insertionEngine sales
      "SELECT COUNT(`Missing`) FROM data WHERE Sales >= 100 ORDER BY Sales LIMIT 1" =
    Ok [[(orStr (group m 2) "COUNT",
          VNum (ofNat (List.length
                   (whereRows sales
                      "SELECT COUNT(`Missing`) FROM data WHERE Sales >= 100 ORDER BY Sales LIMIT 1"))))]].
Proof.
  destruct (exec countRe "SELECT COUNT(`Missing`) FROM data WHERE Sales >= 100 ORDER BY Sales LIMIT 1")
    as [m|] eqn:E; [|vm_compute in E; discriminate E].
  exists m. split; [reflexivity|].
  apply (count_counts_rows insertionEngine sales _ m);
    [vm_compute; reflexivity | vm_compute; reflexivity | exact E].
Defined.

(** X12.  On every engine, when no row passes the WHERE filter of a query
    with a FROM clause, the first of the aggregate expressions that matches
    decides the one cell of the result: SUM gives 0, COUNT gives 0, AVG
    gives NaN, MAX gives -Infinity and MIN gives +Infinity. *)
Theorem aggregate_of_no_rows (engine : ArraySort) (data : list row)
    (sql : string) :
  test fromRe sql = true ->
  whereRows data sql = [] ->
  aggregateMatched sql = true ->
  exists key,
    resultKey sql = Some key /\
    executeSQL data sql =
    Ok [[(key,
          VNum (if isSome (exec sumRe sql) then posZero
                else if isSome (exec countRe sql) then posZero
                else if isSome (exec avgRe sql) then NaN
                else if isSome (exec maxRe sql) then S754_infinity true
                else S754_infinity false))]].
Proof.
  intros Hfrom Hnone Hm. rewrite executeSQL_from, Hfrom.
  rewrite (matched_hasAggregate sql Hm). rewrite Hnone.
  assert (E : handleOrderBy [] sql = []).
  { apply Permutation_nil. apply handleOrderBy_perm. }
  rewrite E. clear E.
  revert Hm. unfold aggregateMatched, resultKey, calculateAggregation, aliasOr, isSome.
  destruct (exec sumRe sql); [intros _; eexists; split; reflexivity|].
  destruct (exec countRe sql); [intros _; eexists; split; reflexivity|].
  destruct (exec avgRe sql); [intros _; eexists; split; reflexivity|].
  destruct (exec maxRe sql); [intros _; eexists; split; reflexivity|].
  destruct (exec minRe sql); [intros _; eexists; split; reflexivity|].
  discriminate.
Qed.

Lemma aggregate_of_no_rows_witness :
  exists key,
    resultKey "SELECT AVG(Sales) FROM data WHERE Sales > 1000" = Some key /\
    @executeSQL insertionEngine sales "SELECT AVG(Sales) FROM data WHERE Sales > 1000" =
    Ok [[(key,
          VNum (if isSome (exec sumRe "SELECT AVG(Sales) FROM data WHERE Sales > 1000") then posZero
                else if isSome (exec countRe "SELECT AVG(Sales) FROM data WHERE Sales > 1000") then posZero
                else if isSome (exec avgRe "SELECT AVG(Sales) FROM data WHERE Sales > 1000") then NaN
                else if isSome (exec maxRe "SELECT AVG(Sales) FROM data WHERE Sales > 1000") then S754_infinity true
                else S754_infinity false))]].
Proof.
  apply (aggregate_of_no_rows insertionEngine sales
           "SELECT AVG(Sales) FROM data WHERE Sales > 1000");
    vm_compute; reflexivity.
Defined.

(** X13.  For every non-empty row list and every query text whose first
    matching aggregate expression is the one of MAX, the cell of the result
    is the coerced value of one of the rows and no row has a larger one;
    with the one of MIN it is the coerced value of one of the rows and no
    row has a smaller one.  The coerced value of a row is the number of its
    cell, 0 where that is NaN. *)
Theorem max_and_min_are_attained (results : list row) (sql : string)
    (m : matchResult) :
  results <> [] ->
  exec sumRe sql = None -> exec countRe sql = None -> exec avgRe sql = None ->
  (exec maxRe sql = Some m ->
   exists key x,
     calculateAggregation results sql = [[(key, VNum x)]] /\
     (exists r, In r results /\ x = numberOrZero r (capture m 1)) /\
     (forall r, In r results -> le (numberOrZero r (capture m 1)) x = true)) /\
  (exec maxRe sql = None -> exec minRe sql = Some m ->
   exists key x,
     calculateAggregation results sql = [[(key, VNum x)]] /\
     (exists r, In r results /\ x = numberOrZero r (capture m 1)) /\
     (forall r, In r results -> le x (numberOrZero r (capture m 1)) = true)).
Proof.
  intros Hne Hs Hc Ha.
  assert (Hmap : map (fun r => numberOrZero r (capture m 1)) results <> []).
  { destruct results; [congruence|discriminate]. }
  split.
  - intros Hmax. unfold calculateAggregation. rewrite Hs, Hc, Ha, Hmax.
    eexists _, _. split; [reflexivity|].
    destruct (Math_max_bound _ Hmap (numbers_not_NaN results (capture m 1)))
      as [Hin Hall].
    split.
    + apply in_map_iff in Hin. destruct Hin as [r [E Hr]]. exists r. auto.
    + intros r Hr. apply Hall. apply in_map_iff. exists r. auto.
  - intros Hmax Hmin. unfold calculateAggregation. rewrite Hs, Hc, Ha, Hmax, Hmin.
    eexists _, _. split; [reflexivity|].
    destruct (Math_min_bound _ Hmap (numbers_not_NaN results (capture m 1)))
      as [Hin Hall].
    split.
    + apply in_map_iff in Hin. destruct Hin as [r [E Hr]]. exists r. auto.
    + intros r Hr. apply Hall. apply in_map_iff. exists r. auto.
Qed.

Lemma max_and_min_are_attained_witness :
  exists m,
    exec maxRe "SELECT MAX(Sales) as top FROM data" = Some m /\
    exists key x,
      calculateAggregation sales "SELECT MAX(Sales) as top FROM data" =
        [[(key, VNum x)]] /\
      (exists r, In r sales /\ x = numberOrZero r (capture m 1)) /\
      (forall r, In r sales -> le (numberOrZero r (capture m 1)) x = true).
Proof.
  destruct (exec maxRe "SELECT MAX(Sales) as top FROM data") as [m|] eqn:E;
    [|vm_compute in E; discriminate E].
  exists m. split; [reflexivity|].
  apply (max_and_min_are_attained sales "SELECT MAX(Sales) as top FROM data" m);
    [discriminate | vm_compute; reflexivity | vm_compute; reflexivity
    | vm_compute; reflexivity | exact E].
Defined.

(** X14.  For every schema and every dataset the vector store has one entry
    for each column of the schema, in the order of the schema; the entry of
    a column stores at most ten values, no two of them the same for [Set],
    each the cell of a row under the column (+0 for -0), and, when the
    column has no more than ten different cells, every cell of the column;
    and its sample count is the number of rows. *)
Theorem embeddings_store_distinct_cells (schemaData : list column)
    (sampleData : list row) :
  map Server.column (createVectorEmbeddings schemaData sampleData) =
    map name schemaData /\
  forall v, In v (createVectorEmbeddings schemaData sampleData) ->
    let cells := map (fun r => get r (Server.column v)) sampleData in
    List.length (storedValues v) <= 10 /\
    ForallOrdPairs different (storedValues v) /\
    (forall x, In x (storedValues v) -> exists y, In y cells /\ x = kept y) /\
    (List.length (distinct cells) <= 10 ->
     forall y, In y cells ->
       exists x, In x (storedValues v) /\ sameValueZero y x = true) /\
    option_map Server.sampleCount (Server.meta v) =
      Some (List.length sampleData).
Proof.
  split.
  - unfold createVectorEmbeddings. rewrite map_map. reflexivity.
  - intros v Hv. unfold createVectorEmbeddings in Hv.
    apply in_map_iff in Hv. destruct Hv as [col [<- _]].
    cbv zeta. unfold storedValues. cbn [Server.meta Server.distinctValues Server.column
                                         Server.sampleCount option_map].
    destruct (distinct_spec (map (fun r => get r (name col)) sampleData))
      as [H1 [H2 H3]].
    repeat split.
    + rewrite length_firstn. lia.
    + apply pairs_firstn. exact H1.
    + intros x Hx. apply H2.
      rewrite <- (firstn_skipn 10 (distinct _)). apply in_or_app. left. exact Hx.
    + intros Hlen y Hy. rewrite firstn_all2 by exact Hlen. apply H3. exact Hy.
Qed.

Lemma embeddings_store_distinct_cells_witness :
  exists x,
    In x (storedValues
            {| Server.column := "Sales"; Server.type := "NUMBER";
               Server.context := "Column: Sales, Type: NUMBER, Sample values: 100, 200, abc";
               Server.meta :=
                 Some {| Server.distinctValues :=
                           Some [VNum (ofZ 100); VNum (ofZ 200); VStr "abc"];
                         Server.sampleCount := 3 |} |}) /\
    sameValueZero (VStr "abc") x = true.
Proof.
  apply (proj2 (embeddings_store_distinct_cells
                  [{| name := "Sales"; type := "NUMBER" |}] sales)
           _ (or_introl eq_refl)).
  - vm_compute. lia.
  - right. right. left. reflexivity.
Defined.

(** X15.  For every question, schema and dataset: when a row has a text in
    the cell of a column that has no more than ten different cells, and the
    lower-cased question contains the lower-cased text, the filter of the
    server selects the entry that the client built for that column and
    sent with the request. *)
Theorem named_text_selects_column (question : string)
    (schemaData : list column) (sampleData : list row)
    (col : column) (r : row) (s : string) :
  In col schemaData ->
  In r sampleData ->
  get r (name col) = VStr s ->
  List.length (distinct (map (fun r => get r (name col)) sampleData)) <= 10 ->
  includes (toLowerCase question) (toLowerCase s) = true ->
  exists v,
    In v (createVectorEmbeddings schemaData sampleData) /\
    Server.column v = name col /\
    In (sent v)
       (Server.relevantColumns question
          (Some (map sent (createVectorEmbeddings schemaData sampleData)))).
Proof.
  intros Hcol Hr Hcell Hlen Hq.
  eexists. split; [|split].
  - unfold createVectorEmbeddings. apply in_map_iff. exists col.
    split; [reflexivity|exact Hcol].
  - reflexivity.
  - unfold Server.relevantColumns. apply filter_In. split.
    + apply in_map. unfold createVectorEmbeddings. apply in_map_iff.
      exists col. split; [reflexivity|exact Hcol].
    + unfold Server.isRelevant, sent.
      cbn [Server.meta Server.distinctValues Server.column option_map].
      apply orb_true_iff. right. apply existsb_exists.
      exists (VStr s). split; [|exact Hq].
      change (VStr s) with (jsonElement (VStr s)). apply in_map.
      rewrite firstn_all2 by exact Hlen.
      destruct (distinct_spec (map (fun r => get r (name col)) sampleData))
        as [_ [_ H3]].
      destruct (H3 (VStr s)) as [x [Hx Ex]].
      * rewrite <- Hcell.
        apply (in_map (fun r0 : row => get r0 (name col))). exact Hr.
      * apply sameValueZero_text in Ex. subst x. exact Hx.
Qed.

Lemma named_text_selects_column_witness :
  exists v,
    In v (createVectorEmbeddings [{| name := "Sales"; type := "NUMBER" |}] sales) /\
    Server.column v = "Sales" /\
    In (sent v)
       (Server.relevantColumns "rows with ABC"
          (Some (map sent (createVectorEmbeddings
                             [{| name := "Sales"; type := "NUMBER" |}] sales)))).
Proof.
  apply (named_text_selects_column "rows with ABC"
           [{| name := "Sales"; type := "NUMBER" |}] sales
           {| name := "Sales"; type := "NUMBER" |} [("Sales", VStr "abc")] "abc").
  - left. reflexivity.
  - right. right. left. reflexivity.
  - reflexivity.
  - vm_compute. lia.
  - vm_compute. reflexivity.
Defined.

(** X16.  Whenever the handler answers with a query, the question was a
    non-empty text in which the scan found no threat, the query is sent
    trimmed, and the validator accepts the query as it is sent, although it
    was run on the text before trimming. *)
Theorem answer_is_validated (question : option string)
    (vectorStore : option (list Server.vectorStoreEntry))
    (completion : option string) (sql : string) (rag : bool) :
  Server.generateSQL question vectorStore completion = Server.Generated sql rag ->
  Server.validateSQLGrammar sql = [] /\
  trim sql = sql /\
  exists text,
    question = Some text /\ text <> "" /\
    Server.detectPromptInjection text = [] /\
    (rag = true <-> Server.relevantColumns text vectorStore <> []).
Proof.
  intros H. apply generated_inv in H.
  destruct H as (text & content & -> & Hne & -> & Hd & Hv & -> & ->).
  split; [apply validate_trim; exact Hv|].
  split; [apply trim_idem|].
  exists text. repeat split; auto.
  - destruct (Server.relevantColumns text vectorStore); [discriminate|discriminate].
  - destruct (Server.relevantColumns text vectorStore); [congruence|reflexivity].
Qed.

Lemma answer_is_validated_witness :
  Server.validateSQLGrammar "SELECT `Country` FROM data WHERE `Rank` = 1" = [] /\
  trim "SELECT `Country` FROM data WHERE `Rank` = 1" =
    "SELECT `Country` FROM data WHERE `Rank` = 1" /\
  exists text,
    Some "Which country has rank 1" = Some text /\ text <> "" /\
    Server.detectPromptInjection text = [] /\
    (false = true <-> Server.relevantColumns text None <> []).
Proof.
  apply (answer_is_validated (Some "Which country has rank 1") None (Some fenced)).
  vm_compute. reflexivity.
Defined.

(** X17.  Whenever the handler answers with a query, the query is one line:
    of a completion of several lines only the first line that starts with
    SELECT is kept, and a query that goes on behind a line feed is cut
    there before it is validated. *)
Theorem answer_is_one_line (question : option string)
    (vectorStore : option (list Server.vectorStoreEntry))
    (completion : option string) (sql : string) (rag : bool) :
  Server.generateSQL question vectorStore completion = Server.Generated sql rag ->
  includes sql lineFeed = false.
Proof.
  intros H. apply generated_inv in H.
  destruct H as (text & content & -> & Hne & -> & Hd & Hv & -> & ->).
  apply includes_trim. apply accepted_one_line. exact Hv.
Qed.

Lemma answer_is_one_line_witness :
  includes "SELECT `Country` FROM data WHERE `Rank` = 1" lineFeed = false.
Proof.
  apply (answer_is_one_line (Some "Which country has rank 1") None
           (Some fenced) _ false).
  vm_compute. reflexivity.
Defined.

(** X18.  On every engine and for every dataset, the interpreter of the
    client does not refuse a query that the handler of the server answered
    with for a missing FROM clause. *)
Theorem answer_has_from (engine : ArraySort) (data : list row)
    (question : option string)
    (vectorStore : option (list Server.vectorStoreEntry))
    (completion : option string) (sql : string) (rag : bool) :
  Server.generateSQL question vectorStore completion = Server.Generated sql rag ->
  test fromRe sql = true /\
  executeSQL data sql <> Throw "Invalid SQL: Missing FROM clause".
Proof.
  intros H. apply generated_inv in H.
  destruct H as (text & content & -> & Hne & -> & Hd & Hv & -> & ->).
  apply validate_trim, validate_nil in Hv. destruct Hv as [Hfrom _].
  rewrite <- test_from in Hfrom. split; [exact Hfrom|].
  rewrite executeSQL_from, Hfrom. discriminate.
Qed.

Lemma answer_has_from_witness :
  test fromRe "SELECT `Country` FROM data WHERE `Rank` = 1" = true /\
  @executeSQL insertionEngine sales "SELECT `Country` FROM data WHERE `Rank` = 1"
    <> Throw "Invalid SQL: Missing FROM clause".
Proof.
  apply (answer_has_from insertionEngine sales
           (Some "Which country has rank 1") None (Some fenced) _ false).
  vm_compute. reflexivity.
Defined.

(** X19.  For a question that passes the scan, a completion whose first
    line that starts with SELECT begins with white space is refused: the
    line is found by its trimmed text and validated as it stands, and the
    validator does not accept white space before SELECT. *)
Theorem indented_select_is_refused (text : string)
    (vectorStore : option (list Server.vectorStoreEntry))
    (content : string) (c : ascii) (line : string) :
  text <> "" ->
  Server.detectPromptInjection text = [] ->
  Server.selectQuery (Server.cleanCompletion content) = String c line ->
  isSpace c = true ->
  exists details,
    Server.generateSQL (Some text) vectorStore (Some content) =
      Server.GrammarError details /\
    In "Query must start with SELECT" details.
Proof.
  intros Hne Hd Hline Hc.
  assert (Hin : In "Query must start with SELECT"
                   (Server.validateSQLGrammar (String c line))).
  { apply validate_select. rewrite selectStart_test.
    destruct (startsWithSelectSpace (String c line)) eqn:E; [|reflexivity].
    apply select_start_inv in E.
    destruct E as (c1 & c2 & c3 & c4 & c5 & c6 & c7 & rest & E & E1 & _).
    injection E as <- _.
    pose proof (letter_not_space c _ E1 eq_refl). congruence. }
  unfold Server.generateSQL. destruct text as [|t text]; [congruence|].
  cbv zeta. rewrite Hd. cbn [List.length Nat.ltb Nat.leb]. rewrite Hline.
  destruct (Server.validateSQLGrammar (String c line)) as [|e es]; [destruct Hin|].
  cbn [List.length Nat.ltb Nat.leb]. eexists. split; [reflexivity|exact Hin].
Qed.

Lemma indented_select_is_refused_witness :
  exists details,
    Server.generateSQL (Some "Show everything") None (Some explained) =
      Server.GrammarError details /\
    In "Query must start with SELECT" details.
Proof.
  apply (indented_select_is_refused "Show everything" None explained
           " "%char " SELECT * FROM data").
  - discriminate.
  - vm_compute. reflexivity.
  - vm_compute. reflexivity.
  - reflexivity.
Defined.

(** X20.  For a file name that ends with a dot and a non-empty extension
    without dot and slash, the extension that decides how the file is read
    is the lower-cased text behind the last dot, and the table name is the
    text before the last dot with an underscore for every code unit that
    is neither a letter of A-Z and a-z nor a digit.  A file name without a
    dot is its own extension, lower-cased, and gives the table name as a
    whole. *)
Theorem upload_name_parts (stem ext fileName : string) :
  (ext <> "" ->
   includes ext "." = false -> includes ext "/" = false ->
   fileExtension (stem ++ "." ++ ext) = toLowerCase ext /\
   baseFileName (stem ++ "." ++ ext) = underscored stem) /\
  (includes fileName "." = false ->
   fileExtension fileName = toLowerCase fileName /\
   baseFileName fileName = underscored fileName).
Proof.
  split.
  - intros Hne Hdot Hslash.
    pose proof (extension_chars ext Hdot Hslash) as Hclass.
    destruct ext as [|c ext]; [congruence|].
    cbn in Hclass. destruct (extensionChar c) eqn:Hc; [|discriminate].
    cbn [negb Nat.add] in Hclass. cbn [append].
    split.
    + unfold fileExtension, split. rewrite last_piece; [reflexivity|apply le_n|].
      apply no_dot. exact Hdot.
    + unfold baseFileName, replaceFirst.
      destruct (exec_extension stem c ext Hc Hclass) as [cs E]. rewrite E.
      cbn [index matched].
      replace (String.length stem + String.length (String "." (String c ext)))
        with (String.length (stem ++ String "." (String c ext)))
        by (rewrite length_app; reflexivity).
      rewrite drop_all, take_app_length. cbn [append].
      rewrite append_nil_r. reflexivity.
  - intros Hdot. apply no_dot in Hdot. split.
    + unfold fileExtension, split.
      assert (E : split_from (String.length fileName) fileName "." = [fileName]).
      { destruct (String.length fileName); cbn [split_from]; [reflexivity|].
        rewrite indexOf_no_dot by exact Hdot. reflexivity. }
      rewrite E. reflexivity.
    + unfold baseFileName, replaceFirst.
      rewrite exec_no_extension by exact Hdot. reflexivity.
Qed.

Lemma upload_name_parts_witness :
  (fileExtension ("sales 2024.v2" ++ "." ++ "CSV") = toLowerCase "CSV" /\
   baseFileName ("sales 2024.v2" ++ "." ++ "CSV") = underscored "sales 2024.v2") /\
  (fileExtension "README" = toLowerCase "README" /\
   baseFileName "README" = underscored "README").
Proof.
  split.
  - apply (upload_name_parts "sales 2024.v2" "CSV" "");
      [discriminate | reflexivity | reflexivity].
  - apply (upload_name_parts "" "" "README"). reflexivity.
Defined.

(** X21.  For every file name, the table name consists of letters of A-Z
    and a-z, digits and underscores only, and, unless it is empty, a FROM
    clause with it passes the FROM check of the validator. *)
Theorem table_name_is_a_word (fileName : string) :
  countOf (fun c => negb (isWord c)) (baseFileName fileName) = 0 /\
  (baseFileName fileName <> "" ->
   test Server.fromClause ("FROM " ++ baseFileName fileName) = true).
Proof.
  assert (H : countOf (fun c => negb (isWord c)) (baseFileName fileName) = 0).
  { unfold baseFileName.
    apply (countOf_weaker
             (fun c => negb (isAlphaNumeric c || Ascii.eqb c "_"))).
    - intros c Hc. rewrite <- word_class. exact Hc.
    - apply underscored_word. }
  split; [exact H|].
  intros Hne. destruct (baseFileName fileName) as [|c name]; [congruence|].
  cbn in H. destruct (isWord c) eqn:Hc; [|discriminate].
  cbn [negb Nat.add] in H.
  apply test_true.
  exists "", ("FROM" ++ " " ++ String c name), "". split; [reflexivity|].
  generalize (String.length ("FROM " ++ String c name)). intros total.
  unfold Server.fromClause. cbn [seqs].
  eapply MSeq; [apply (Matches_liti total "FROM" "FROM"); reflexivity|].
  eapply MSeq.
  { apply (plus_class_intro total true isSpace " "%char "" (String c name));
      reflexivity. }
  eapply MSeq; [apply MAltR; constructor|].
  eapply MSeq; [|apply MAltR; constructor].
  pose proof (plus_class_intro total true isWord c name "" Hc H) as P.
  rewrite append_nil_r in P. exact P.
Qed.

Lemma table_name_is_a_word_witness :
  test Server.fromClause ("FROM " ++ baseFileName "sales 2024.v2.CSV") = true.
Proof.
  apply (table_name_is_a_word "sales 2024.v2.CSV"). vm_compute. discriminate.
Defined.

(** X22.  For a question that passes the scan and a query of one line,
    trimmed, without a fence and accepted by the validator: when the
    completion of the model is that query, or that query in a Markdown fence
    marked sql, the handler answers with exactly that query. *)
Theorem valid_query_comes_back (text : string)
    (vectorStore : option (list Server.vectorStoreEntry)) (q : string) :
  text <> "" ->
  Server.detectPromptInjection text = [] ->
  Server.validateSQLGrammar q = [] ->
  trim q = q ->
  includes q lineFeed = false ->
  includes q "```" = false ->
  let rag := Nat.ltb 0 (List.length (Server.relevantColumns text vectorStore)) in
  Server.generateSQL (Some text) vectorStore (Some q) = Server.Generated q rag /\
  Server.generateSQL (Some text) vectorStore
    (Some ("```sql" ++ lineFeed ++ q ++ lineFeed ++ "```")) =
  Server.Generated q rag.
Proof.
  intros Hne Hd Hv Ht Hlf Hf. cbv zeta.
  unfold Server.generateSQL. destruct text as [|c text]; [congruence|].
  cbv zeta. rewrite Hd. cbn [List.length Nat.ltb Nat.leb].
  rewrite clean_bare, clean_fenced by assumption.
  rewrite select_one_line by exact Hlf. rewrite Hv, Ht.
  cbn [List.length Nat.ltb Nat.leb]. split; reflexivity.
Qed.

Lemma valid_query_comes_back_witness :
  Server.generateSQL (Some "Which country has rank 1") None
    (Some "SELECT `Country` FROM data WHERE `Rank` = 1") =
  Server.Generated "SELECT `Country` FROM data WHERE `Rank` = 1" false /\
  Server.generateSQL (Some "Which country has rank 1") None
    (Some ("```sql" ++ lineFeed ++ "SELECT `Country` FROM data WHERE `Rank` = 1" ++
           lineFeed ++ "```")) =
  Server.Generated "SELECT `Country` FROM data WHERE `Rank` = 1" false.
Proof.
  apply (valid_query_comes_back "Which country has rank 1" None
           "SELECT `Country` FROM data WHERE `Rank` = 1");
    try discriminate; vm_compute; reflexivity.
Defined.

(** X23.  A condition on a column that no row of the list has raises no
    error: the evaluator compares the text of the left operand itself,
    backticks included, with the right value, so the verdict is the same
    for every row and the WHERE filter keeps all the rows or none. *)
Theorem where_on_unknown_column (data : list row)
    (condition op lhs rhs : string) :
  firstOperator condition = Some op ->
  operands condition op = (lhs, Some rhs) ->
  (forall r key, In r data -> In key (keys r) ->
     toLowerCase key <> toLowerCase (trim (removeChars isBacktick lhs))) ->
  exists b,
    compareWith op (VStr lhs) (rightValue rhs) = Some b /\
    (forall r, In r data -> evaluateCondition r condition = Ok b) /\
    filter (passes condition) data = (if b then data else []).
Proof.
  intros Hop Hops Hnone.
  destruct (firstOperator_In _ _ Hop) as [Hin _].
  destruct (compareWith_total op (VStr lhs) (rightValue rhs) Hin) as [b Hb].
  exists b. split; [exact Hb|].
  assert (Hall : forall r, In r data -> evaluateCondition r condition = Ok b).
  { intros r Hr.
    destruct (evaluateCondition_first r condition op lhs rhs Hop Hops)
      as [b' [Hb' E]].
    rewrite leftValue_unknown in Hb' by (intros key Hkey; eapply Hnone; eassumption).
    congruence. }
  split; [exact Hall|].
  apply filter_constant. intros r Hr. unfold passes. rewrite (Hall r Hr).
  reflexivity.
Qed.

Lemma where_on_unknown_column_witness :
  exists b,
    compareWith "=" (VStr "`Region`") (rightValue "'North'") = Some b /\
    (forall r, In r sales -> evaluateCondition r "`Region` = 'North'" = Ok b) /\
    filter (passes "`Region` = 'North'") sales = (if b then sales else []).
Proof.
  apply (where_on_unknown_column sales "`Region` = 'North'" "=" "`Region`" "'North'").
  - vm_compute. reflexivity.
  - vm_compute. reflexivity.
  - intros r key Hr Hkey.
    assert (key = "Sales").
    { destruct Hr as [<-|[<-|[<-|[]]]]; destruct Hkey as [<-|[]]; reflexivity. }
    subst key. vm_compute. discriminate.
Defined.

(** X24.  Whenever the handler answers with a query, the query contains no
    Markdown fence: no three backticks in a row are left in it, wherever
    the completion of the model had fences. *)
Theorem answer_has_no_fence (question : option string)
    (vectorStore : option (list Server.vectorStoreEntry))
    (completion : option string) (sql : string) (rag : bool) :
  Server.generateSQL question vectorStore completion = Server.Generated sql rag ->
  includes sql "```" = false.
Proof.
  intros H. apply generated_inv in H.
  destruct H as (text & content & -> & Hne & -> & Hd & Hv & -> & ->).
  apply clean_no_fence.
Qed.

Lemma answer_has_no_fence_witness :
  includes "SELECT `Country` FROM data WHERE `Rank` = 1" "```" = false.
Proof.
  apply (answer_has_no_fence (Some "Which country has rank 1") None
           (Some ("```" ++ lineFeed ++ "SELECT `Country` FROM data WHERE `Rank` = 1```"))
           _ false).
  vm_compute. reflexivity.
Defined.

(** X25.  On every engine, whatever the model completes: when the endpoint
    is the handler of the server, a message of the user gets no reply only
    when it is blank or no schema is loaded; a security alert lists the
    threats of the scan of the client, of which there is one at least; a
    query that is answered passed the scan and the validator, is one line
    and comes with the rows the interpreter returns for it; and a failure
    is never the security violation or the missing question of the server,
    which the checks of the client come before, nor the missing FROM clause
    of the interpreter, which the validator of the server comes before. *)
Theorem conversation_end_to_end (engine : ArraySort)
    (completion : option string) (failure input : string) (schema : bool)
    (data : list row) (vectorStore : list Server.vectorStoreEntry) :
  let post : endpoint :=
    fun question store => Some (Server.generateSQL question store completion) in
  match handleSendMessage post failure input schema data vectorStore with
  | NoReply => trim input = "" \/ schema = false
  | SecurityAlert threats =>
      threats = detectPromptInjection input /\ threats <> []
  | Failure content =>
      content <> "Security violation detected" /\
      content <> "Question is required" /\
      content <> "Invalid SQL: Missing FROM clause"
  | Answer sql results =>
      detectPromptInjection input = [] /\
      Server.validateSQLGrammar sql = [] /\
      includes sql lineFeed = false /\
      executeSQL data sql = Ok results
  end.
Proof.
  cbv zeta. unfold handleSendMessage.
  destruct (strEq (trim input) "") eqn:Eblank.
  { cbn [orb]. left. apply String.eqb_eq. exact Eblank. }
  destruct schema; cbn [orb negb]; [|right; reflexivity].
  assert (Hinput : input <> "").
  { intros ->. discriminate Eblank. }
  unfold securityAlert. cbv zeta.
  destruct (detectPromptInjection input) as [|t ts] eqn:Escan;
    cbn [List.length Nat.ltb Nat.leb].
  2:{ split; [reflexivity|discriminate]. }
  unfold generateSQLWithRAG.
  destruct (Server.generateSQL (Some input) (Some (map sent vectorStore)) completion)
    as [|threats|details|sql rag|] eqn:Eanswer.
  - exfalso. unfold Server.generateSQL in Eanswer.
    destruct input as [|c input]; [congruence|].
    cbv zeta in Eanswer.
    change (Server.detectPromptInjection (String c input))
      with (detectPromptInjection (String c input)) in Eanswer.
    rewrite Escan in Eanswer. cbn [List.length Nat.ltb Nat.leb] in Eanswer.
    destruct completion; [|discriminate].
    destruct (Server.validateSQLGrammar _); discriminate.
  - exfalso. unfold Server.generateSQL in Eanswer.
    destruct input as [|c input]; [congruence|].
    cbv zeta in Eanswer.
    change (Server.detectPromptInjection (String c input))
      with (detectPromptInjection (String c input)) in Eanswer.
    rewrite Escan in Eanswer. cbn [List.length Nat.ltb Nat.leb] in Eanswer.
    destruct completion; [|discriminate].
    destruct (Server.validateSQLGrammar _); discriminate.
  - cbn [orStr]. repeat split; discriminate.
  - pose proof (generated_inv _ _ _ _ _ Eanswer)
      as (text & content & _ & _ & _ & _ & Hv & Esql & _).
    assert (Hvalid : Server.validateSQLGrammar sql = []).
    { rewrite Esql. apply validate_trim. exact Hv. }
    assert (Hline : includes sql lineFeed = false).
    { rewrite Esql. apply includes_trim. apply accepted_one_line. exact Hv. }
    rewrite executeSQL_from.
    pose proof (proj1 (validate_nil sql) Hvalid) as [Hfrom _].
    rewrite test_from, Hfrom.
    repeat split; auto.
    rewrite executeSQL_from, test_from, Hfrom. reflexivity.
  - cbn [orStr]. repeat split; discriminate.
Qed.

Lemma conversation_end_to_end_witness :
  detectPromptInjection "Which country has rank 1" = [] /\
  Server.validateSQLGrammar "SELECT `Country` FROM data WHERE `Rank` = 1" = [] /\
  includes "SELECT `Country` FROM data WHERE `Rank` = 1" lineFeed = false /\
  @executeSQL insertionEngine
    [[("Country", VStr "Nepal"); ("Rank", VNum (ofZ 1))];
     [("Country", VStr "Peru"); ("Rank", VNum (ofZ 2))]]
    "SELECT `Country` FROM data WHERE `Rank` = 1" =
  Ok [[("Country", VStr "Nepal")]].
Proof.
  pose proof (conversation_end_to_end insertionEngine (Some fenced)
                "Failed to fetch" "Which country has rank 1" true
                [[("Country", VStr "Nepal"); ("Rank", VNum (ofZ 1))];
                 [("Country", VStr "Peru"); ("Rank", VNum (ofZ 2))]] []) as H.
  vm_compute in H. vm_compute. exact H.
Defined.
